(** * bumpx: a shallow embedding of [src/bumpx.cpp]

    The development follows the source file top to bottom: the small
    integer helpers, the pixel records, [Bitmap] and [Texture], the mip
    builder, the BC3 block dispatchers, the reference BC3 decoder, the DDS
    writer and finally the body of [Main] from the point where the three
    input images have been loaded.  [LoadBitmap] (after the image decoder)
    and the command line of [Main] (module [Cli]) are modelled beside it.

    Conventions.
    - [size_t] values (dimensions, offsets, counts) are [nat]; the source
      runs on a 64-bit [size_t] and none of the modelled sizes comes near
      the wrap-around, which is stated as a hypothesis where it matters.
    - [uint8_t], [uint16_t], [uint32_t], [uint64_t] and [int] values are
      [Z]; narrowing conversions are written out with [mod].
    - A [uint8_t*] is a byte list together with an offset.  C++ leaves
      out-of-range accesses undefined; here an out-of-range store changes
      nothing and an out-of-range load reads [0].
    - [float] is IEEE-754 binary32 with round-to-nearest-even, evaluated
      operation by operation (module [F32]). *)

From Stdlib Require Import ZArith QArith Qround Qabs Lia Bool.
From Stdlib Require String Ascii.
From stdpp Require Import base list.

Local Open Scope nat_scope.

(** ** Integer helpers (lines 79-96) *)

Definition kMinMipSize : nat := 4.

(** [while (v >>= 1) ++result;] with the loop state [(v, result)].  The
    fuel is the width of [size_t]: every iteration shifts one bit out. *)
Fixpoint Log2I_loop (fuel v result : nat) : nat :=
  match fuel with
  | O => result
  | S fuel' =>
      let v' := Nat.shiftr v 1 in
      if Nat.eqb v' 0 then result else Log2I_loop fuel' v' (S result)
  end.

Definition size_t_bits : nat := 64.

Definition Log2I (v : nat) : nat := Log2I_loop size_t_bits v 0.

(** [std::min(std::max(left, v), right)] on [int]. *)
Definition Clamp (v left right : Z) : Z := Z.min (Z.max left v) right.

(** [v != 0 && (v & (v - 1)) == 0]; [&&] short-circuits, so [v - 1] is
    never taken at [0]. *)
Definition IsPowerOfTwo (v : nat) : bool :=
  negb (Nat.eqb v 0) && Nat.eqb (Nat.land v (v - 1)) 0.

(** ** Pixels (lines 108-163) *)

Module PixelMono.
Record t : Type := mk { r : Z }.
End PixelMono.

Module PixelRgb.
Record t : Type := mk { r : Z; g : Z; b : Z }.
End PixelRgb.

Module PixelRgba.
Record t : Type := mk { r : Z; g : Z; b : Z; a : Z }.
End PixelRgba.

(** The interface the templates rely on: [sizeof(T)], the packed byte
    image of a pixel (what [reinterpret_cast<uint8_t*>] exposes), the
    value-initialised pixel [{0}], and the body of the normalisation
    lambda of [MakeMip] for the pixel types that have three channels. *)
Class Pixel (T : Type) : Type := {
  BytesPerPixel : nat;
  pixel_bytes : T -> list Z;
  pixel_of_bytes : list Z -> T;
  pixel_zero : T;
  pixel_normalize : T -> T;
}.

Definition byte_at (bs : list Z) (i : nat) : Z := nth i bs 0%Z.

(** [ConvertPixel] specialisations. *)
Definition luminance (r g b : Z) : Z :=
  let l := (Z.shiftl r 1 + (Z.shiftl g 2 + g) + b)%Z in
  Z.land (Z.shiftr l 3) 255.

Definition ConvertPixel_Rgb_Mono (src : PixelRgb.t) : PixelMono.t :=
  PixelMono.mk (luminance (PixelRgb.r src) (PixelRgb.g src) (PixelRgb.b src)).

Definition ConvertPixel_Rgba_Mono (src : PixelRgba.t) : PixelMono.t :=
  PixelMono.mk (luminance (PixelRgba.r src) (PixelRgba.g src) (PixelRgba.b src)).

Definition ConvertPixel_Mono_Rgb (src : PixelMono.t) : PixelRgb.t :=
  PixelRgb.mk (PixelMono.r src) (PixelMono.r src) (PixelMono.r src).

Definition ConvertPixel_Mono_Rgba (src : PixelMono.t) : PixelRgba.t :=
  PixelRgba.mk (PixelMono.r src) (PixelMono.r src) (PixelMono.r src) 255.

Definition ConvertPixel_Rgba_Rgb (src : PixelRgba.t) : PixelRgb.t :=
  PixelRgb.mk (PixelRgba.r src) (PixelRgba.g src) (PixelRgba.b src).

Definition ConvertPixel_Rgb_Rgba (src : PixelRgb.t) : PixelRgba.t :=
  PixelRgba.mk (PixelRgb.r src) (PixelRgb.g src) (PixelRgb.b src) 255.

(** ** Bitmap and Texture (lines 166-200) *)

Record Bitmap (T : Type) : Type := mkBitmap {
  pixels : list T;
  width : nat;
  height : nat;
}.
Arguments mkBitmap {T} _ _ _.
Arguments pixels {T} _.
Arguments width {T} _.
Arguments height {T} _.

(** [Bitmap(w, h, value)]: [pixels(w * h, value)]. *)
Definition Bitmap_new {T} (w h : nat) (value : T) : Bitmap T :=
  mkBitmap (replicate (w * h) value) w h.

Definition Bitmap_empty {T} (bmp : Bitmap T) : bool :=
  match pixels bmp with [] => true | _ => false end.

Definition Bitmap_clear {T} (bmp : Bitmap T) : Bitmap T := mkBitmap [] 0 0.

(** The data-model invariant [pixels.len == width * height]. *)
Definition Bitmap_wf {T} (bmp : Bitmap T) : Prop :=
  length (pixels bmp) = width bmp * height bmp.

Record Texture (T : Type) : Type := mkTexture { mips : list (Bitmap T) }.
Arguments mkTexture {T} _.
Arguments mips {T} _.

(** The constructor loop: [numMips] rounds of [push_back] with the running
    [(mipW, mipH)]. *)
Fixpoint Texture_push {T} `{Pixel T} (n mipW mipH : nat) : list (Bitmap T) :=
  match n with
  | O => []
  | S n' =>
      Bitmap_new mipW mipH pixel_zero
        :: Texture_push n' (Nat.max (mipW / 2) kMinMipSize)
                           (Nat.max (mipH / 2) kMinMipSize)
  end.

Definition Texture_new {T} `{Pixel T} (w h : nat) : Texture T :=
  let numMips := Log2I (Nat.max w h) in
  mkTexture (Texture_push numMips w h).

(** ** binary32 arithmetic

    [float] values are carried as the exact rational they denote.  Every
    operation computes the exact result and rounds it to the nearest
    binary32 value, ties to even, with the subnormal exponent floor.
    Infinities and NaN are not represented: the source divides by a
    constant or by the length of a vector that cannot vanish, takes roots
    of non-negative values only, and stays far below the overflow
    threshold. *)

Module F32.
Local Open Scope Z_scope.

Definition t : Type := Q.

Definition pow2 (e : Z) : Q :=
  if 0 <=? e then inject_Z (2 ^ e) else Qinv (inject_Z (2 ^ (- e))).

(** [floor (log2 x)] for [x > 0]. *)
Definition ilog2 (x : Q) : Z :=
  let k := Z.log2 (Qnum x) - Z.log2 (Zpos (Qden x)) in
  if Qle_bool (pow2 k) x then k else k - 1.

(** Nearest integer, ties to even. *)
Definition nearest_even (x : Q) : Z :=
  let f := Qfloor x in
  match Qcompare (Qminus x (inject_Z f)) (1 # 2) with
  | Lt => f
  | Gt => f + 1
  | Eq => if Z.even f then f else f + 1
  end.

Definition round (x : Q) : t :=
  if Qeq_bool x 0 then 0%Q
  else
    let e := Z.max (ilog2 (Qabs x) - 23) (-149) in
    Qred (Qmult (inject_Z (nearest_even (Qdiv x (pow2 e)))) (pow2 e)).

Definition of_Z (n : Z) : t := round (inject_Z n).
Definition add (x y : t) : t := round (Qplus x y).
Definition sub (x y : t) : t := round (Qminus x y).
Definition mul (x y : t) : t := round (Qmult x y).
Definition div (x y : t) : t := round (Qdiv x y).

(** [std::sqrt] on [float], correctly rounded. *)
Definition sqrt (x : t) : t :=
  if Qle_bool x 0 then 0%Q
  else
    let e := ilog2 x / 2 - 23 in
    let y := Qdiv x (pow2 (2 * e)) in
    let s := Z.sqrt (Qfloor y) in
    let m :=
      match Qcompare (Qmult (inject_Z 4) y) (inject_Z ((2 * s + 1) * (2 * s + 1))) with
      | Lt => s
      | Gt => s + 1
      | Eq => if Z.even s then s else s + 1
      end in
    Qred (Qmult (inject_Z m) (pow2 e)).

Definition ltb (x y : t) : bool := negb (Qle_bool y x).

(** [std::max(a, b)] is [(a < b) ? b : a]; [std::min(a, b)] is
    [(b < a) ? b : a]. *)
Definition max (a b : t) : t := if ltb a b then b else a.
Definition min (a b : t) : t := if ltb b a then b else a.
Definition Clamp (v left right : t) : t := min (max left v) right.

(** [static_cast<uint8_t>(float)]: truncation toward zero.  The source
    only converts values whose integer part lies in [0, 255]. *)
Definition to_uint8 (x : t) : Z := Z.quot (Qnum x) (Zpos (Qden x)) mod 256.

Definition half : t := (1 # 2)%Q.
End F32.

(** The gloss curve of [Main]'s assembly lambda (line 717). *)
Definition gloss_log (gr : Z) : Z :=
  F32.to_uint8
    (F32.mul (F32.sqrt (F32.div (F32.of_Z gr) (F32.of_Z 255))) (F32.of_Z 255)).

(** One channel of the normalisation lambda of [MakeMip] (lines 289-299):
    unpack to [-1, 1], and repack after scaling by [il]. *)
Definition unpack_channel (c : Z) : F32.t :=
  F32.sub
    (F32.mul (F32.Clamp (F32.div (F32.of_Z c) (F32.of_Z 255)) (F32.of_Z 0) (F32.of_Z 1))
             (F32.of_Z 2))
    (F32.of_Z 1).

Definition repack_channel (x : F32.t) : Z :=
  F32.to_uint8
    (F32.Clamp (F32.mul (F32.add (F32.mul x F32.half) F32.half) (F32.of_Z 255))
               (F32.of_Z 0) (F32.of_Z 255)).

Definition normalize_rgb (pr pg pb : Z) : Z * Z * Z :=
  let x := unpack_channel pr in
  let y := unpack_channel pg in
  let z := unpack_channel pb in
  let il :=
    F32.div (F32.of_Z 1)
            (F32.sqrt (F32.add (F32.add (F32.mul x x) (F32.mul y y)) (F32.mul z z))) in
  let x := F32.mul x il in
  let y := F32.mul y il in
  let z := F32.mul z il in
  (repack_channel x, repack_channel y, repack_channel z).

(** ** Pixel buffers as bytes

    [reinterpret_cast<uint8_t*>(pixels.data())]: the packed structs lie
    back to back, [r] first. *)

Definition to_u8 (v : Z) : Z := (v mod 256)%Z.

Definition normalize_rgba (p : PixelRgba.t) : PixelRgba.t :=
  (* [T result = { 0 };] then [result.r], [result.g], [result.b] are
     assigned; [result.a] keeps its initial value. *)
  let '(nr, ng, nb) := normalize_rgb (PixelRgba.r p) (PixelRgba.g p) (PixelRgba.b p) in
  PixelRgba.mk nr ng nb 0.

Definition normalize_rgb_pixel (p : PixelRgb.t) : PixelRgb.t :=
  let '(nr, ng, nb) := normalize_rgb (PixelRgb.r p) (PixelRgb.g p) (PixelRgb.b p) in
  PixelRgb.mk nr ng nb.

#[export] Instance Pixel_Mono : Pixel PixelMono.t := {|
  BytesPerPixel := 1;
  pixel_bytes p := [PixelMono.r p];
  pixel_of_bytes bs := PixelMono.mk (byte_at bs 0);
  pixel_zero := PixelMono.mk 0;
  pixel_normalize p := p;
|}.

#[export] Instance Pixel_Rgb : Pixel PixelRgb.t := {|
  BytesPerPixel := 3;
  pixel_bytes p := [PixelRgb.r p; PixelRgb.g p; PixelRgb.b p];
  pixel_of_bytes bs := PixelRgb.mk (byte_at bs 0) (byte_at bs 1) (byte_at bs 2);
  pixel_zero := PixelRgb.mk 0 0 0;
  pixel_normalize := normalize_rgb_pixel;
|}.

#[export] Instance Pixel_Rgba : Pixel PixelRgba.t := {|
  BytesPerPixel := 4;
  pixel_bytes p := [PixelRgba.r p; PixelRgba.g p; PixelRgba.b p; PixelRgba.a p];
  pixel_of_bytes bs :=
    PixelRgba.mk (byte_at bs 0) (byte_at bs 1) (byte_at bs 2) (byte_at bs 3);
  pixel_zero := PixelRgba.mk 0 0 0 0;
  pixel_normalize := normalize_rgba;
|}.

Definition bytes_of_pixels {T} `{Pixel T} (ps : list T) : list Z :=
  concat (map pixel_bytes ps).

(** The first [n] pixels held by a byte buffer. *)
Definition pixels_of_bytes {T} `{Pixel T} (n : nat) (bs : list Z) : list T :=
  map (fun k => pixel_of_bytes (take BytesPerPixel (drop (k * BytesPerPixel) bs)))
      (seq 0 n).

(** The values [0, 4, 8, ...] taken by the counter of
    [for (size_t y = 0; y < n; y += 4)]. *)
Definition steps4 (n : nat) : list nat := map (fun j => 4 * j) (seq 0 ((n + 3) / 4)).

(** Binary [std::transform(first.begin(), first.end(), second.begin(),
    out.begin(), op)].  It stops at the end of [first]; a shorter [second]
    or [out] is undefined behaviour in the source and truncates here. *)
Definition transform2 {A B C} (op : A -> B -> C)
    (first : list A) (second : list B) (out : list C) : list C :=
  list_inserts 0 (zip_with op first second) out.

(** ** LoadBitmap (lines 203-279)

    The file read and [stbi_load_from_memory] are external: [file_good] is
    [file.good()] and [decoded] is what the decoder returned, [None] for a
    null pointer.  The part modelled is what [LoadBitmap] does with the
    decoded image. *)

Record StbImage : Type := mkStbImage {
  stb_w : nat;
  stb_h : nat;
  stb_comp : nat;
  stb_data : list Z;
}.

(** Unary [std::transform] from a byte buffer read as [n] pixels of type
    [A] to the bytes of the converted pixels. *)
Definition convert_pixels {A B} `{Pixel A} `{Pixel B} (f : A -> B) (n : nat)
    (src : list Z) : list Z :=
  bytes_of_pixels (map f (pixels_of_bytes (T:=A) n src)).

Definition LoadBitmap {T} `{Pixel T} (file_good : bool) (decoded : option StbImage)
    : Bitmap T :=
  if file_good then
    (match decoded with
    | None => Bitmap_new 0 0 pixel_zero
    | Some img =>
        let w := stb_w img in
        let h := stb_h img in
        let comp := stb_comp img in
        let imgData := stb_data img in
        let result := Bitmap_new w h (pixel_zero (T:=T)) in
        let n := length (pixels result) in
        let buf := bytes_of_pixels (pixels result) in
        (* what ends up in [result] once [bytes] have been written to
           [result.pixels.data()] *)
        let filled bytes :=
          mkBitmap (pixels_of_bytes (T:=T) n
                      (list_inserts 0 (take (length buf) bytes) buf)) w h in
        let desiredBpp := BytesPerPixel (T:=T) in
        if comp =? desiredBpp then filled (take (n * desiredBpp) imgData)
        else
          let permutation := comp * 10 + desiredBpp in
          if permutation =? 31 then filled (convert_pixels ConvertPixel_Rgb_Mono (w * h) imgData)
          else if permutation =? 41 then filled (convert_pixels ConvertPixel_Rgba_Mono (w * h) imgData)
          else if permutation =? 13 then filled (convert_pixels ConvertPixel_Mono_Rgb (w * h) imgData)
          else if permutation =? 14 then filled (convert_pixels ConvertPixel_Mono_Rgba (w * h) imgData)
          else if permutation =? 34 then filled (convert_pixels ConvertPixel_Rgb_Rgba (w * h) imgData)
          else if permutation =? 43 then filled (convert_pixels ConvertPixel_Rgba_Rgb (w * h) imgData)
          else Bitmap_new 0 0 pixel_zero
     end)
  else Bitmap_new 0 0 pixel_zero.

(** ** External collaborators

    The resampler of stb_image_resize and the three block encoders
    (stb_dxt, squish, rgbcx) are not part of the repository.  Each is
    taken as the function from what it reads to the bytes it writes. *)
Class Externals : Type := {
  (** [stbir_resize_uint8(in, in_w, in_h, 0, out, out_w, out_h, 0, channels)]:
      the bytes written to [out]. *)
  stbir_resize_uint8 : list Z -> nat -> nat -> nat -> nat -> nat -> list Z;
  (** [stb_compress_dxt_block(dst, pixelsBlock, 1, STB_DXT_HIGHQUAL)] *)
  stb_compress_dxt_block : list Z -> list Z;
  (** [squish::Compress(pixelsBlock, dst, kDxt5 | kColourIterativeClusterFit)] *)
  squish_Compress : list Z -> list Z;
  (** [rgbcx::encode_bc3(MAX_LEVEL, dst, pixelsBlock)] *)
  rgbcx_encode_bc3 : list Z -> list Z;
}.

Definition Bitmap_default {T} : Bitmap T := mkBitmap [] 0 0.

Section Mips.
Context `{Externals}.
Context {T : Type} `{Pixel T}.

(** ** Mip builder (lines 281-313) *)

Definition MakeMip (normalize : bool) (src dst : Bitmap T) : Bitmap T :=
  let resized :=
    stbir_resize_uint8 (bytes_of_pixels (pixels src)) (width src) (height src)
                       (width dst) (height dst) BytesPerPixel in
  let n := length (pixels dst) in
  let buf := bytes_of_pixels (pixels dst) in
  let downsampled :=
    pixels_of_bytes n (list_inserts 0 (take (length buf) resized) buf) in
  if normalize && (3 <=? BytesPerPixel)
  then mkBitmap (map pixel_normalize downsampled) (width dst) (height dst)
  else mkBitmap downsampled (width dst) (height dst).

Definition BuildMipchain (isNormalmap : bool) (texture : Texture T) : Texture T :=
  let numMips := length (mips texture) in
  mkTexture
    (fold_left
       (fun ms i =>
          let srcMip := Z.to_nat (Z.max 0 (Z.of_nat i - 3)) in
          <[i := MakeMip isNormalmap (nth srcMip ms Bitmap_default)
                                     (nth i ms Bitmap_default)]> ms)
       (seq 1 (numMips - 1)) (mips texture)).
End Mips.

(** ** BC3 encoder dispatch (lines 315-373) *)

Section Compress.
Context `{Externals}.

(** The four [memcpy]s that gather a 4x4 block into [pixelsBlock]. *)
Definition gather_block (srcPtr : list Z) (bmp_width x y : nat) : list Z :=
  let src := (y * bmp_width + x) * 4 in
  concat (map (fun i => map (fun j => byte_at srcPtr (src + i * (bmp_width * 4) + j))
                            (seq 0 16))
              (seq 0 4)).

(** The shared loop nest; [encode] is the block encoder of the tier and
    the state is [(outBlocks, dst)]. *)
Definition CompressBC3_blocks (encode : list Z -> list Z)
    (bmp : Bitmap PixelRgba.t) (outBlocks : list Z) : list Z :=
  let srcPtr := bytes_of_pixels (pixels bmp) in
  fst (fold_left
         (fun st y =>
            fold_left
              (fun '(out, dst) x =>
                 let pixelsBlock := gather_block srcPtr (width bmp) x y in
                 (list_inserts dst (take 16 (encode pixelsBlock)) out, dst + 16))
              (steps4 (width bmp)) st)
         (steps4 (height bmp)) (outBlocks, 0)).

Definition CompressBC3_STB := CompressBC3_blocks stb_compress_dxt_block.
Definition CompressBC3_Squish := CompressBC3_blocks squish_Compress.
Definition CompressBC3_RGBCX := CompressBC3_blocks rgbcx_encode_bc3.
End Compress.

(** ** BC3 reference decoder (lines 375-465) *)

Local Open Scope Z_scope.

(** [reinterpret_cast<const uint16_t*>(src)[i]] and
    [*reinterpret_cast<const uint64_t*>(src)] on a little-endian target. *)
Definition load_u16 (src : list Z) (off : nat) : Z :=
  byte_at src off + 256 * byte_at src (off + 1).

Definition load_u64 (src : list Z) (off : nat) : Z :=
  fold_right (fun i acc => byte_at src (off + i) + 256 * acc) 0 (seq 0 8).

(** The RGB565 endpoint stored into a row of [colors]. *)
Definition expand565 (c : Z) : list Z :=
  [ to_u8 (Z.shiftl (Z.land (Z.shiftr c 11) 31) 3);
    to_u8 (Z.shiftl (Z.land (Z.shiftr c 5) 63) 2);
    to_u8 (Z.shiftl (Z.land c 31) 3) ].

(** [uint8_t colors[4][3]] after the two endpoint rows and the two
    computed rows have been filled in. *)
Definition color_table (isBC3 : bool) (c0 c1 : Z) : list (list Z) :=
  let e0 := expand565 c0 in
  let e1 := expand565 c1 in
  if (c1 <? c0) || isBC3 then
    [ e0; e1;
      zip_with (fun a b => to_u8 ((2 * a + b + 1) / 3)) e0 e1;
      zip_with (fun a b => to_u8 ((a + 2 * b + 1) / 3)) e0 e1 ]
  else
    [ e0; e1;
      zip_with (fun a b => to_u8 (Z.shiftr (a + b + 1) 1)) e0 e1;
      [0; 0; 0] ].

Definition color_entry (colors : list (list Z)) (index : Z) (i : nat) : Z :=
  nth i (nth (Z.to_nat index) colors []) 0.

(** The [x] loop of [DecodeBCColorBlock]; the state is the destination
    memory, the write pointer [dst] and the remaining [indexes]. *)
Fixpoint color_row (n : nat) (mem : list Z) (dst xOff : nat) (indexes : Z)
    (colors : list (list Z)) : list Z :=
  match n with
  | O => mem
  | S n' =>
      let index := Z.land indexes 3 in
      let mem := <[dst := color_entry colors index 0]> mem in
      let mem := <[(dst + 1)%nat := color_entry colors index 1]> mem in
      let mem := <[(dst + 2)%nat := color_entry colors index 2]> mem in
      color_row n' mem (dst + xOff)%nat xOff (Z.shiftr indexes 2) colors
  end.

(** The [y] loop of [DecodeBCColorBlock]: row [y] starts at
    [dest + yOff * y] and takes its four indices from [src[y]]. *)
Definition color_rows (colors : list (list Z)) (w xOff yOff dest : nat)
    (src : list Z) (soff : nat) (h : nat) (mem : list Z) : list Z :=
  fold_left
    (fun mem y =>
       color_row w mem (dest + yOff * y)%nat xOff (byte_at src (soff + y)) colors)
    (seq 0 h) mem.

Definition DecodeBCColorBlock (isBC3 : bool) (mem : list Z)
    (dest w h xOff yOff : nat) (src : list Z) (soff : nat) : list Z :=
  let c0 := load_u16 src soff in
  let c1 := load_u16 src (soff + 2) in
  let colors := color_table isBC3 c0 c1 in
  let soff := (soff + 4)%nat in
  color_rows colors w xOff yOff dest src soff h mem.

(** The value stored for a 3-bit index [k]; the arithmetic is [uint32_t]
    and the store narrows to [uint8_t]. *)
Definition alpha_value (a0 a1 k : Z) : Z :=
  if k =? 0 then a0
  else if k =? 1 then a1
  else if a1 <? a0 then to_u8 (((8 - k) * a0 + (k - 1) * a1) / 7)
  else if 6 <=? k then (if k =? 6 then 0 else 255)
  else to_u8 (((6 - k) * a0 + (k - 1) * a1) / 5).

(** The [x] loop of [DecodeBC3AlphaBlock]; it hands the shifted bit stream
    back to the row loop. *)
Fixpoint alpha_row (n : nat) (mem : list Z) (dst xOff : nat) (a0 a1 alpha : Z)
    : list Z * Z :=
  match n with
  | O => (mem, alpha)
  | S n' =>
      let k := Z.land alpha 7 in
      alpha_row n' (<[dst := alpha_value a0 a1 k]> mem) (dst + xOff)%nat xOff
                a0 a1 (Z.shiftr alpha 3)
  end.

(** The [y] loop of [DecodeBC3AlphaBlock]; after a row narrower than
    four pixels the unread indices of that row are skipped. *)
Definition alpha_rows (a0 a1 : Z) (w xOff yOff dest h : nat) (st : list Z * Z)
    : list Z * Z :=
  fold_left
    (fun '(mem, alpha) y =>
       let '(mem, alpha) := alpha_row w mem (dest + yOff * y)%nat xOff a0 a1 alpha in
       if (w <? 4)%nat
       then (mem, Z.shiftr alpha (3 * (4 - Z.of_nat w)))
       else (mem, alpha))
    (seq 0 h) st.

Definition DecodeBC3AlphaBlock (mem : list Z)
    (dest w h xOff yOff : nat) (src : list Z) (soff : nat) : list Z :=
  let a0 := byte_at src soff in
  let a1 := byte_at src (soff + 1) in
  let alpha := Z.shiftr (load_u64 src soff) 16 in
  fst (alpha_rows a0 a1 w xOff yOff dest h (mem, alpha)).

(** One round of the block loops of [DecompressBC3_MY]; the state is the
    destination memory and the read pointer [src]. *)
Definition decompress_block (inputBlocks : list Z) (out_width x y : nat)
    (st : list Z * nat) : list Z * nat :=
  let '(mem, src) := st in
  let dst := ((y * out_width + x) * 4)%nat in
  let mem := DecodeBC3AlphaBlock mem (dst + 3) 4 4 4 (out_width * 4) inputBlocks src in
  let src := (src + 8)%nat in
  let mem := DecodeBCColorBlock true mem dst 4 4 4 (out_width * 4) inputBlocks src in
  let src := (src + 8)%nat in
  (mem, src).

Definition DecompressBC3_bytes (inputBlocks : list Z) (out_width out_height : nat)
    (dest : list Z) : list Z :=
  fst (fold_left
         (fun st y =>
            fold_left (fun st x => decompress_block inputBlocks out_width x y st)
                      (steps4 out_width) st)
         (steps4 out_height) (dest, 0%nat)).

Definition DecompressBC3_MY (inputBlocks : list Z) (output : Bitmap PixelRgba.t)
    : Bitmap PixelRgba.t :=
  let dest := bytes_of_pixels (pixels output) in
  mkBitmap
    (pixels_of_bytes (length (pixels output))
       (DecompressBC3_bytes inputBlocks (width output) (height output) dest))
    (width output) (height output).

(** ** DDS writer (lines 468-545) *)

Definition kDDSFileSignature : Z := 0x20534444.

Record DDCOLORKEY : Type := mkDDCOLORKEY {
  ck_dwUnused0 : Z;
  ck_dwUnused1 : Z;
}.

Record DDPIXELFORMAT : Type := mkDDPIXELFORMAT {
  pf_dwSize : Z;
  pf_dwFlags : Z;
  pf_dwFourCC : Z;
  pf_dwRGBBitCount : Z;
  pf_dwRBitMask : Z;
  pf_dwGBitMask : Z;
  pf_dwBBitMask : Z;
  pf_dwRGBAlphaBitMask : Z;
}.

Record DDSCAPS2 : Type := mkDDSCAPS2 {
  dwCaps : Z;
  dwCaps2 : Z;
  dwCaps3 : Z;
  dwCaps4 : Z;
}.

Record DDSURFACEDESC2 : Type := mkDDSURFACEDESC2 {
  dwSize : Z;
  dwFlags : Z;
  dwHeight : Z;
  dwWidth : Z;
  lPitch : Z;
  dwBackBufferCount : Z;
  dwMipMapCount : Z;
  dwAlphaBitDepth : Z;
  dwUnused0 : Z;
  lpSurface : Z;
  unused0 : DDCOLORKEY;
  unused1 : DDCOLORKEY;
  unused2 : DDCOLORKEY;
  unused3 : DDCOLORKEY;
  ddpfPixelFormat : DDPIXELFORMAT;
  ddsCaps : DDSCAPS2;
  dwUnused1 : Z;
}.

(** The object representation of a [uint32_t] on a little-endian target. *)
Definition u32le (v : Z) : list Z :=
  [ v mod 256; (v / 256) mod 256; (v / 65536) mod 256; (v / 16777216) mod 256 ].

Definition bytes_of_DDCOLORKEY (k : DDCOLORKEY) : list Z :=
  u32le (ck_dwUnused0 k) ++ u32le (ck_dwUnused1 k).

Definition bytes_of_DDPIXELFORMAT (p : DDPIXELFORMAT) : list Z :=
  u32le (pf_dwSize p) ++ u32le (pf_dwFlags p) ++ u32le (pf_dwFourCC p)
  ++ u32le (pf_dwRGBBitCount p) ++ u32le (pf_dwRBitMask p) ++ u32le (pf_dwGBitMask p)
  ++ u32le (pf_dwBBitMask p) ++ u32le (pf_dwRGBAlphaBitMask p).

Definition bytes_of_DDSCAPS2 (c : DDSCAPS2) : list Z :=
  u32le (dwCaps c) ++ u32le (dwCaps2 c) ++ u32le (dwCaps3 c) ++ u32le (dwCaps4 c).

(** What [file.write(rcast<const char*>(&desc), sizeof(desc))] emits: the
    members in declaration order; all are 32 bits wide, so there is no
    padding. *)
Definition bytes_of_DDSURFACEDESC2 (d : DDSURFACEDESC2) : list Z :=
  u32le (dwSize d) ++ u32le (dwFlags d) ++ u32le (dwHeight d) ++ u32le (dwWidth d)
  ++ u32le (lPitch d) ++ u32le (dwBackBufferCount d) ++ u32le (dwMipMapCount d)
  ++ u32le (dwAlphaBitDepth d) ++ u32le (dwUnused0 d) ++ u32le (lpSurface d)
  ++ bytes_of_DDCOLORKEY (unused0 d) ++ bytes_of_DDCOLORKEY (unused1 d)
  ++ bytes_of_DDCOLORKEY (unused2 d) ++ bytes_of_DDCOLORKEY (unused3 d)
  ++ bytes_of_DDPIXELFORMAT (ddpfPixelFormat d)
  ++ bytes_of_DDSCAPS2 (ddsCaps d)
  ++ u32le (dwUnused1 d).

(** [sizeof]: 8 and 4 [uint32_t] members, and 10 + 4 * 2 + 8 + 4 + 1. *)
Definition sizeof_DDPIXELFORMAT : Z := 4 * 8.
Definition sizeof_DDSURFACEDESC2 : Z := 4 * (10 + 4 * 2 + 8 + 4 + 1).

Definition to_u32 (n : nat) : Z := Z.of_nat n mod 2 ^ 32.

(** [desc = {}] followed by the nine assignments. *)
Definition SaveAsDDS_desc (numMips w h : nat) : DDSURFACEDESC2 :=
  let zero_key := mkDDCOLORKEY 0 0 in
  {| dwSize := sizeof_DDSURFACEDESC2;
     dwFlags := 0x00021007;
     dwHeight := to_u32 h;
     dwWidth := to_u32 w;
     lPitch := 0;
     dwBackBufferCount := 0;
     dwMipMapCount := to_u32 numMips;
     dwAlphaBitDepth := 0;
     dwUnused0 := 0;
     lpSurface := 0;
     unused0 := zero_key;
     unused1 := zero_key;
     unused2 := zero_key;
     unused3 := zero_key;
     ddpfPixelFormat :=
       {| pf_dwSize := sizeof_DDPIXELFORMAT;
          pf_dwFlags := 0x00000004;
          pf_dwFourCC := 0x35545844;
          pf_dwRGBBitCount := 0;
          pf_dwRBitMask := 0;
          pf_dwGBitMask := 0;
          pf_dwBBitMask := 0;
          pf_dwRGBAlphaBitMask := 0 |};
     ddsCaps := {| dwCaps := 0x00401000; dwCaps2 := 0; dwCaps3 := 0; dwCaps4 := 0 |};
     dwUnused1 := 0 |}.

(** [good] is [file.good()] after opening [outPath]; the result is the
    content of the file when it is written. *)
Definition SaveAsDDS (good : bool) (compressedMips : list (list Z)) (w h : nat)
    : option (list Z) :=
  if good then
    Some (u32le kDDSFileSignature
          ++ bytes_of_DDSURFACEDESC2 (SaveAsDDS_desc (length compressedMips) w h)
          ++ concat compressedMips)
  else None.

Local Close Scope Z_scope.

(** ** Command line (lines 547-600)

    The non-Windows build: [Char] is [char].  [std::stoi] is the standard
    library's; it is taken as a function that yields [None] where the
    original throws. *)

Module Cli.
Import Stdlib.Strings.String Stdlib.Strings.Ascii.

Inductive ParamSlot : Type := slotN | slotG | slotH | slotO | slotL | slotQ.

Record Params : Type := mkParams {
  paramN : string;
  paramG : string;
  paramH : string;
  paramO : string;
  paramL : string;
  paramQ : string;
}.

Definition no_params : Params :=
  mkParams EmptyString EmptyString EmptyString EmptyString EmptyString EmptyString.

Definition get_param (slot : ParamSlot) (p : Params) : string :=
  match slot with
  | slotN => paramN p
  | slotG => paramG p
  | slotH => paramH p
  | slotO => paramO p
  | slotL => paramL p
  | slotQ => paramQ p
  end.

(** [*paramsIt->second = value] *)
Definition set_param (slot : ParamSlot) (value : string) (p : Params) : Params :=
  match slot with
  | slotN => mkParams value (paramG p) (paramH p) (paramO p) (paramL p) (paramQ p)
  | slotG => mkParams (paramN p) value (paramH p) (paramO p) (paramL p) (paramQ p)
  | slotH => mkParams (paramN p) (paramG p) value (paramO p) (paramL p) (paramQ p)
  | slotO => mkParams (paramN p) (paramG p) (paramH p) value (paramL p) (paramQ p)
  | slotL => mkParams (paramN p) (paramG p) (paramH p) (paramO p) value (paramQ p)
  | slotQ => mkParams (paramN p) (paramG p) (paramH p) (paramO p) (paramL p) value
  end.

Definition paramsMap_init : list (ascii * ParamSlot) :=
  [ ("n"%char, slotN); ("g"%char, slotG); ("h"%char, slotH);
    ("o"%char, slotO); ("l"%char, slotL); ("q"%char, slotQ) ].

(** [s[i]]; every use is guarded by the length test. *)
Definition char_at (s : string) (i : nat) : ascii :=
  match String.get i s with
  | Some c => c
  | None => Ascii.zero
  end.

(** [std::find_if] by key followed by [erase] of the element found: the
    slot and the map without that element. *)
Fixpoint find_erase (c : ascii) (paramsMap : list (ascii * ParamSlot))
    : option (ParamSlot * list (ascii * ParamSlot)) :=
  match paramsMap with
  | [] => None
  | v :: rest =>
      if Ascii.eqb c (fst v) then Some (snd v, rest)
      else match find_erase c rest with
           | Some (slot, rest') => Some (slot, v :: rest')
           | None => None
           end
  end.

(** [s.substr(3)] *)
Definition arg_value (s : string) : string :=
  String.substring 3 (String.length s - 3) s.

(** One round of the loop over [argv]; the state is the map of the
    parameters not seen yet and the values stored so far. *)
Definition parse_arg (st : list (ascii * ParamSlot) * Params) (s : string)
    : list (ascii * ParamSlot) * Params :=
  let '(paramsMap, params) := st in
  if (3 <? String.length s) && Ascii.eqb (char_at s 2) ":"%char then
    if Ascii.eqb (char_at s 0) "-"%char then
      let c := char_at s 1 in
      match find_erase c paramsMap with
      | Some (slot, paramsMap') =>
          (paramsMap', set_param slot (arg_value s) params)
      | None => st   (* "Unknown param" on the error stream *)
      end
    else st
  else st.

Definition parse_args (argv : list string) : Params :=
  snd (fold_left parse_arg argv (paramsMap_init, no_params)).


Inductive Front : Type :=
| ShowUsage                                   (* [PrintUsage()], then [return 0] *)
| StoiThrew                                   (* the exception leaves [Main] *)
| NoNormalmap                                 (* [return -1] *)
| Continue (params : Params) (linearGloss : bool) (quality : Z).

Definition front_status (f : Front) : option Z :=
  match f with
  | ShowUsage => Some 0%Z
  | NoNormalmap => Some (-1)%Z
  | StoiThrew => None
  | Continue _ _ _ => None
  end.


(** *** Vocabulary of the statements about the command line *)

Definition key_of (slot : ParamSlot) : ascii :=
  match slot with
  | slotN => "n"%char
  | slotG => "g"%char
  | slotH => "h"%char
  | slotO => "o"%char
  | slotL => "l"%char
  | slotQ => "q"%char
  end.

(** [s] has the form [-c:value] with a value of at least one character. *)
Definition is_arg_for (c : ascii) (s : string) : bool :=
  (3 <? String.length s) && Ascii.eqb (char_at s 2) ":"%char
  && Ascii.eqb (char_at s 0) "-"%char
  && Ascii.eqb (char_at s 1) c.

(** The value of the first argument of the form [-c:value] for the key of
    [slot], the empty string when there is none. *)
Definition first_value (slot : ParamSlot) (argv : list string) : string :=
  match List.find (is_arg_for (key_of slot)) argv with
  | Some s => arg_value s
  | None => EmptyString
  end.

End Cli.

(** ** The driver (lines 641-841)

    [Main] is modelled from the point where the paths have been settled:
    its inputs are what [LoadBitmap] returned for the three maps, the two
    flags, and whether each output stream opens. *)

Inductive OutputFile : Type :=
| bump_dds     (* <stem>_bump.dds *)
| bumpX_dds.   (* <stem>_bump#.dds *)

Record MainInputs : Type := mkMainInputs {
  (** [LoadBitmap<PixelRgba>(pathNormalmap)] *)
  loaded_normalmap : Bitmap PixelRgba.t;
  (** [None] when [pathGlossmap.empty()], else the [LoadBitmap] result *)
  loaded_glossmap : option (Bitmap PixelMono.t);
  loaded_heightmap : option (Bitmap PixelMono.t);
  linearGloss : bool;
  quality : Z;
  (** [file.good()] of the two output streams *)
  bump_file_good : bool;
  bumpX_file_good : bool;
}.

(** [path.empty() ? Bitmap<PixelMono>(0, 1) : LoadBitmap<PixelMono>(path)] *)
Definition load_optional (loaded : option (Bitmap PixelMono.t)) : Bitmap PixelMono.t :=
  match loaded with
  | None => Bitmap_new 0 1 (PixelMono.mk 0)
  | Some bmp => bmp
  end.

(** The two-armed check applied to the gloss map and to the height map
    (lines 653-669): only the second arm changes the bitmap. *)
Definition check_dimensions {T} (aux : Bitmap PixelMono.t) (normalmap : Bitmap T)
    : Bitmap PixelMono.t :=
  if Bitmap_empty aux && (height aux =? 0) then aux
  else if negb (width aux =? width normalmap) || negb (height aux =? height normalmap)
       then Bitmap_clear aux
       else aux.

Definition default_heightmap {T} (heightmap : Bitmap PixelMono.t) (normalmap : Bitmap T)
    : Bitmap PixelMono.t :=
  if Bitmap_empty heightmap
  then Bitmap_new (width normalmap) (height normalmap) (PixelMono.mk 128)
  else heightmap.

(** [for (size_t i = 0, end = n; i != end; ++i) { auto& e = v[i]; e = body(i, e); }] *)
Definition for_each_index {A} (n : nat) (body : nat -> A -> A) (d : A) (v : list A)
    : list A :=
  fold_left (fun v i => <[i := body i (nth i v d)]> v) (seq 0 n) v.

(** The lambda of step 2 (lines 714-724). *)
Definition assemble_pixel (linear : bool) (np : PixelRgba.t) (gp : PixelMono.t)
    : PixelRgba.t :=
  PixelRgba.mk
    (if linear then PixelMono.r gp else gloss_log (PixelMono.r gp))
    (PixelRgba.b np)
    (PixelRgba.g np)
    (PixelRgba.r np).

Definition assemble_mip (linear : bool) (normalMip : Bitmap PixelRgba.t)
    (glossMip : Bitmap PixelMono.t) : Bitmap PixelRgba.t :=
  mkBitmap
    (transform2 (assemble_pixel linear) (pixels normalMip) (pixels glossMip)
                (pixels normalMip))
    (width normalMip) (height normalMip).

Definition assemble_bump (linear : bool) (normalmapWithMips : Texture PixelRgba.t)
    (glossmapWithMips : Texture PixelMono.t) : Texture PixelRgba.t :=
  mkTexture
    (for_each_index (length (mips normalmapWithMips))
       (fun i normalMip =>
          assemble_mip linear normalMip (nth i (mips glossmapWithMips) Bitmap_default))
       Bitmap_default (mips normalmapWithMips)).

(** The two lambdas of step 4 (lines 773-789). *)
Definition residual_pixel (np dp : PixelRgba.t) : PixelRgba.t :=
  PixelRgba.mk
    (to_u8 (Clamp ((PixelRgba.a np - PixelRgba.a dp) * 2 + 128) 0 255))
    (to_u8 (Clamp ((PixelRgba.b np - PixelRgba.b dp) * 2 + 128) 0 255))
    (to_u8 (Clamp ((PixelRgba.g np - PixelRgba.g dp) * 2 + 128) 0 255))
    0.

Definition height_to_alpha (xp : PixelRgba.t) (hp : PixelMono.t) : PixelRgba.t :=
  PixelRgba.mk (PixelRgba.r xp) (PixelRgba.g xp) (PixelRgba.b xp) (PixelMono.r hp).

(** The body of the step-4 loop for one mip. *)
Definition residual_mip (normalMip : Bitmap PixelRgba.t) (compressedMip : list Z)
    (heightMip : Bitmap PixelMono.t) (bumpXMip : Bitmap PixelRgba.t)
    : Bitmap PixelRgba.t :=
  let bumpXMip := DecompressBC3_MY compressedMip bumpXMip in
  let errors :=
    transform2 residual_pixel (pixels normalMip) (pixels bumpXMip) (pixels bumpXMip) in
  let moved := transform2 height_to_alpha errors (pixels heightMip) errors in
  mkBitmap moved (width bumpXMip) (height bumpXMip).

Definition assemble_bumpX (normalmapWithMips : Texture PixelRgba.t)
    (normalmapWithMipsCompressed : list (list Z))
    (heightmapWithMips : Texture PixelMono.t)
    (bumpXWithMips : Texture PixelRgba.t) : Texture PixelRgba.t :=
  mkTexture
    (for_each_index (length (mips normalmapWithMips))
       (fun i bumpXMip =>
          residual_mip (nth i (mips normalmapWithMips) Bitmap_default)
                       (nth i normalmapWithMipsCompressed [])
                       (nth i (mips heightmapWithMips) Bitmap_default)
                       bumpXMip)
       Bitmap_default (mips bumpXWithMips)).

Section Driver.
Context `{Externals}.

(** Step 1 for one source image: a fresh pyramid, [mips[0] = image],
    then [BuildMipchain]. *)
Definition build_pyramid {T} `{Pixel T} (isNormalmap : bool)
    (nwidth nheight : nat) (image : Bitmap T) : Texture T :=
  let withMips := Texture_new nwidth nheight in
  BuildMipchain isNormalmap (mkTexture (<[0 := image]> (mips withMips))).

(** The gloss and height pyramids are filled only when the image is
    there; otherwise the freshly constructed pyramid is used as it is. *)
Definition build_optional_pyramid (nwidth nheight : nat)
    (image : Bitmap PixelMono.t) : Texture PixelMono.t :=
  if negb (Bitmap_empty image)
  then build_pyramid false nwidth nheight image
  else Texture_new nwidth nheight.

(** Steps 3 and 5 for one mip. *)
Definition compress_mip (q : Z) (mip : Bitmap PixelRgba.t) : list Z :=
  let compressedMipSize := (width mip / 4) * (height mip / 4) * 16 in
  let compressedMip := replicate compressedMipSize 0%Z in
  if (q =? 0)%Z then CompressBC3_STB mip compressedMip
  else if (q =? 1)%Z then CompressBC3_Squish mip compressedMip
  else CompressBC3_RGBCX mip compressedMip.

Definition compress_mips (q : Z) (withMips : Texture PixelRgba.t) : list (list Z) :=
  let n := length (mips withMips) in
  for_each_index n
    (fun i _ => compress_mip q (nth i (mips withMips) Bitmap_default))
    [] (replicate n []).

(** The assembled bump pyramid (after step 2) and the bump# pyramid
    (after step 4) of a run that passed validation. *)
Definition bump_pyramid (inp : MainInputs) : Texture PixelRgba.t :=
  let normalmap := loaded_normalmap inp in
  let glossmap := check_dimensions (load_optional (loaded_glossmap inp)) normalmap in
  let nwidth := width normalmap in
  let nheight := height normalmap in
  let normalmapWithMips := build_pyramid true nwidth nheight normalmap in
  let glossmapWithMips := build_optional_pyramid nwidth nheight glossmap in
  assemble_bump (linearGloss inp) normalmapWithMips glossmapWithMips.

Definition height_pyramid (inp : MainInputs) : Texture PixelMono.t :=
  let normalmap := loaded_normalmap inp in
  let heightmap := check_dimensions (load_optional (loaded_heightmap inp)) normalmap in
  let heightmap := default_heightmap heightmap normalmap in
  build_optional_pyramid (width normalmap) (height normalmap) heightmap.

Definition bumpX_pyramid (inp : MainInputs) : Texture PixelRgba.t :=
  let normalmap := loaded_normalmap inp in
  let normalmapWithMips := bump_pyramid inp in
  let normalmapWithMipsCompressed := compress_mips (quality inp) normalmapWithMips in
  assemble_bumpX normalmapWithMips normalmapWithMipsCompressed (height_pyramid inp)
    (Texture_new (width normalmap) (height normalmap)).

(** The exit status and the files written, oldest first. *)
Definition Main_loaded (inp : MainInputs) : Z * list (OutputFile * list Z) :=
  let normalmap := loaded_normalmap inp in
  if Bitmap_empty normalmap then (-1, [])%Z
  else if negb (IsPowerOfTwo (width normalmap))
          || negb (IsPowerOfTwo (height normalmap)) then (-1, [])%Z
  else
    let nwidth := width normalmap in
    let nheight := height normalmap in
    let normalmapWithMipsCompressed := compress_mips (quality inp) (bump_pyramid inp) in
    let bumpXMipsCompressed := compress_mips (quality inp) (bumpX_pyramid inp) in
    match SaveAsDDS (bump_file_good inp) normalmapWithMipsCompressed nwidth nheight with
    | None => (-1, [])%Z
    | Some bump =>
        match SaveAsDDS (bumpX_file_good inp) bumpXMipsCompressed nwidth nheight with
        | None => (-1, [(bump_dds, bump)])%Z
        | Some bumpX => (0, [(bump_dds, bump); (bumpX_dds, bumpX)])%Z
        end
    end.
End Driver.

(** ** The driver from the decoded files (lines 641-651) *)

Record SourceFile : Type := mkSourceFile {
  source_good : bool;
  source_image : option StbImage;
}.

Definition load_source {T} `{Pixel T} (f : SourceFile) : Bitmap T :=
  LoadBitmap (source_good f) (source_image f).

Record MainFiles : Type := mkMainFiles {
  normal_file : SourceFile;
  (** [None] when the path is empty *)
  gloss_file : option SourceFile;
  height_file : option SourceFile;
  files_linearGloss : bool;
  files_quality : Z;
  files_bump_good : bool;
  files_bumpX_good : bool;
}.

Definition inputs_of_files (m : MainFiles) : MainInputs :=
  mkMainInputs (load_source (normal_file m))
               (option_map load_source (gloss_file m))
               (option_map load_source (height_file m))
               (files_linearGloss m) (files_quality m)
               (files_bump_good m) (files_bumpX_good m).

Definition Main_files `{Externals} (m : MainFiles) : Z * list (OutputFile * list Z) :=
  Main_loaded (inputs_of_files m).

(** ** A concrete set of collaborators

    Used to run the pipeline on concrete inputs: a point-sampling
    resampler, and one block encoder (for all three tiers) that stores the
    block's first pixel as both endpoints with every index [0]. *)

Definition point_resize (src : list Z) (in_w in_h out_w out_h channels : nat) : list Z :=
  concat
    (map (fun k =>
            let x := k mod out_w in
            let y := k / out_w in
            let s := ((y * in_h / out_h) * in_w + x * in_w / out_w) * channels in
            map (fun c => byte_at src (s + c)) (seq 0 channels))
         (seq 0 (out_w * out_h))).

Definition flat_encode_bc3 (pixelsBlock : list Z) : list Z :=
  let r := byte_at pixelsBlock 0 in
  let g := byte_at pixelsBlock 1 in
  let b := byte_at pixelsBlock 2 in
  let a := byte_at pixelsBlock 3 in
  let c := (Z.shiftl (Z.shiftr r 3) 11 + Z.shiftl (Z.shiftr g 2) 5 + Z.shiftr b 3)%Z in
  [ a; a; 0; 0; 0; 0; 0; 0;
    c mod 256; c / 256; c mod 256; c / 256; 0; 0; 0; 0 ]%Z.

Definition sample_externals : Externals := {|
  stbir_resize_uint8 := point_resize;
  stb_compress_dxt_block := flat_encode_bc3;
  squish_Compress := flat_encode_bc3;
  rgbcx_encode_bc3 := flat_encode_bc3;
|}.

(** ** Vocabulary of the statements *)

Definition is_power_of_two (n : nat) : Prop := exists k, n = 2 ^ k.

(** The dimension of mip [i] that the [Texture] constructor reaches from a
    base dimension [w]. *)
Definition mip_dim (w i : nat) : nat :=
  match i with
  | O => w
  | S _ => Nat.max (Nat.shiftr w i) kMinMipSize
  end.

(** Dimensions and pixel count of a bitmap. *)
Definition shape {T} (bmp : Bitmap T) : nat * nat * nat :=
  (width bmp, height bmp, length (pixels bmp)).

(** The nearest integer to [sqrt (g / 255) * 255], that is to
    [sqrt (255 * g)]: [floor ((sqrt (4 * 255 * g) + 1) / 2)]. *)
Definition round_sqrt_gloss (g : Z) : Z := ((Z.sqrt (4 * (255 * g)) + 1) / 2)%Z.

(** Reading a little-endian 32-bit field back from a byte image. *)
Definition load_u32 (bs : list Z) (off : nat) : Z :=
  (byte_at bs off + 256 * byte_at bs (off + 1) + 65536 * byte_at bs (off + 2)
   + 16777216 * byte_at bs (off + 3))%Z.

(** The 32-bit words of a DDS file before the payload: the magic and the
    31 members of the surface description. *)
Definition dds_words (numMips w h : nat) : list Z :=
  [ kDDSFileSignature;
    124; 0x00021007; to_u32 h; to_u32 w; 0; 0; to_u32 numMips; 0; 0; 0;
    0; 0; 0; 0; 0; 0; 0; 0;
    32; 0x00000004; 0x35545844; 0; 0; 0; 0; 0;
    0x00401000; 0; 0; 0;
    0 ]%Z.

(** An RGB565 endpoint widened by shifts alone. *)
Definition endpoint565 (c : Z) : list Z :=
  [ Z.shiftl (Z.land (Z.shiftr c 11) 31) 3;
    Z.shiftl (Z.land (Z.shiftr c 5) 63) 2;
    Z.shiftl (Z.land c 31) 3 ].

(** What the two sub-block decoders store for the pixel [(x, y)] of the
    block whose 16 bytes start at [s]: the alpha sub-block is bytes
    [s .. s + 7], the colour sub-block bytes [s + 8 .. s + 15]. *)
Definition alpha_pixel (blocks : list Z) (s x y : nat) : Z :=
  alpha_value (byte_at blocks s) (byte_at blocks (s + 1))
    (Z.land (Z.shiftr (Z.shiftr (load_u64 blocks s) 16)
                      (12 * Z.of_nat y + 3 * Z.of_nat x)) 7).

Definition color_pixel (blocks : list Z) (s x y ch : nat) : Z :=
  color_entry (color_table true (load_u16 blocks (s + 8)) (load_u16 blocks (s + 8 + 2)))
    (Z.land (Z.shiftr (byte_at blocks (s + 8 + 4 + y)) (2 * Z.of_nat x)) 3) ch.

Definition block_byte (blocks : list Z) (s x y ch : nat) : Z :=
  if ch <? 3 then color_pixel blocks s x y ch else alpha_pixel blocks s x y.

(** Byte offset of channel [ch] of the pixel in row [row], column [col] of
    an RGBA8 image [W] pixels wide. *)
Definition pos (W row col ch : nat) : nat := (row * W + col) * 4 + ch.

(** The state of the block loops of [DecompressBC3_MY] after [k] blocks,
    counted in row-major block order, on a [W] x [H0] image of [Wb] blocks
    per row that started as [mem0]. *)
Definition decoded_upto (blocks : list Z) (W H0 Wb : nat) (mem0 : list Z)
    (k : nat) (st : list Z * nat) : Prop :=
  snd st = 16 * k
  /\ length (fst st) = length mem0
  /\ forall row col ch, row < H0 -> col < W -> ch < 4 ->
       fst st !! pos W row col ch
       = if (row / 4) * Wb + col / 4 <? k
         then Some (block_byte blocks (16 * ((row / 4) * Wb + col / 4))
                               (col mod 4) (row mod 4) ch)
         else mem0 !! pos W row col ch.

(** The inputs of the end-to-end scenarios: an 8x8 normal map showing
    [+Z] everywhere, the default quality, both output files writable. *)
Definition flat_normalmap (alpha : Z) : Bitmap PixelRgba.t :=
  Bitmap_new 8 8 (PixelRgba.mk 128 128 255 alpha).

Definition scenario (gloss : option (Bitmap PixelMono.t)) : MainInputs :=
  mkMainInputs (flat_normalmap 0) gloss None false 2 true true.


(** The 64 bytes of the 4x4 pixels of block [(bx, by_)], row by row. *)
Definition block_window (bmp : Bitmap PixelRgba.t) (bx by_ : nat) : list Z :=
  bytes_of_pixels
    (concat (map (fun i => map (fun j => nth ((4 * by_ + i) * width bmp + (4 * bx + j))
                                            (pixels bmp) pixel_zero)
                               (seq 0 4))
                 (seq 0 4))).

(** [v] lies between [a] and [b], in either order. *)
Definition between (a b v : Z) : Prop := (Z.min a b <= v <= Z.max a b)%Z.

(** * Proofs *)

(** ** binary32 spot checks

    The rounding of [F32] against bit patterns of IEEE-754 single
    precision: [0.1f = 0x3DCCCCCD], [1.0f / 3.0f = 0x3EAAAAAB],
    [128.0f / 255.0f = 0x3F008081], [sqrtf(3.0f) = 0x3FDDB3D7], and the
    ties at [2 ^ 24 + 1] and [2 ^ 24 + 3]. *)

Example F32_round_tenth : F32.round (1 # 10) = (13421773 # 134217728)%Q.
Proof. vm_compute. reflexivity. Qed.

Example F32_div_third : F32.div (F32.of_Z 1) (F32.of_Z 3) = (11184811 # 33554432)%Q.
Proof. vm_compute. reflexivity. Qed.

Example F32_div_128_255 : F32.div (F32.of_Z 128) (F32.of_Z 255) = (8421505 # 16777216)%Q.
Proof. vm_compute. reflexivity. Qed.

Example F32_sqrt_3 : F32.sqrt (F32.of_Z 3) = (14529495 # 8388608)%Q.
Proof. vm_compute. reflexivity. Qed.

Example F32_tie_down : F32.round (inject_Z 16777217) = inject_Z 16777216.
Proof. vm_compute. reflexivity. Qed.

Example F32_tie_up : F32.round (inject_Z 16777219) = inject_Z 16777220.
Proof. vm_compute. reflexivity. Qed.

(** ** Integer helpers *)

Lemma Log2I_loop_log2 fuel : forall v result,
  v < 2 ^ fuel -> Log2I_loop fuel v result = result + Nat.log2 v.
Proof.
  induction fuel as [|fuel IH]; intros v result Hv.
  - rewrite Nat.pow_0_r in Hv. assert (v = 0) by lia. subst v.
    change (Nat.log2 0) with 0. simpl. lia.
  - rewrite Nat.pow_succ_r' in Hv. cbn [Log2I_loop]. cbv zeta.
    change (Nat.shiftr v 1) with (Nat.div2 v). rewrite Nat.div2_div.
    assert (Hd : v = 2 * (v / 2) + v mod 2) by apply Nat.div_mod_eq.
    assert (Hm : v mod 2 < 2) by (apply Nat.mod_upper_bound; lia).
    destruct (Nat.eqb_spec (v / 2) 0) as [E|E].
    + assert (Hv01 : v = 0 \/ v = 1) by lia.
      destruct Hv01 as [-> | ->]; [change (Nat.log2 0) with 0|rewrite Nat.log2_1]; lia.
    + rewrite IH by lia.
      assert (Hl : Nat.log2 v = S (Nat.log2 (v / 2))).
      { rewrite Hd at 1. destruct (v mod 2) as [|[|m]]; [| |lia].
        - rewrite Nat.add_0_r. apply Nat.log2_double. lia.
        - apply Nat.log2_succ_double. lia. }
      lia.
Qed.

Lemma Log2I_log2 v : (Z.of_nat v < 2 ^ 64)%Z -> Log2I v = Nat.log2 v.
Proof.
  intros Hv. unfold Log2I. rewrite Log2I_loop_log2; [reflexivity|].
  apply Nat2Z.inj_lt. rewrite Nat2Z.inj_pow. exact Hv.
Qed.

Lemma IsPowerOfTwo_spec v : IsPowerOfTwo v = true <-> exists k, v = 2 ^ k.
Proof.
  unfold IsPowerOfTwo. rewrite andb_true_iff, negb_true_iff, !Nat.eqb_neq, Nat.eqb_eq.
  split.
  - intros [Hv Hl]. exists (Nat.log2 v).
    destruct (Nat.log2_spec v) as [Hlo Hhi]; [lia|].
    destruct (Nat.eq_dec v (2 ^ Nat.log2 v)) as [->|Hne]; [now rewrite Nat.log2_pow2 by lia|].
    exfalso.
    assert (Hk : Nat.log2 (v - 1) = Nat.log2 v).
    { apply Nat.log2_unique; [lia|]. rewrite Nat.pow_succ_r' in *. lia. }
    assert (Hb : Nat.testbit (Nat.land v (v - 1)) (Nat.log2 v) = true).
    { rewrite Nat.land_spec, Nat.bit_log2 by lia.
      rewrite <- Hk. rewrite Nat.bit_log2; [reflexivity|]. 
      pose proof (Nat.pow_nonzero 2 (Nat.log2 v)). lia. }
    rewrite Hl, Nat.bits_0 in Hb. discriminate.
  - intros [k ->]. split; [apply Nat.pow_nonzero; lia|].
    apply Nat.bits_inj. intros n.
    rewrite Nat.land_spec, Nat.pow2_bits_eqb, Nat.bits_0.
    replace (2 ^ k - 1) with (Nat.ones k) by (rewrite Nat.ones_equiv; lia).
    destruct (Nat.eqb_spec k n) as [->|Hn]; [|reflexivity].
    rewrite Nat.ones_spec_high by lia. reflexivity.
Qed.

(** ** The shape of a fresh pyramid *)

(** The running dimension after [i] rounds of the constructor loop. *)
Lemma halve_floor_shift w j :
  Nat.max (Nat.shiftr (Nat.max (w / 2) kMinMipSize) (S j)) kMinMipSize
  = Nat.max (Nat.shiftr w (S (S j))) kMinMipSize.
Proof.
  unfold kMinMipSize. rewrite !Nat.shiftr_div_pow2.
  assert (Hp : 2 ^ S j <> 0) by (apply Nat.pow_nonzero; lia).
  assert (Hp2 : 2 <= 2 ^ S j).
  { rewrite Nat.pow_succ_r'. pose proof (Nat.pow_nonzero 2 j). lia. }
  replace (w / 2 ^ S (S j)) with (w / 2 / 2 ^ S j)
    by (rewrite Nat.Div0.div_div, <- Nat.pow_succ_r'; reflexivity).
  destruct (Nat.le_gt_cases 4 (w / 2)) as [Hge|Hlt].
  - now rewrite (Nat.max_l (w / 2) 4) by lia.
  - rewrite (Nat.max_r (w / 2) 4) by lia.
    assert (4 / 2 ^ S j <= 2).
    { apply Nat.Div0.div_le_upper_bound. lia. }
    assert (w / 2 / 2 ^ S j <= w / 2) by (apply Nat.Div0.div_le_upper_bound; nia).
    lia.
Qed.

Lemma mip_dim_step w i :
  mip_dim (Nat.max (w / 2) kMinMipSize) i = mip_dim w (S i).
Proof.
  destruct i as [|j].
  - cbn [mip_dim]. change (Nat.shiftr w 1) with (Nat.div2 w).
    now rewrite Nat.div2_div.
  - cbn [mip_dim]. apply halve_floor_shift.
Qed.

Section TextureShape.
Context {T : Type} `{Pixel T}.

Lemma Texture_push_length n : forall w h, length (Texture_push (T:=T) n w h) = n.
Proof. induction n as [|n IH]; intros w h; simpl; [reflexivity|now rewrite IH]. Qed.

Lemma Texture_push_lookup n : forall w h i,
  i < n ->
  Texture_push (T:=T) n w h !! i
  = Some (Bitmap_new (mip_dim w i) (mip_dim h i) pixel_zero).
Proof.
  induction n as [|n IH]; intros w h i Hi; [lia|].
  destruct i as [|i]; [reflexivity|].
  cbn [Texture_push]. rewrite lookup_cons. rewrite IH by lia.
  now rewrite !mip_dim_step.
Qed.
End TextureShape.

(** ** Loops and transforms *)

Lemma map_fmap {A B} (f : A -> B) (l : list A) : map f l = f <$> l.
Proof. reflexivity. Qed.

Lemma byte_at_lookup (bs : list Z) (i : nat) (v : Z) :
  bs !! i = Some v -> byte_at bs i = v.
Proof. apply nth_lookup_Some. Qed.

(** *** Loops over an index range *)

Lemma fold_left_seq_S {A} (f : A -> nat -> A) (a : A) (s m : nat) :
  fold_left f (seq s (S m)) a = f (fold_left f (seq s m) a) (s + m).
Proof. now rewrite seq_S, fold_left_app. Qed.

Lemma for_each_index_prefix {A} (body : nat -> A -> A) (d : A) (v : list A) (m i : nat) :
  fold_left (fun v i => <[i := body i (nth i v d)]> v) (seq 0 m) v !! i
  = if decide (i < m) then body i <$> v !! i else v !! i.
Proof.
  induction m as [|m IH].
  - simpl. now destruct (decide (i < 0)); [lia|].
  - rewrite fold_left_seq_S. cbn [Nat.add].
    set (cur := fold_left _ (seq 0 m) v) in *.
    assert (Hlen : length cur = length v).
    { subst cur. clear IH. induction m as [|k IHk]; [reflexivity|].
      now rewrite fold_left_seq_S, length_insert. }
    destruct (decide (i = m)) as [->|Hne].
    + destruct (decide (m < S m)) as [_|]; [|lia].
      destruct (decide (m < m)) as [|_]; [lia|].
      destruct (v !! m) as [x|] eqn:Hv.
      * rewrite list_lookup_insert_eq
          by (rewrite Hlen; now apply lookup_lt_Some in Hv).
        now rewrite (nth_lookup_Some _ _ _ _ IH).
      * rewrite list_insert_ge; [exact IH|].
        rewrite Hlen. now apply lookup_ge_None.
    + rewrite list_lookup_insert_ne by congruence. rewrite IH.
      destruct (decide (i < m)), (decide (i < S m)); try lia; reflexivity.
Qed.

Lemma for_each_index_lookup {A} n (body : nat -> A -> A) d v i x :
  i < n -> v !! i = Some x -> for_each_index n body d v !! i = Some (body i x).
Proof.
  intros Hi Hv. unfold for_each_index. rewrite for_each_index_prefix.
  destruct (decide (i < n)); [|lia]. now rewrite Hv.
Qed.

Lemma for_each_index_length {A} n (body : nat -> A -> A) d v :
  length (for_each_index n body d v) = length v.
Proof.
  unfold for_each_index. induction n as [|n IH]; [reflexivity|].
  now rewrite fold_left_seq_S, length_insert.
Qed.

Lemma for_each_index_fmap {A B} (f : A -> B) n (body : nat -> A -> A) d v :
  (forall i x, f (body i x) = f x) ->
  f <$> for_each_index n body d v = f <$> v.
Proof.
  intros Hf. apply list_eq. intros i. rewrite !list_lookup_fmap.
  unfold for_each_index. rewrite for_each_index_prefix.
  destruct (decide (i < n)); [|reflexivity].
  destruct (v !! i); simpl; [now rewrite Hf|reflexivity].
Qed.

(** *** [std::transform] over ranges of one length *)

Lemma transform2_full {A B C} (op : A -> B -> C) first second out :
  length second = length first -> length out = length first ->
  transform2 op first second out = zip_with op first second.
Proof.
  intros Hs Ho. unfold transform2.
  rewrite <- (app_nil_r (zip_with op first second)) at 1.
  apply list_inserts_0_l. rewrite length_zip_with. lia.
Qed.

Lemma transform2_length {A B C} (op : A -> B -> C) first second out :
  length (transform2 op first second out) = length out.
Proof. apply length_inserts. Qed.

(** ** Shapes through the mip builder *)

Lemma pixels_of_bytes_length {T} `{Pixel T} n bs :
  length (pixels_of_bytes (T:=T) n bs) = n.
Proof. unfold pixels_of_bytes. now rewrite length_map, length_seq. Qed.

Section ShapeLemmas.
Context `{Externals}.

Lemma MakeMip_shape {T} `{Pixel T} normalize (src dst : Bitmap T) :
  shape (MakeMip normalize src dst) = shape dst.
Proof.
  unfold MakeMip, shape.
  destruct (normalize && (3 <=? BytesPerPixel)); cbn [width height pixels];
    rewrite ?length_map, pixels_of_bytes_length; reflexivity.
Qed.

Lemma BuildMipchain_shape {T} `{Pixel T} flag (texture : Texture T) :
  shape <$> mips (BuildMipchain flag texture) = shape <$> mips texture.
Proof.
  unfold BuildMipchain. cbn [mips].
  generalize (seq 1 (length (mips texture) - 1)) as idx.
  generalize (mips texture) as ms.
  intros ms idx. revert ms.
  induction idx as [|i idx IH]; intros ms; [reflexivity|].
  cbn [fold_left]. rewrite IH, list_fmap_insert.
  apply list_insert_id'. intros Hi. rewrite list_lookup_fmap.
  rewrite length_fmap in Hi.
  destruct (lookup_lt_is_Some_2 ms i Hi) as [b Hb].
  rewrite Hb. cbn. f_equal. rewrite MakeMip_shape.
  now rewrite (nth_lookup_Some _ _ _ _ Hb).
Qed.

Lemma build_pyramid_shape {T} `{Pixel T} flag w h (image : Bitmap T) :
  shape image = (w, h, w * h) ->
  shape <$> mips (build_pyramid flag w h image)
  = shape <$> mips (Texture_new (T:=T) w h).
Proof.
  intros Himg. unfold build_pyramid. rewrite BuildMipchain_shape.
  unfold Texture_new. cbn [mips].
  rewrite list_fmap_insert. apply list_insert_id'. intros Hlt.
  rewrite list_lookup_fmap. rewrite length_fmap, Texture_push_length in Hlt.
  rewrite Texture_push_lookup by exact Hlt. cbn. f_equal.
  rewrite Himg. unfold shape, Bitmap_new. cbn. now rewrite length_replicate.
Qed.

Lemma Bitmap_empty_false {T} (bmp : Bitmap T) :
  Bitmap_empty bmp = false <-> pixels bmp <> [].
Proof. unfold Bitmap_empty. destruct (pixels bmp); split; congruence. Qed.

Lemma Bitmap_empty_true {T} (bmp : Bitmap T) :
  Bitmap_empty bmp = true <-> pixels bmp = [].
Proof. unfold Bitmap_empty. destruct (pixels bmp); split; congruence. Qed.

(** An auxiliary map that survives the dimension check has the normal
    map's dimensions. *)
Lemma check_dimensions_nonempty {T} aux (normalmap : Bitmap T) :
  Bitmap_empty (check_dimensions aux normalmap) = false ->
  check_dimensions aux normalmap = aux
  /\ width aux = width normalmap /\ height aux = height normalmap.
Proof.
  unfold check_dimensions.
  destruct (Bitmap_empty aux && (height aux =? 0)) eqn:E1.
  { apply andb_true_iff in E1 as [E1 _]. congruence. }
  destruct (Nat.eqb_spec (width aux) (width normalmap)) as [Hw|Hw];
    destruct (Nat.eqb_spec (height aux) (height normalmap)) as [Hh|Hh];
    cbn; intros Hne; try discriminate Hne; auto.
Qed.

Lemma load_optional_wf loaded :
  (forall bmp, loaded = Some bmp -> Bitmap_wf bmp) -> Bitmap_wf (load_optional loaded).
Proof.
  intros Hwf. destruct loaded as [bmp|]; cbn; [now apply Hwf|].
  unfold Bitmap_wf. reflexivity.
Qed.

Lemma build_optional_pyramid_shape w h (image : Bitmap PixelMono.t) :
  (Bitmap_empty image = false -> shape image = (w, h, w * h)) ->
  shape <$> mips (build_optional_pyramid w h image)
  = shape <$> mips (Texture_new (T:=PixelMono.t) w h).
Proof.
  intros Himg. unfold build_optional_pyramid.
  destruct (Bitmap_empty image) eqn:E; cbn [negb]; [reflexivity|].
  apply build_pyramid_shape. now apply Himg.
Qed.

Lemma checked_shape {T} loaded (normalmap : Bitmap T) :
  (forall bmp, loaded = Some bmp -> Bitmap_wf bmp) ->
  let aux := check_dimensions (load_optional loaded) normalmap in
  Bitmap_empty aux = false ->
  shape aux = (width normalmap, height normalmap, width normalmap * height normalmap).
Proof.
  intros Hwf aux Hne. subst aux.
  destruct (check_dimensions_nonempty _ _ Hne) as (-> & Hw & Hh).
  pose proof (load_optional_wf _ Hwf) as Hl. unfold Bitmap_wf in Hl.
  unfold shape. now rewrite Hl, Hw, Hh.
Qed.

Lemma gloss_pyramid_shape {T} loaded (normalmap : Bitmap T) :
  (forall bmp, loaded = Some bmp -> Bitmap_wf bmp) ->
  shape <$> mips (build_optional_pyramid (width normalmap) (height normalmap)
                    (check_dimensions (load_optional loaded) normalmap))
  = shape <$> mips (Texture_new (T:=PixelMono.t) (width normalmap) (height normalmap)).
Proof.
  intros Hwf. apply build_optional_pyramid_shape. now apply checked_shape.
Qed.

Lemma height_pyramid_shape inp :
  (forall bmp, loaded_heightmap inp = Some bmp -> Bitmap_wf bmp) ->
  shape <$> mips (height_pyramid inp)
  = shape <$> mips (Texture_new (T:=PixelMono.t) (width (loaded_normalmap inp))
                                 (height (loaded_normalmap inp))).
Proof.
  intros Hwf. unfold height_pyramid. apply build_optional_pyramid_shape.
  unfold default_heightmap.
  destruct (Bitmap_empty (check_dimensions _ _)) eqn:E.
  - intros _. unfold shape, Bitmap_new. cbn. now rewrite length_replicate.
  - intros _. now apply checked_shape.
Qed.

Lemma Texture_new_shape_indep {T1 T2} `{Pixel T1} `{Pixel T2} w h :
  shape <$> mips (Texture_new (T:=T1) w h) = shape <$> mips (Texture_new (T:=T2) w h).
Proof.
  unfold Texture_new. cbn [mips]. generalize (Log2I (Nat.max w h)) as n.
  intros n. revert w h. induction n as [|n IH]; intros w h; [reflexivity|].
  cbn [Texture_push]. rewrite !fmap_cons. f_equal; [|apply IH].
  unfold shape, Bitmap_new. cbn. now rewrite !length_replicate.
Qed.
End ShapeLemmas.

(** ** The assembly loops *)

Lemma same_shape_lookup {A B} (l1 : list (Bitmap A)) (l2 : list (Bitmap B)) i b1 :
  shape <$> l1 = shape <$> l2 -> l1 !! i = Some b1 ->
  exists b2, l2 !! i = Some b2 /\ shape b2 = shape b1.
Proof.
  intros Hs H1. apply (f_equal (fun l => l !! i)) in Hs.
  rewrite !list_lookup_fmap, H1 in Hs. destruct (l2 !! i) as [b2|]; [|discriminate].
  exists b2. split; [reflexivity|]. cbn in Hs. congruence.
Qed.

Lemma to_u8_Clamp v : to_u8 (Clamp v 0 255) = Clamp v 0 255.
Proof. unfold to_u8, Clamp. apply Z.mod_small. lia. Qed.

Lemma assemble_mip_shape linear normalMip glossMip :
  shape (assemble_mip linear normalMip glossMip) = shape normalMip.
Proof. unfold shape, assemble_mip. cbn. now rewrite transform2_length. Qed.

Lemma assemble_bump_shape linear N G :
  shape <$> mips (assemble_bump linear N G) = shape <$> mips N.
Proof.
  unfold assemble_bump. cbn [mips]. apply for_each_index_fmap.
  intros i x. apply assemble_mip_shape.
Qed.

Lemma assemble_bump_lookup linear N G i normalMip :
  mips N !! i = Some normalMip ->
  mips (assemble_bump linear N G) !! i
  = Some (assemble_mip linear normalMip (nth i (mips G) Bitmap_default)).
Proof.
  intros Hn. unfold assemble_bump. cbn [mips].
  apply (for_each_index_lookup _
           (fun i normalMip =>
              assemble_mip linear normalMip (nth i (mips G) Bitmap_default)));
    [now apply lookup_lt_Some in Hn|exact Hn].
Qed.

Lemma DecompressBC3_MY_shape blocks (output : Bitmap PixelRgba.t) :
  shape (DecompressBC3_MY blocks output) = shape output.
Proof. unfold shape, DecompressBC3_MY. cbn. now rewrite pixels_of_bytes_length. Qed.

Lemma residual_mip_shape normalMip compressedMip heightMip bumpXMip :
  shape (residual_mip normalMip compressedMip heightMip bumpXMip) = shape bumpXMip.
Proof.
  unfold shape, residual_mip. cbn.
  now rewrite !transform2_length, pixels_of_bytes_length.
Qed.

(** The step-4 loop body on three buffers of one length. *)
Lemma residual_mip_pixel normalMip compressedMip heightMip bumpXMip k np :
  length (pixels bumpXMip) = length (pixels normalMip) ->
  length (pixels heightMip) = length (pixels normalMip) ->
  pixels normalMip !! k = Some np ->
  exists dp hp,
    pixels (DecompressBC3_MY compressedMip bumpXMip) !! k = Some dp
    /\ pixels heightMip !! k = Some hp
    /\ pixels (residual_mip normalMip compressedMip heightMip bumpXMip) !! k
       = Some (height_to_alpha (residual_pixel np dp) hp).
Proof.
  intros Hx Hh Hnp.
  pose proof (lookup_lt_Some _ _ _ Hnp) as Hk.
  unfold residual_mip.
  assert (Hd : length (pixels (DecompressBC3_MY compressedMip bumpXMip))
               = length (pixels normalMip)).
  { cbn. now rewrite pixels_of_bytes_length. }
  set (dec := DecompressBC3_MY compressedMip bumpXMip) in *.
  destruct (lookup_lt_is_Some_2 (pixels dec) k) as [dp Hdp]; [lia|].
  destruct (lookup_lt_is_Some_2 (pixels heightMip) k) as [hp Hhp]; [lia|].
  exists dp, hp. split; [exact Hdp|]. split; [exact Hhp|].
  cbn [pixels].
  rewrite (transform2_full residual_pixel) by (rewrite ?Hd; lia).
  rewrite (transform2_full height_to_alpha)
    by (rewrite ?length_zip_with, ?Hd; lia).
  rewrite !lookup_zip_with. rewrite Hnp, Hdp, Hhp.
  reflexivity.
Qed.

Section PipelineLemmas.
Context `{Externals}.

Lemma compress_mips_lookup q withMips i mip :
  mips withMips !! i = Some mip ->
  compress_mips q withMips !! i = Some (compress_mip q mip).
Proof.
  intros Hm. unfold compress_mips.
  pose proof (lookup_lt_Some _ _ _ Hm) as Hi.
  rewrite (for_each_index_lookup _ _ _ _ i [])
    by (auto using lookup_replicate_2).
  now rewrite (nth_lookup_Some _ _ _ _ Hm).
Qed.

Lemma bump_pyramid_shape inp :
  Bitmap_wf (loaded_normalmap inp) ->
  shape <$> mips (bump_pyramid inp)
  = shape <$> mips (Texture_new (T:=PixelRgba.t) (width (loaded_normalmap inp))
                                 (height (loaded_normalmap inp))).
Proof.
  intros Hwf. unfold bump_pyramid. rewrite assemble_bump_shape.
  apply build_pyramid_shape. unfold shape. now rewrite Hwf.
Qed.

Lemma bumpX_pyramid_lookup inp i normalMip :
  Bitmap_wf (loaded_normalmap inp) ->
  mips (bump_pyramid inp) !! i = Some normalMip ->
  exists heightMip bumpXMip,
    mips (Texture_new (width (loaded_normalmap inp)) (height (loaded_normalmap inp))) !! i
      = Some bumpXMip
    /\ shape bumpXMip = shape normalMip
    /\ nth i (mips (height_pyramid inp)) Bitmap_default = heightMip
    /\ mips (bumpX_pyramid inp) !! i
       = Some (residual_mip normalMip (compress_mip (quality inp) normalMip)
                            heightMip bumpXMip).
Proof.
  intros Hwf Hn.
  destruct (same_shape_lookup _ _ _ _ (bump_pyramid_shape inp Hwf) Hn)
    as (bumpXMip & Hx & Hsx).
  exists (nth i (mips (height_pyramid inp)) Bitmap_default), bumpXMip.
  split; [exact Hx|]. split; [exact Hsx|]. split; [reflexivity|].
  unfold bumpX_pyramid, assemble_bumpX. cbn [mips].
  rewrite (for_each_index_lookup _ _ _ _ i bumpXMip);
    [|now apply lookup_lt_Some in Hn|exact Hx].
  rewrite (nth_lookup_Some _ _ _ _ Hn).
  rewrite (nth_lookup_Some _ _ _ _ (compress_mips_lookup _ _ _ _ Hn)).
  reflexivity.
Qed.
End PipelineLemmas.

(** ** Residual assembly *)

(** C1.  Residual assembly.  For every mip [i] of a run and every pixel [k]
    of the assembled bump mip, with [np] the assembled pixel, [dp] the pixel
    [DecompressBC3_MY] reconstructs from the compressed mip and [hp] the
    pixel of the height mip: the bump# pixel has
    [r = clamp ((np.a - dp.a) * 2 + 128, 0, 255)],
    [g = clamp ((np.b - dp.b) * 2 + 128, 0, 255)],
    [b = clamp ((np.g - dp.g) * 2 + 128, 0, 255)] and [a = hp.r]; when the
    reconstruction is exact ([dp = np]) the three residual bytes are 128. *)
Theorem C1_residual_assembly `{Externals} (inp : MainInputs) (i k : nat)
    (normalMip : Bitmap PixelRgba.t) (np : PixelRgba.t) :
  Bitmap_wf (loaded_normalmap inp) ->
  (forall bmp, loaded_heightmap inp = Some bmp -> Bitmap_wf bmp) ->
  mips (bump_pyramid inp) !! i = Some normalMip ->
  pixels normalMip !! k = Some np ->
  exists (bumpXMip : Bitmap PixelRgba.t) (heightMip : Bitmap PixelMono.t)
         (residualMip : Bitmap PixelRgba.t)
         (dp : PixelRgba.t) (hp : PixelMono.t) (out : PixelRgba.t),
    mips (Texture_new (width (loaded_normalmap inp)) (height (loaded_normalmap inp))) !! i
      = Some bumpXMip
    /\ pixels (DecompressBC3_MY (compress_mip (quality inp) normalMip) bumpXMip) !! k
       = Some dp
    /\ mips (height_pyramid inp) !! i = Some heightMip
    /\ pixels heightMip !! k = Some hp
    /\ mips (bumpX_pyramid inp) !! i = Some residualMip
    /\ pixels residualMip !! k = Some out
    /\ PixelRgba.r out = Clamp ((PixelRgba.a np - PixelRgba.a dp) * 2 + 128) 0 255
    /\ PixelRgba.g out = Clamp ((PixelRgba.b np - PixelRgba.b dp) * 2 + 128) 0 255
    /\ PixelRgba.b out = Clamp ((PixelRgba.g np - PixelRgba.g dp) * 2 + 128) 0 255
    /\ PixelRgba.a out = PixelMono.r hp
    /\ (dp = np ->
        PixelRgba.r out = 128%Z /\ PixelRgba.g out = 128%Z /\ PixelRgba.b out = 128%Z).
Proof.
  intros Hwf Hhwf Hn Hnp.
  destruct (bumpX_pyramid_lookup inp i normalMip Hwf Hn)
    as (heightMip0 & bumpXMip & Hx & Hsx & Hh0 & Hres).
  pose proof (height_pyramid_shape inp Hhwf) as Hhs.
  rewrite (Texture_new_shape_indep (T1:=PixelMono.t) (T2:=PixelRgba.t)) in Hhs.
  destruct (same_shape_lookup _ _ _ _ (eq_sym Hhs) Hx) as (heightMip & Hh & Hsh).
  rewrite (nth_lookup_Some _ _ _ _ Hh) in Hh0. subst heightMip0.
  assert (Hlx : length (pixels bumpXMip) = length (pixels normalMip))
    by (unfold shape in Hsx; congruence).
  assert (Hlh : length (pixels heightMip) = length (pixels normalMip))
    by (unfold shape in Hsh; congruence).
  destruct (residual_mip_pixel normalMip (compress_mip (quality inp) normalMip)
              heightMip bumpXMip k np Hlx Hlh Hnp) as (dp & hp & Hdp & Hhp & Hout).
  exists bumpXMip, heightMip,
    (residual_mip normalMip (compress_mip (quality inp) normalMip) heightMip bumpXMip),
    dp, hp, (height_to_alpha (residual_pixel np dp) hp).
  do 6 (split; [assumption|]).
  cbn [height_to_alpha residual_pixel PixelRgba.r PixelRgba.g PixelRgba.b PixelRgba.a].
  rewrite !to_u8_Clamp. repeat (split; [reflexivity|]).
  intros ->. rewrite !Z.sub_diag. repeat split; reflexivity.
Qed.

(** The statement above on mip 0, pixel 0 of the 8x8 scenario. *)
Lemma C1_residual_assembly_witness :
  exists (bumpXMip : Bitmap PixelRgba.t) (heightMip : Bitmap PixelMono.t)
         (residualMip : Bitmap PixelRgba.t)
         (dp : PixelRgba.t) (hp : PixelMono.t) (out : PixelRgba.t),
    mips (Texture_new 8 8) !! 0 = Some bumpXMip
    /\ pixels (DecompressBC3_MY
                 (compress_mip (H:=sample_externals) 2
                    (Bitmap_new 8 8 (PixelRgba.mk 0 255 128 128))) bumpXMip) !! 0
       = Some dp
    /\ mips (height_pyramid (H:=sample_externals) (scenario None)) !! 0 = Some heightMip
    /\ pixels heightMip !! 0 = Some hp
    /\ mips (bumpX_pyramid (H:=sample_externals) (scenario None)) !! 0 = Some residualMip
    /\ pixels residualMip !! 0 = Some out
    /\ PixelRgba.r out = Clamp ((128 - PixelRgba.a dp) * 2 + 128) 0 255
    /\ PixelRgba.g out = Clamp ((128 - PixelRgba.b dp) * 2 + 128) 0 255
    /\ PixelRgba.b out = Clamp ((255 - PixelRgba.g dp) * 2 + 128) 0 255
    /\ PixelRgba.a out = PixelMono.r hp
    /\ (dp = PixelRgba.mk 0 255 128 128 ->
        PixelRgba.r out = 128%Z /\ PixelRgba.g out = 128%Z /\ PixelRgba.b out = 128%Z).
Proof.
  apply (C1_residual_assembly (H:=sample_externals) (scenario None) 0 0
           (Bitmap_new 8 8 (PixelRgba.mk 0 255 128 128)) (PixelRgba.mk 0 255 128 128)).
  - reflexivity.
  - discriminate.
  - vm_compute. reflexivity.
  - reflexivity.
Defined.

(** ** Bump assembly *)

(** *** The gloss curve on bytes *)

Lemma gloss_log_bytes_check :
  forallb (fun g => Z.eqb (gloss_log g) (Z.sqrt (255 * g))) (map Z.of_nat (seq 0 256)) = true.
Proof. vm_compute. reflexivity. Qed.

Lemma gloss_log_floor_sqrt (g : Z) :
  (0 <= g <= 255)%Z -> gloss_log g = Z.sqrt (255 * g).
Proof.
  intros Hg. pose proof gloss_log_bytes_check as Hall.
  rewrite forallb_forall in Hall.
  apply Z.eqb_eq, Hall. apply in_map_iff. exists (Z.to_nat g).
  split; [lia|]. apply in_seq. lia.
Qed.

Section Assembly.
Context `{Externals}.

Lemma gloss_present_pyramid inp gloss :
  loaded_glossmap inp = Some gloss ->
  pixels gloss <> [] ->
  width gloss = width (loaded_normalmap inp) ->
  height gloss = height (loaded_normalmap inp) ->
  bump_pyramid inp
  = assemble_bump (linearGloss inp)
      (build_pyramid true (width (loaded_normalmap inp)) (height (loaded_normalmap inp))
                     (loaded_normalmap inp))
      (build_pyramid false (width (loaded_normalmap inp)) (height (loaded_normalmap inp))
                     gloss).
Proof.
  intros Hg Hne Hw Hh. unfold bump_pyramid. rewrite Hg. cbn [load_optional].
  assert (Hc : check_dimensions gloss (loaded_normalmap inp) = gloss).
  { unfold check_dimensions.
    apply Bitmap_empty_false in Hne. rewrite Hne. cbn [andb].
    rewrite Hw, Hh, !Nat.eqb_refl. reflexivity. }
  rewrite Hc. unfold build_optional_pyramid.
  apply Bitmap_empty_false in Hne. now rewrite Hne.
Qed.

Lemma gloss_absent_pyramid inp :
  (loaded_glossmap inp = None
   \/ exists gloss, loaded_glossmap inp = Some gloss
        /\ (pixels gloss = []
            \/ width gloss <> width (loaded_normalmap inp)
            \/ height gloss <> height (loaded_normalmap inp))) ->
  bump_pyramid inp
  = assemble_bump (linearGloss inp)
      (build_pyramid true (width (loaded_normalmap inp)) (height (loaded_normalmap inp))
                     (loaded_normalmap inp))
      (Texture_new (width (loaded_normalmap inp)) (height (loaded_normalmap inp))).
Proof.
  intros Habs. unfold bump_pyramid.
  set (aux := check_dimensions _ _).
  assert (He : Bitmap_empty aux = true).
  { destruct (Bitmap_empty aux) eqn:E; [reflexivity|exfalso].
    destruct (check_dimensions_nonempty _ _ E) as (Hc & Hw & Hh).
    subst aux. rewrite Hc in E. apply Bitmap_empty_false in E.
    destruct Habs as [Hn | (gloss & Hg & Hcase)].
    - rewrite Hn in E. now apply E.
    - rewrite Hg in E, Hw, Hh. cbn [load_optional] in *.
      destruct Hcase as [Hp | [Hd | Hd]]; congruence. }
  unfold build_optional_pyramid. now rewrite He.
Qed.

Lemma assemble_bump_pixel linear N G i normalMip glossMip k np gp :
  mips N !! i = Some normalMip ->
  mips G !! i = Some glossMip ->
  length (pixels glossMip) = length (pixels normalMip) ->
  pixels normalMip !! k = Some np ->
  pixels glossMip !! k = Some gp ->
  exists bumpMip,
    mips (assemble_bump linear N G) !! i = Some bumpMip
    /\ pixels bumpMip !! k = Some (assemble_pixel linear np gp).
Proof.
  intros Hn Hg Hlen Hnp Hgp. eexists. split.
  - rewrite (assemble_bump_lookup _ _ _ _ _ Hn).
    now rewrite (nth_lookup_Some _ _ _ _ Hg).
  - unfold assemble_mip. cbn [pixels].
    rewrite transform2_full by lia.
    now rewrite lookup_zip_with, Hnp, Hgp.
Qed.
End Assembly.

(** C2, refuted as stated.  On the 8x8 scenario with a constant gloss of 64
    and the curve enabled, the assembled red byte is 127, while the nearest
    integer to [sqrt (64 / 255) * 255] is 128: the conversion to [uint8_t]
    truncates. *)
Lemma C2_gloss_64_counterexample :
  let inp := scenario (Some (Bitmap_new 8 8 (PixelMono.mk 64))) in
  exists bumpMip p,
    mips (bump_pyramid (H:=sample_externals) inp) !! 0 = Some bumpMip
    /\ pixels bumpMip !! 0 = Some p
    /\ PixelRgba.r p = 127%Z
    /\ round_sqrt_gloss 64 = 128%Z
    /\ PixelRgba.r p <> round_sqrt_gloss 64.
Proof.
  exists (Bitmap_new 8 8 (PixelRgba.mk 127 255 128 128)), (PixelRgba.mk 127 255 128 128).
  split; [vm_compute; reflexivity|].
  repeat split; try reflexivity. vm_compute. discriminate.
Qed.

(** C2, amended.  With a gloss map present and the linear-gloss flag off,
    the red byte of every assembled pixel is the binary32 value of
    [sqrt (gp.r / 255) * 255] truncated to an integer, which for a gloss
    byte is [floor (sqrt (255 * gp.r))]; a gloss of 64 gives 127. *)
Theorem C2_gloss_curve_truncates `{Externals} (inp : MainInputs)
    (gloss glossMip : Bitmap PixelMono.t) (i k : nat) (gp : PixelMono.t) :
  Bitmap_wf (loaded_normalmap inp) ->
  loaded_glossmap inp = Some gloss ->
  Bitmap_wf gloss ->
  pixels gloss <> [] ->
  width gloss = width (loaded_normalmap inp) ->
  height gloss = height (loaded_normalmap inp) ->
  linearGloss inp = false ->
  mips (build_pyramid false (width (loaded_normalmap inp))
          (height (loaded_normalmap inp)) gloss) !! i = Some glossMip ->
  pixels glossMip !! k = Some gp ->
  exists bumpMip p,
    mips (bump_pyramid inp) !! i = Some bumpMip
    /\ pixels bumpMip !! k = Some p
    /\ PixelRgba.r p = gloss_log (PixelMono.r gp)
    /\ ((0 <= PixelMono.r gp <= 255)%Z -> PixelRgba.r p = Z.sqrt (255 * PixelMono.r gp))
    /\ (PixelMono.r gp = 64%Z -> PixelRgba.r p = 127%Z).
Proof.
  intros Hwf Hg Hgwf Hne Hw Hh Hlin Hgm Hgp.
  rewrite (gloss_present_pyramid inp gloss Hg Hne Hw Hh), Hlin.
  set (w := width (loaded_normalmap inp)) in *.
  set (h := height (loaded_normalmap inp)) in *.
  assert (HsN : shape <$> mips (build_pyramid true w h (loaded_normalmap inp))
                = shape <$> mips (Texture_new (T:=PixelRgba.t) w h)).
  { apply build_pyramid_shape. unfold shape. now rewrite Hwf. }
  assert (HsG : shape <$> mips (build_pyramid false w h gloss)
                = shape <$> mips (Texture_new (T:=PixelRgba.t) w h)).
  { rewrite (Texture_new_shape_indep (T1:=PixelRgba.t) (T2:=PixelMono.t)).
    apply build_pyramid_shape. unfold shape. now rewrite Hgwf, Hw, Hh. }
  destruct (same_shape_lookup _ _ _ _ (eq_trans HsG (eq_sym HsN)) Hgm)
    as (normalMip & Hn & Hs).
  assert (Hlen : length (pixels glossMip) = length (pixels normalMip))
    by (unfold shape in Hs; congruence).
  destruct (lookup_lt_is_Some_2 (pixels normalMip) k) as [np Hnp].
  { rewrite <- Hlen. now apply lookup_lt_Some in Hgp. }
  destruct (assemble_bump_pixel false _ _ i normalMip glossMip k np gp Hn Hgm Hlen Hnp Hgp)
    as (bumpMip & Hb & Hp).
  exists bumpMip, (assemble_pixel false np gp).
  split; [exact Hb|]. split; [exact Hp|]. cbn [assemble_pixel PixelRgba.r].
  split; [reflexivity|]. split.
  - apply gloss_log_floor_sqrt.
  - intros ->. reflexivity.
Qed.

(** The amended statement on the scenario with a constant gloss of 64. *)
Lemma C2_gloss_curve_truncates_witness :
  exists bumpMip p,
    mips (bump_pyramid (H:=sample_externals)
            (scenario (Some (Bitmap_new 8 8 (PixelMono.mk 64))))) !! 0 = Some bumpMip
    /\ pixels bumpMip !! 0 = Some p
    /\ PixelRgba.r p = gloss_log 64
    /\ ((0 <= 64 <= 255)%Z -> PixelRgba.r p = Z.sqrt (255 * 64))
    /\ (64%Z = 64%Z -> PixelRgba.r p = 127%Z).
Proof.
  apply (C2_gloss_curve_truncates (H:=sample_externals)
           (scenario (Some (Bitmap_new 8 8 (PixelMono.mk 64))))
           (Bitmap_new 8 8 (PixelMono.mk 64)) (Bitmap_new 8 8 (PixelMono.mk 64))
           0 0 (PixelMono.mk 64)).
  - reflexivity.
  - reflexivity.
  - reflexivity.
  - discriminate.
  - reflexivity.
  - reflexivity.
  - reflexivity.
  - vm_compute. reflexivity.
  - reflexivity.
Defined.

(** C3, refuted as stated.  On the 8x8 scenario without a gloss map the
    normal map's red byte is 128 and the assembled red byte is 0. *)
Lemma C3_missing_gloss_counterexample :
  let inp := scenario None in
  exists bumpMip p np,
    pixels (loaded_normalmap inp) !! 0 = Some np
    /\ mips (bump_pyramid (H:=sample_externals) inp) !! 0 = Some bumpMip
    /\ pixels bumpMip !! 0 = Some p
    /\ PixelRgba.r np = 128%Z
    /\ PixelRgba.r p = 0%Z
    /\ PixelRgba.r p <> PixelRgba.r np.
Proof.
  exists (Bitmap_new 8 8 (PixelRgba.mk 0 255 128 128)), (PixelRgba.mk 0 255 128 128),
         (PixelRgba.mk 128 128 255 0).
  split; [reflexivity|]. split; [vm_compute; reflexivity|].
  repeat split; try reflexivity. cbn. discriminate.
Qed.

(** C3, amended.  When the gloss map is absent (not provided, unreadable,
    or of other dimensions than the normal map), every assembled pixel is
    [(0, np.b, np.g, np.r)]: the swizzle is applied and the red byte comes
    from the zero-initialised gloss pyramid, whatever the linear flag. *)
Theorem C3_missing_gloss_red_is_zero `{Externals} (inp : MainInputs)
    (normalMip : Bitmap PixelRgba.t) (i k : nat) (np : PixelRgba.t) :
  Bitmap_wf (loaded_normalmap inp) ->
  (loaded_glossmap inp = None
   \/ exists gloss, loaded_glossmap inp = Some gloss
        /\ (pixels gloss = []
            \/ width gloss <> width (loaded_normalmap inp)
            \/ height gloss <> height (loaded_normalmap inp))) ->
  mips (build_pyramid true (width (loaded_normalmap inp))
          (height (loaded_normalmap inp)) (loaded_normalmap inp)) !! i = Some normalMip ->
  pixels normalMip !! k = Some np ->
  exists bumpMip,
    mips (bump_pyramid inp) !! i = Some bumpMip
    /\ pixels bumpMip !! k
       = Some (PixelRgba.mk 0 (PixelRgba.b np) (PixelRgba.g np) (PixelRgba.r np)).
Proof.
  intros Hwf Habs Hn Hnp.
  rewrite (gloss_absent_pyramid inp Habs).
  set (w := width (loaded_normalmap inp)) in *.
  set (h := height (loaded_normalmap inp)) in *.
  assert (HsN : shape <$> mips (build_pyramid true w h (loaded_normalmap inp))
                = shape <$> mips (Texture_new (T:=PixelMono.t) w h)).
  { rewrite (Texture_new_shape_indep (T1:=PixelMono.t) (T2:=PixelRgba.t)).
    apply build_pyramid_shape. unfold shape. now rewrite Hwf. }
  destruct (same_shape_lookup _ _ _ _ HsN Hn) as (glossMip & Hg & Hs).
  assert (Hlen : length (pixels glossMip) = length (pixels normalMip))
    by (unfold shape in Hs; congruence).
  assert (Hgp : pixels glossMip !! k = Some (PixelMono.mk 0)).
  { pose proof (lookup_lt_Some _ _ _ Hg) as Hi.
    unfold Texture_new in Hg, Hi. cbn [mips] in Hg, Hi.
    rewrite Texture_push_length in Hi.
    rewrite Texture_push_lookup in Hg by exact Hi.
    injection Hg as <-. cbn [pixels Bitmap_new] in *.
    apply lookup_replicate_2. rewrite length_replicate in Hlen.
    rewrite Hlen. now apply lookup_lt_Some in Hnp. }
  destruct (assemble_bump_pixel (linearGloss inp) _ _ i normalMip glossMip k np
              (PixelMono.mk 0) Hn Hg Hlen Hnp Hgp) as (bumpMip & Hb & Hp).
  exists bumpMip. split; [exact Hb|]. rewrite Hp.
  unfold assemble_pixel. cbn [PixelMono.r].
  now destruct (linearGloss inp).
Qed.

(** The amended statement on the scenario without a gloss map. *)
Lemma C3_missing_gloss_red_is_zero_witness :
  exists bumpMip,
    mips (bump_pyramid (H:=sample_externals) (scenario None)) !! 0 = Some bumpMip
    /\ pixels bumpMip !! 0 = Some (PixelRgba.mk 0 255 128 128).
Proof.
  apply (C3_missing_gloss_red_is_zero (H:=sample_externals) (scenario None)
           (flat_normalmap 0) 0 0 (PixelRgba.mk 128 128 255 0)).
  - reflexivity.
  - left. reflexivity.
  - vm_compute. reflexivity.
  - reflexivity.
Defined.

(** ** Normalisation, pyramid shape, validation *)

(** C4, refuted as stated.  Downsampling an opaque 8x8 image to 4x4 leaves
    alpha 255; after the normalisation step the same pixel has alpha 0. *)
Lemma C4_normalize_alpha_counterexample :
  let src := flat_normalmap 255 in
  let dst := Bitmap_new 4 4 (PixelRgba.mk 0 0 0 0) in
  exists downsampled normalized,
    pixels (MakeMip (H:=sample_externals) false src dst) !! 0 = Some downsampled
    /\ pixels (MakeMip (H:=sample_externals) true src dst) !! 0 = Some normalized
    /\ PixelRgba.a downsampled = 255%Z
    /\ PixelRgba.a normalized = 0%Z
    /\ PixelRgba.a normalized <> PixelRgba.a downsampled.
Proof.
  exists (PixelRgba.mk 128 128 255 255), (PixelRgba.mk 127 127 254 0).
  split; [vm_compute; reflexivity|]. split; [vm_compute; reflexivity|].
  repeat split; try reflexivity. cbn. discriminate.
Qed.

(** C4, amended.  With [normalize = true] on an RGBA8 bitmap, [MakeMip]
    replaces every downsampled pixel by [normalize_rgba] of it and keeps the
    dimensions; the replacement holds the renormalised [r], [g], [b] and
    alpha 0. *)
Theorem C4_normalize_resets_alpha `{Externals} (src dst : Bitmap PixelRgba.t) :
  pixels (MakeMip true src dst) = map normalize_rgba (pixels (MakeMip false src dst))
  /\ width (MakeMip true src dst) = width dst
  /\ height (MakeMip true src dst) = height dst
  /\ forall p : PixelRgba.t,
       PixelRgba.a (normalize_rgba p) = 0%Z
       /\ (PixelRgba.r (normalize_rgba p), PixelRgba.g (normalize_rgba p),
           PixelRgba.b (normalize_rgba p))
          = normalize_rgb (PixelRgba.r p) (PixelRgba.g p) (PixelRgba.b p).
Proof.
  split; [reflexivity|]. split; [reflexivity|]. split; [reflexivity|].
  intros p. unfold normalize_rgba.
  destruct (normalize_rgb _ _ _) as [[nr ng] nb]. split; reflexivity.
Qed.

(** C5, refuted as stated.  256x128 yields 8 mips, not 7; and for the
    power-of-two base 2x8 mip 0 is 2 wide, not [max (2 >> 0, 4) = 4]. *)
Lemma C5_pyramid_shape_counterexample :
  (IsPowerOfTwo 256 = true /\ IsPowerOfTwo 128 = true
   /\ length (mips (Texture_new (T:=PixelRgba.t) 256 128)) = 8
   /\ length (mips (Texture_new (T:=PixelRgba.t) 256 128)) <> 7)
  /\ (IsPowerOfTwo 2 = true /\ IsPowerOfTwo 8 = true
      /\ exists mip0,
           mips (Texture_new (T:=PixelRgba.t) 2 8) !! 0 = Some mip0
           /\ width mip0 = 2
           /\ width mip0 <> Nat.max (Nat.shiftr 2 0) 4).
Proof.
  split.
  - split; [reflexivity|]. split; [reflexivity|].
    unfold Texture_new. cbn [mips]. rewrite Texture_push_length.
    split; [reflexivity|]. vm_compute. discriminate.
  - split; [reflexivity|]. split; [reflexivity|].
    exists (Bitmap_new 2 8 (PixelRgba.mk 0 0 0 0)).
    split; [reflexivity|]. split; [reflexivity|]. cbn. lia.
Qed.

(** C5, amended.  For power-of-two base dimensions [(W, H)] the pyramid has
    [floor (log2 (max W H))] mips; mip 0 has dimensions [(W, H)] and every
    mip [i >= 1] has [(max (W >> i, 4), max (H >> i, 4))], so that for
    [W, H >= 4] the formula holds at every level.  All pixels are zero. *)
Theorem C5_pyramid_shape {T} `{Pixel T} (W H0 : nat) :
  is_power_of_two W -> is_power_of_two H0 ->
  (Z.of_nat W < 2 ^ 64)%Z -> (Z.of_nat H0 < 2 ^ 64)%Z ->
  let texture := Texture_new (T:=T) W H0 in
  length (mips texture) = Nat.log2 (Nat.max W H0)
  /\ (0 < length (mips texture) ->
      mips texture !! 0 = Some (Bitmap_new W H0 pixel_zero))
  /\ (forall i, 1 <= i < length (mips texture) ->
      mips texture !! i
      = Some (Bitmap_new (Nat.max (Nat.shiftr W i) 4) (Nat.max (Nat.shiftr H0 i) 4)
                         pixel_zero))
  /\ (4 <= W -> 4 <= H0 ->
      forall i, i < length (mips texture) ->
      mips texture !! i
      = Some (Bitmap_new (Nat.max (Nat.shiftr W i) 4) (Nat.max (Nat.shiftr H0 i) 4)
                         pixel_zero)).
Proof.
  intros _ _ HW HH texture. subst texture. unfold Texture_new. cbn [mips].
  rewrite Texture_push_length.
  assert (Hn : Log2I (Nat.max W H0) = Nat.log2 (Nat.max W H0)).
  { apply Log2I_log2. destruct (Nat.max_spec W H0) as [[_ ->]|[_ ->]]; assumption. }
  split; [exact Hn|]. split; [|split].
  - intros Hpos. now rewrite Texture_push_lookup.
  - intros i [Hi1 Hi2]. rewrite Texture_push_lookup by exact Hi2.
    destruct i as [|i]; [lia|]. reflexivity.
  - intros HW4 HH4 i Hi. rewrite Texture_push_lookup by exact Hi.
    destruct i as [|i]; [|reflexivity].
    cbn [mip_dim]. change (Nat.shiftr W 0) with W. change (Nat.shiftr H0 0) with H0.
    now rewrite !Nat.max_l by lia.
Qed.

(** The amended statement on a 256x128 base. *)
Lemma C5_pyramid_shape_witness :
  let texture := Texture_new (T:=PixelRgba.t) 256 128 in
  length (mips texture) = Nat.log2 (Nat.max 256 128)
  /\ (0 < length (mips texture) ->
      mips texture !! 0 = Some (Bitmap_new 256 128 pixel_zero))
  /\ (forall i, 1 <= i < length (mips texture) ->
      mips texture !! i
      = Some (Bitmap_new (Nat.max (Nat.shiftr 256 i) 4) (Nat.max (Nat.shiftr 128 i) 4)
                         pixel_zero))
  /\ (4 <= 256 -> 4 <= 128 ->
      forall i, i < length (mips texture) ->
      mips texture !! i
      = Some (Bitmap_new (Nat.max (Nat.shiftr 256 i) 4) (Nat.max (Nat.shiftr 128 i) 4)
                         pixel_zero)).
Proof.
  apply (C5_pyramid_shape (T:=PixelRgba.t) 256 128).
  - exists 8. reflexivity.
  - exists 7. reflexivity.
  - reflexivity.
  - reflexivity.
Defined.

(** The 256x128 scenario of the specification, mip by mip. *)
Example pyramid_256_128 :
  map (fun mip => (width mip, height mip)) (mips (Texture_new (T:=PixelRgba.t) 256 128))
  = [(256, 128); (128, 64); (64, 32); (32, 16); (16, 8); (8, 4); (4, 4); (4, 4)].
Proof. reflexivity. Qed.

(** C9.  Fatal validation.  When the loaded normal map's width or height is
    not a power of two, the driver returns a non-zero status and has written
    no file. *)
Theorem C9_bad_dimensions_are_fatal `{Externals} (inp : MainInputs) :
  ~ is_power_of_two (width (loaded_normalmap inp))
  \/ ~ is_power_of_two (height (loaded_normalmap inp)) ->
  fst (Main_loaded inp) <> 0%Z /\ snd (Main_loaded inp) = [].
Proof.
  intros Hbad. unfold Main_loaded.
  destruct (Bitmap_empty (loaded_normalmap inp)); [split; [discriminate|reflexivity]|].
  destruct (IsPowerOfTwo (width (loaded_normalmap inp))) eqn:Ew;
    destruct (IsPowerOfTwo (height (loaded_normalmap inp))) eqn:Eh;
    cbn [negb orb]; try (split; [discriminate|reflexivity]).
  apply IsPowerOfTwo_spec in Ew, Eh. destruct Hbad as [Hb|Hb]; contradiction.
Qed.

(** The statement above on a 100x100 normal map. *)
Lemma C9_bad_dimensions_are_fatal_witness :
  let inp :=
    mkMainInputs (Bitmap_new 100 100 (PixelRgba.mk 128 128 255 0)) None None false 2
                 true true in
  fst (Main_loaded (H:=sample_externals) inp) <> 0%Z
  /\ snd (Main_loaded (H:=sample_externals) inp) = [].
Proof.
  apply (C9_bad_dimensions_are_fatal (H:=sample_externals)).
  left. cbn [loaded_normalmap width Bitmap_new].
  intros Hp. apply IsPowerOfTwo_spec in Hp. vm_compute in Hp. discriminate.
Defined.

(** ** DDS writer *)

Lemma u32le_roundtrip (v : Z) :
  (0 <= v < 2 ^ 32)%Z -> load_u32 (u32le v) 0 = v.
Proof.
  intros Hv. unfold load_u32, u32le, byte_at. cbn [nth Nat.add].
  change (2 ^ 32)%Z with 4294967296%Z in Hv.
  Z.div_mod_to_equations. lia.
Qed.

Lemma load_u32_words (ws : list Z) (rest : list Z) : forall j w,
  ws !! j = Some w ->
  load_u32 (concat (map u32le ws) ++ rest) (4 * j) = load_u32 (u32le w) 0.
Proof.
  induction ws as [|w0 ws IH]; intros j w Hj; [discriminate|].
  destruct j as [|j].
  - injection Hj as ->. reflexivity.
  - cbn in Hj. specialize (IH j w Hj).
    replace (4 * S j) with (S (S (S (S (4 * j))))) by lia.
    exact IH.
Qed.

Lemma SaveAsDDS_layout compressedMips w h :
  SaveAsDDS true compressedMips w h
  = Some (concat (map u32le (dds_words (length compressedMips) w h))
          ++ concat compressedMips).
Proof. reflexivity. Qed.

Lemma dds_header_length n w h : length (concat (map u32le (dds_words n w h))) = 128.
Proof. reflexivity. Qed.

Lemma to_u32_small (n : nat) : (Z.of_nat n < 2 ^ 32)%Z -> to_u32 n = Z.of_nat n.
Proof. intros Hn. unfold to_u32. apply Z.mod_small. lia. Qed.

Lemma to_u32_range (n : nat) : (0 <= to_u32 n < 2 ^ 32)%Z.
Proof. unfold to_u32. apply Z.mod_pos_bound. lia. Qed.

Lemma dds_word_read n w h rest j v :
  dds_words n w h !! j = Some v -> (0 <= v < 2 ^ 32)%Z ->
  load_u32 (concat (map u32le (dds_words n w h)) ++ rest) (4 * j) = v.
Proof.
  intros Hj Hv. rewrite (load_u32_words _ _ _ _ Hj). now apply u32le_roundtrip.
Qed.

Section CompressLength.
Context `{Externals}.

Lemma fold_left_invariant {A B} (P : A -> Prop) (f : A -> B -> A) l : forall a,
  (forall a b, P a -> P (f a b)) -> P a -> P (fold_left f l a).
Proof. induction l as [|b l IH]; intros a Hf Ha; cbn; auto. Qed.

Lemma CompressBC3_blocks_length encode bmp outBlocks :
  length (CompressBC3_blocks encode bmp outBlocks) = length outBlocks.
Proof.
  unfold CompressBC3_blocks.
  apply (fold_left_invariant (fun st => length (fst st) = length outBlocks));
    [|reflexivity].
  intros st y Hst.
  apply (fold_left_invariant (fun st => length (fst st) = length outBlocks));
    [|exact Hst].
  intros [out dst] x Hout. cbn [fst] in *. now rewrite length_inserts.
Qed.

Lemma compress_mip_length q mip :
  length (compress_mip q mip) = (width mip / 4) * (height mip / 4) * 16.
Proof.
  unfold compress_mip, CompressBC3_STB, CompressBC3_Squish, CompressBC3_RGBCX.
  destruct (q =? 0)%Z; [|destruct (q =? 1)%Z];
    now rewrite CompressBC3_blocks_length, length_replicate.
Qed.

Lemma compress_mips_eq q withMips :
  compress_mips q withMips = map (compress_mip q) (mips withMips).
Proof.
  apply list_eq. intros i. rewrite map_fmap, list_lookup_fmap.
  destruct (mips withMips !! i) as [mip|] eqn:Hm.
  - now apply compress_mips_lookup.
  - apply lookup_ge_None. apply lookup_ge_None in Hm.
    unfold compress_mips. now rewrite for_each_index_length, length_replicate.
Qed.

Lemma compress_mips_total_length q withMips :
  length (concat (compress_mips q withMips))
  = list_sum (map (fun mip => (width mip / 4) * (height mip / 4) * 16) (mips withMips)).
Proof.
  rewrite compress_mips_eq, length_concat, map_map. f_equal.
  apply map_ext. intros mip. apply compress_mip_length.
Qed.
End CompressLength.

(** C8, refuted as stated.  The word at offset 80 ([ddpf.dwFlags]) is 4,
    and it is not one of the fields the claim lists as non-zero (words 0, 1,
    2, 3, 4, 7, 19, 21 and 27 of the file). *)
Lemma C8_unlisted_field_counterexample :
  exists out,
    SaveAsDDS true [replicate 16 0%Z] 4 4 = Some out
    /\ load_u32 out 80 = 4%Z
    /\ ~ (forall j, j < 32 -> ~ In j [0; 1; 2; 3; 4; 7; 19; 21; 27] ->
          load_u32 out (4 * j) = 0%Z).
Proof.
  eexists. split; [reflexivity|]. split; [reflexivity|].
  intros Hall. specialize (Hall 20).
  assert (Hz : load_u32 (concat (map u32le (dds_words 1 4 4)) ++ concat [replicate 16 0%Z])
                 (4 * 20) = 0%Z).
  { apply Hall; [lia|]. cbn. intuition lia. }
  vm_compute in Hz. discriminate.
Qed.

(** C8, amended.  For [W], [H] and the mip count below [2 ^ 32], a written
    file starts with ["DDS "], then [dwSize = 124], [dwFlags = 0x00021007],
    [dwHeight = H], [dwWidth = W], [dwMipMapCount = N], [ddpf.dwSize = 32],
    [ddpf.dwFlags = 4], [ddpf.dwFourCC = "DXT5"] at bytes 84..87,
    [ddsCaps.dwCaps = 0x00401000], every other header word zero; the
    payloads follow from byte 128 without padding, and for the payloads that
    [Main] compresses the length is [128 + sum (w_i / 4) * (h_i / 4) * 16]. *)
Theorem C8_dds_file_layout `{Externals} (compressedMips : list (list Z)) (W H0 : nat) :
  (Z.of_nat W < 2 ^ 32)%Z -> (Z.of_nat H0 < 2 ^ 32)%Z ->
  (Z.of_nat (length compressedMips) < 2 ^ 32)%Z ->
  exists out,
    SaveAsDDS true compressedMips W H0 = Some out
    /\ take 4 out = [68; 68; 83; 32]%Z
    /\ load_u32 out 0 = 0x20534444%Z
    /\ load_u32 out 4 = 124%Z
    /\ load_u32 out 8 = 0x00021007%Z
    /\ load_u32 out 12 = Z.of_nat H0
    /\ load_u32 out 16 = Z.of_nat W
    /\ load_u32 out 28 = Z.of_nat (length compressedMips)
    /\ load_u32 out 76 = 32%Z
    /\ load_u32 out 80 = 0x00000004%Z
    /\ load_u32 out 84 = 0x35545844%Z
    /\ take 4 (drop 84 out) = [68; 88; 84; 53]%Z
    /\ load_u32 out 108 = 0x00401000%Z
    /\ (forall j, j < 32 -> ~ In j [0; 1; 2; 3; 4; 7; 19; 20; 21; 27] ->
        load_u32 out (4 * j) = 0%Z)
    /\ drop 128 out = concat compressedMips
    /\ length out = 128 + list_sum (map length compressedMips)
    /\ (forall q withMips,
          compressedMips = compress_mips q withMips ->
          length out
          = 128 + list_sum (map (fun mip => (width mip / 4) * (height mip / 4) * 16)
                                (mips withMips))).
Proof.
  intros HW HH HN. eexists. split; [apply SaveAsDDS_layout|].
  set (n := length compressedMips) in *.
  set (payload := concat compressedMips).
  assert (Hword : forall j v, dds_words n W H0 !! j = Some v -> (0 <= v < 2 ^ 32)%Z ->
            load_u32 (concat (map u32le (dds_words n W H0)) ++ payload) (4 * j) = v)
    by (intros j v; apply dds_word_read).
  split; [reflexivity|].
  split; [apply (Hword 0); [reflexivity|vm_compute; split; [discriminate|reflexivity]]|].
  split; [apply (Hword 1); [reflexivity|vm_compute; split; [discriminate|reflexivity]]|].
  split; [apply (Hword 2); [reflexivity|vm_compute; split; [discriminate|reflexivity]]|].
  split; [rewrite <- (to_u32_small H0 HH); apply (Hword 3); [reflexivity|apply to_u32_range]|].
  split; [rewrite <- (to_u32_small W HW); apply (Hword 4); [reflexivity|apply to_u32_range]|].
  split; [rewrite <- (to_u32_small n HN); apply (Hword 7); [reflexivity|apply to_u32_range]|].
  split; [apply (Hword 19); [reflexivity|vm_compute; split; [discriminate|reflexivity]]|].
  split; [apply (Hword 20); [reflexivity|vm_compute; split; [discriminate|reflexivity]]|].
  split; [apply (Hword 21); [reflexivity|vm_compute; split; [discriminate|reflexivity]]|].
  split; [reflexivity|].
  split; [apply (Hword 27); [reflexivity|vm_compute; split; [discriminate|reflexivity]]|].
  split.
  { intros j Hj Hnot.
    assert (Hz : dds_words n W H0 !! j = Some 0%Z).
    { do 32 (destruct j as [|j]; [try reflexivity; exfalso; apply Hnot; cbn; tauto|]).
      lia. }
    apply (Hword j 0%Z Hz). lia. }
  split; [reflexivity|].
  assert (Hlen : length (concat (map u32le (dds_words n W H0)) ++ payload)
                 = 128 + list_sum (map length compressedMips)).
  { rewrite length_app, dds_header_length. subst payload. now rewrite length_concat. }
  split; [exact Hlen|].
  intros q withMips ->. rewrite length_app, dds_header_length. subst payload.
  now rewrite compress_mips_total_length.
Qed.

(** The amended statement on the bump payloads of the 8x8 scenario. *)
Lemma C8_dds_file_layout_witness :
  let compressedMips :=
    compress_mips (H:=sample_externals) 2 (bump_pyramid (H:=sample_externals) (scenario None)) in
  exists out,
    SaveAsDDS true compressedMips 8 8 = Some out
    /\ take 4 out = [68; 68; 83; 32]%Z
    /\ load_u32 out 0 = 0x20534444%Z
    /\ load_u32 out 4 = 124%Z
    /\ load_u32 out 8 = 0x00021007%Z
    /\ load_u32 out 12 = 8%Z
    /\ load_u32 out 16 = 8%Z
    /\ load_u32 out 28 = Z.of_nat (length compressedMips)
    /\ load_u32 out 76 = 32%Z
    /\ load_u32 out 80 = 0x00000004%Z
    /\ load_u32 out 84 = 0x35545844%Z
    /\ take 4 (drop 84 out) = [68; 88; 84; 53]%Z
    /\ load_u32 out 108 = 0x00401000%Z
    /\ (forall j, j < 32 -> ~ In j [0; 1; 2; 3; 4; 7; 19; 20; 21; 27] ->
        load_u32 out (4 * j) = 0%Z)
    /\ drop 128 out = concat compressedMips
    /\ length out = 128 + list_sum (map length compressedMips)
    /\ (forall q withMips,
          compressedMips = compress_mips (H:=sample_externals) q withMips ->
          length out
          = 128 + list_sum (map (fun mip => (width mip / 4) * (height mip / 4) * 16)
                                (mips withMips))).
Proof.
  apply (C8_dds_file_layout (H:=sample_externals)
           (compress_mips (H:=sample_externals) 2
              (bump_pyramid (H:=sample_externals) (scenario None))) 8 8).
  - reflexivity.
  - reflexivity.
  - vm_compute. reflexivity.
Defined.

(** ** BC3 reference decoder *)

(** *** The colour sub-block decoder, row by row *)

Lemma color_row_length n : forall mem dst xOff idx colors,
  length (color_row n mem dst xOff idx colors) = length mem.
Proof.
  induction n as [|n IH]; intros; cbn [color_row]; cbv zeta; [reflexivity|].
  now rewrite IH, !length_insert.
Qed.

Lemma color_row_miss n : forall mem dst xOff idx colors p,
  (forall x c, x < n -> c < 3 -> p <> dst + x * xOff + c) ->
  color_row n mem dst xOff idx colors !! p = mem !! p.
Proof.
  induction n as [|n IH]; intros mem dst xOff idx colors p Hp; [reflexivity|].
  cbn [color_row]. cbv zeta. rewrite IH.
  - pose proof (Hp 0 0). pose proof (Hp 0 1). pose proof (Hp 0 2).
    rewrite !list_lookup_insert_ne by lia. reflexivity.
  - intros x c Hx Hc. specialize (Hp (S x) c). lia.
Qed.

Lemma color_row_hit n : forall mem dst xOff idx colors x c,
  3 <= xOff -> x < n -> c < 3 ->
  dst + x * xOff + c < length mem ->
  color_row n mem dst xOff idx colors !! (dst + x * xOff + c)
  = Some (color_entry colors (Z.land (Z.shiftr idx (2 * Z.of_nat x)) 3) c).
Proof.
  induction n as [|n IH]; intros mem dst xOff idx colors x c HxOff Hx Hc Hlen; [lia|].
  cbn [color_row]. cbv zeta. destruct x as [|x].
  - rewrite color_row_miss by (intros x' c' _ _; lia).
    change (2 * Z.of_nat 0)%Z with 0%Z. rewrite Z.shiftr_0_r.
    replace (dst + 0 * xOff + c) with (dst + c) in * by lia.
    destruct c as [|[|[|c]]]; [| | |lia].
    + rewrite !list_lookup_insert_ne by lia.
      rewrite Nat.add_0_r. now rewrite list_lookup_insert_eq by lia.
    + rewrite list_lookup_insert_ne by lia.
      now rewrite list_lookup_insert_eq by (rewrite length_insert; lia).
    + now rewrite list_lookup_insert_eq by (rewrite !length_insert; lia).
  - replace (dst + S x * xOff + c) with (dst + xOff + x * xOff + c) in * by lia.
    rewrite IH; [|lia|lia|lia|rewrite !length_insert; lia].
    rewrite Z.shiftr_shiftr by lia. repeat f_equal. lia.
Qed.

Lemma color_rows_S colors w xOff yOff dest src soff h mem :
  color_rows colors w xOff yOff dest src soff (S h) mem
  = color_row w (color_rows colors w xOff yOff dest src soff h mem)
              (dest + yOff * h) xOff (byte_at src (soff + h)) colors.
Proof. unfold color_rows. now rewrite fold_left_seq_S. Qed.

Lemma color_rows_length colors w xOff yOff dest src soff h mem :
  length (color_rows colors w xOff yOff dest src soff h mem) = length mem.
Proof.
  induction h as [|h IH]; [reflexivity|].
  now rewrite color_rows_S, color_row_length.
Qed.

Lemma color_rows_miss colors w xOff yOff dest src soff h mem p :
  (forall y x c, y < h -> x < w -> c < 3 -> p <> dest + yOff * y + x * xOff + c) ->
  color_rows colors w xOff yOff dest src soff h mem !! p = mem !! p.
Proof.
  induction h as [|h IH]; intros Hp; [reflexivity|].
  rewrite color_rows_S, color_row_miss.
  - apply IH. intros y x c Hy. apply Hp. lia.
  - intros x c Hx Hc. apply Hp; lia.
Qed.

Lemma color_rows_hit colors w xOff yOff dest src soff h mem y x c :
  3 <= xOff -> (w - 1) * xOff + 3 <= yOff ->
  y < h -> x < w -> c < 3 ->
  dest + yOff * y + x * xOff + c < length mem ->
  color_rows colors w xOff yOff dest src soff h mem !! (dest + yOff * y + x * xOff + c)
  = Some (color_entry colors
            (Z.land (Z.shiftr (byte_at src (soff + y)) (2 * Z.of_nat x)) 3) c).
Proof.
  intros HxOff HyOff Hy Hx Hc Hlen. induction h as [|h IH]; [lia|].
  rewrite color_rows_S.
  destruct (Nat.eq_dec y h) as [->|Hne].
  - apply color_row_hit; try assumption. now rewrite color_rows_length.
  - rewrite color_row_miss; [apply IH; lia|].
    intros x' c' Hx' Hc'.
    assert (yOff * y + yOff <= yOff * h) by nia.
    assert (x * xOff + xOff <= w * xOff) by nia.
    assert ((w - 1) * xOff + xOff = w * xOff) by nia.
    lia.
Qed.

Lemma DecodeBCColorBlock_rows isBC3 mem dest w h xOff yOff src soff :
  DecodeBCColorBlock isBC3 mem dest w h xOff yOff src soff
  = color_rows (color_table isBC3 (load_u16 src soff) (load_u16 src (soff + 2)))
               w xOff yOff dest src (soff + 4) h mem.
Proof. reflexivity. Qed.

(** *** The alpha sub-block decoder, row by row *)

Lemma alpha_row_stream n : forall mem dst xOff a0 a1 alpha,
  snd (alpha_row n mem dst xOff a0 a1 alpha) = Z.shiftr alpha (3 * Z.of_nat n).
Proof.
  induction n as [|n IH]; intros; cbn [alpha_row]; cbv zeta.
  - cbn [snd]. now rewrite Z.shiftr_0_r.
  - rewrite IH, Z.shiftr_shiftr by lia. f_equal. lia.
Qed.

Lemma alpha_row_length n : forall mem dst xOff a0 a1 alpha,
  length (fst (alpha_row n mem dst xOff a0 a1 alpha)) = length mem.
Proof.
  induction n as [|n IH]; intros; cbn [alpha_row]; cbv zeta; [reflexivity|].
  now rewrite IH, length_insert.
Qed.

Lemma alpha_row_miss n : forall mem dst xOff a0 a1 alpha p,
  (forall x, x < n -> p <> dst + x * xOff) ->
  fst (alpha_row n mem dst xOff a0 a1 alpha) !! p = mem !! p.
Proof.
  induction n as [|n IH]; intros mem dst xOff a0 a1 alpha p Hp; [reflexivity|].
  cbn [alpha_row]. cbv zeta. rewrite IH.
  - pose proof (Hp 0). rewrite list_lookup_insert_ne by lia. reflexivity.
  - intros x Hx. specialize (Hp (S x)). lia.
Qed.

Lemma alpha_row_hit n : forall mem dst xOff a0 a1 alpha x,
  1 <= xOff -> x < n ->
  dst + x * xOff < length mem ->
  fst (alpha_row n mem dst xOff a0 a1 alpha) !! (dst + x * xOff)
  = Some (alpha_value a0 a1 (Z.land (Z.shiftr alpha (3 * Z.of_nat x)) 7)).
Proof.
  induction n as [|n IH]; intros mem dst xOff a0 a1 alpha x HxOff Hx Hlen; [lia|].
  cbn [alpha_row]. cbv zeta. destruct x as [|x].
  - rewrite alpha_row_miss by (intros x' _; lia).
    change (3 * Z.of_nat 0)%Z with 0%Z. rewrite Z.shiftr_0_r.
    replace (dst + 0 * xOff) with dst in * by lia.
    now rewrite list_lookup_insert_eq by lia.
  - replace (dst + S x * xOff) with (dst + xOff + x * xOff) in * by lia.
    rewrite IH; [|lia|lia|rewrite length_insert; lia].
    rewrite Z.shiftr_shiftr by lia. repeat f_equal. lia.
Qed.

Lemma alpha_rows_S a0 a1 w xOff yOff dest h st :
  alpha_rows a0 a1 w xOff yOff dest (S h) st
  = (fst (alpha_row w (fst (alpha_rows a0 a1 w xOff yOff dest h st))
                    (dest + yOff * h) xOff a0 a1
                    (snd (alpha_rows a0 a1 w xOff yOff dest h st))),
     if w <? 4
     then Z.shiftr (snd (alpha_row w (fst (alpha_rows a0 a1 w xOff yOff dest h st))
                                   (dest + yOff * h) xOff a0 a1
                                   (snd (alpha_rows a0 a1 w xOff yOff dest h st))))
                   (3 * (4 - Z.of_nat w))
     else snd (alpha_row w (fst (alpha_rows a0 a1 w xOff yOff dest h st))
                         (dest + yOff * h) xOff a0 a1
                         (snd (alpha_rows a0 a1 w xOff yOff dest h st)))).
Proof.
  unfold alpha_rows. rewrite fold_left_seq_S. cbn [Nat.add].
  destruct (fold_left _ (seq 0 h) st) as [mem alpha]. cbn [fst snd].
  destruct (alpha_row w mem (dest + yOff * h) xOff a0 a1 alpha) as [mem' alpha'].
  cbn [fst snd]. now destruct (w <? 4).
Qed.

Lemma alpha_rows_stream a0 a1 w xOff yOff dest h mem alpha :
  w <= 4 ->
  snd (alpha_rows a0 a1 w xOff yOff dest h (mem, alpha))
  = Z.shiftr alpha (12 * Z.of_nat h).
Proof.
  intros Hw. induction h as [|h IH].
  - cbn. now rewrite Z.shiftr_0_r.
  - rewrite alpha_rows_S. cbn [snd]. rewrite alpha_row_stream, IH.
    destruct (Nat.ltb_spec w 4).
    + rewrite !Z.shiftr_shiftr by lia. f_equal. lia.
    + rewrite Z.shiftr_shiftr by lia. f_equal. lia.
Qed.

Lemma alpha_rows_length a0 a1 w xOff yOff dest h st :
  length (fst (alpha_rows a0 a1 w xOff yOff dest h st)) = length (fst st).
Proof.
  induction h as [|h IH]; [reflexivity|].
  rewrite alpha_rows_S. cbn [fst]. now rewrite alpha_row_length.
Qed.

Lemma alpha_rows_miss a0 a1 w xOff yOff dest h st p :
  (forall y x, y < h -> x < w -> p <> dest + yOff * y + x * xOff) ->
  fst (alpha_rows a0 a1 w xOff yOff dest h st) !! p = fst st !! p.
Proof.
  induction h as [|h IH]; intros Hp; [reflexivity|].
  rewrite alpha_rows_S. cbn [fst]. rewrite alpha_row_miss.
  - apply IH. intros y x Hy. apply Hp. lia.
  - intros x Hx. apply Hp; lia.
Qed.

Lemma alpha_rows_hit a0 a1 w xOff yOff dest h mem alpha y x :
  w <= 4 -> 1 <= xOff -> (w - 1) * xOff + 1 <= yOff ->
  y < h -> x < w ->
  dest + yOff * y + x * xOff < length mem ->
  fst (alpha_rows a0 a1 w xOff yOff dest h (mem, alpha)) !! (dest + yOff * y + x * xOff)
  = Some (alpha_value a0 a1
            (Z.land (Z.shiftr alpha (12 * Z.of_nat y + 3 * Z.of_nat x)) 7)).
Proof.
  intros Hw HxOff HyOff Hy Hx Hlen. induction h as [|h IH]; [lia|].
  rewrite alpha_rows_S. cbn [fst].
  destruct (Nat.eq_dec y h) as [->|Hne].
  - rewrite alpha_row_hit; [|assumption|assumption|now rewrite alpha_rows_length].
    rewrite alpha_rows_stream by assumption.
    rewrite Z.shiftr_shiftr by lia. reflexivity.
  - rewrite alpha_row_miss; [apply IH; lia|].
    intros x' Hx'.
    assert (yOff * y + yOff <= yOff * h) by nia.
    assert (x * xOff + xOff <= w * xOff) by nia.
    assert ((w - 1) * xOff + xOff = w * xOff) by nia.
    lia.
Qed.

Lemma DecodeBC3AlphaBlock_rows mem dest w h xOff yOff src soff :
  DecodeBC3AlphaBlock mem dest w h xOff yOff src soff
  = fst (alpha_rows (byte_at src soff) (byte_at src (soff + 1)) w xOff yOff dest h
           (mem, Z.shiftr (load_u64 src soff) 16)).
Proof. reflexivity. Qed.

(** *** Endpoint expansion and the colour table *)

Lemma land_mask_range (v : Z) (n : Z) :
  (0 <= n)%Z -> (0 <= Z.land v (Z.ones n) < 2 ^ n)%Z.
Proof. intros Hn. rewrite Z.land_ones by exact Hn. apply Z.mod_pos_bound. lia. Qed.

Lemma endpoint565_range (c : Z) :
  Forall (fun v => 0 <= v <= 252)%Z (endpoint565 c).
Proof.
  unfold endpoint565.
  pose proof (land_mask_range (Z.shiftr c 11) 5 ltac:(lia)) as H1.
  pose proof (land_mask_range (Z.shiftr c 5) 6 ltac:(lia)) as H2.
  pose proof (land_mask_range c 5 ltac:(lia)) as H3.
  change (Z.ones 5) with 31%Z in *. change (Z.ones 6) with 63%Z in *.
  change (2 ^ 5)%Z with 32%Z in *. change (2 ^ 6)%Z with 64%Z in *.
  repeat constructor; rewrite Z.shiftl_mul_pow2 by lia;
    (change (2 ^ 3)%Z with 8%Z || change (2 ^ 2)%Z with 4%Z); lia.
Qed.

Lemma expand565_endpoint (c : Z) : expand565 c = endpoint565 c.
Proof.
  pose proof (endpoint565_range c) as Hr. unfold endpoint565 in *.
  inversion Hr as [|? ? H1 Hr1]; subst. inversion Hr1 as [|? ? H2 Hr2]; subst.
  inversion Hr2 as [|? ? H3 _]; subst.
  unfold expand565, to_u8. now rewrite !Z.mod_small by lia.
Qed.

Lemma zip_with_ext_Forall {A} (P : A -> Prop) (f g : A -> A -> A) l1 l2 :
  Forall P l1 -> Forall P l2 ->
  (forall a b, P a -> P b -> f a b = g a b) ->
  zip_with f l1 l2 = zip_with g l1 l2.
Proof.
  intros H1. revert l2. induction H1 as [|a l1 Ha H1 IH]; intros l2 H2 Hfg; [reflexivity|].
  destruct H2 as [|b l2 Hb H2]; [reflexivity|]. cbn. f_equal; auto.
Qed.

Lemma color_table_bc3 (c0 c1 : Z) :
  color_table true c0 c1
  = [ endpoint565 c0; endpoint565 c1;
      zip_with (fun a b => (2 * a + b + 1) / 3)%Z (endpoint565 c0) (endpoint565 c1);
      zip_with (fun a b => (a + 2 * b + 1) / 3)%Z (endpoint565 c0) (endpoint565 c1) ].
Proof.
  unfold color_table. rewrite orb_true_r, !expand565_endpoint.
  do 2 f_equal. f_equal; [|f_equal].
  - apply (zip_with_ext_Forall (fun v => 0 <= v <= 252)%Z);
      auto using endpoint565_range.
    intros a b Ha Hb. unfold to_u8. apply Z.mod_small.
    split; [apply Z.div_pos; lia|apply Z.div_lt_upper_bound; lia].
  - apply (zip_with_ext_Forall (fun v => 0 <= v <= 252)%Z);
      auto using endpoint565_range.
    intros a b Ha Hb. unfold to_u8. apply Z.mod_small.
    split; [apply Z.div_pos; lia|apply Z.div_lt_upper_bound; lia].
Qed.

(** C6.  Colour sub-block decoder in BC3 mode.  Whatever the order of the
    endpoints, the colour table is the two endpoints widened by shifts
    ([<< 3] for the 5-bit fields, [<< 2] for the 6-bit field) followed by
    [(2 * c0 + c1 + 1) / 3] and [(c0 + 2 * c1 + 1) / 3] per channel; each of
    the 16 pixels receives the table row of its 2-bit index in its three
    colour bytes; when every index is 0 every pixel shows the widened [c0]. *)
Theorem C6_color_block_decoder (mem src : list Z) (dest yOff soff : nat) :
  15 <= yOff ->
  dest + 3 * yOff + 15 <= length mem ->
  let c0 := load_u16 src soff in
  let c1 := load_u16 src (soff + 2) in
  let e0 := [ Z.shiftl (Z.land (Z.shiftr c0 11) 31) 3;
              Z.shiftl (Z.land (Z.shiftr c0 5) 63) 2;
              Z.shiftl (Z.land c0 31) 3 ] in
  let e1 := [ Z.shiftl (Z.land (Z.shiftr c1 11) 31) 3;
              Z.shiftl (Z.land (Z.shiftr c1 5) 63) 2;
              Z.shiftl (Z.land c1 31) 3 ] in
  let c2 := zip_with (fun a b => (2 * a + b + 1) / 3)%Z e0 e1 in
  let c3 := zip_with (fun a b => (a + 2 * b + 1) / 3)%Z e0 e1 in
  let index x y := Z.land (Z.shiftr (byte_at src (soff + 4 + y)) (2 * Z.of_nat x)) 3 in
  let out := DecodeBCColorBlock true mem dest 4 4 4 yOff src soff in
  color_table true c0 c1 = [e0; e1; c2; c3]
  /\ (forall x y ch, x < 4 -> y < 4 -> ch < 3 ->
      out !! (dest + yOff * y + 4 * x + ch)
      = Some (nth ch (nth (Z.to_nat (index x y)) [e0; e1; c2; c3] []) 0%Z))
  /\ ((forall x y, x < 4 -> y < 4 -> index x y = 0%Z) ->
      forall x y ch, x < 4 -> y < 4 -> ch < 3 ->
      out !! (dest + yOff * y + 4 * x + ch) = Some (nth ch e0 0%Z)).
Proof.
  intros HyOff Hlen c0 c1 e0 e1 c2 c3 index out.
  assert (Htab : color_table true c0 c1 = [e0; e1; c2; c3]) by apply color_table_bc3.
  assert (Hhit : forall x y ch, x < 4 -> y < 4 -> ch < 3 ->
            out !! (dest + yOff * y + 4 * x + ch)
            = Some (nth ch (nth (Z.to_nat (index x y)) [e0; e1; c2; c3] []) 0%Z)).
  { intros x y ch Hx Hy Hch. subst out.
    rewrite DecodeBCColorBlock_rows. fold c0 c1. rewrite Htab.
    replace (4 * x) with (x * 4) by lia.
    assert (yOff * y <= yOff * 3) by nia.
    rewrite color_rows_hit by lia. reflexivity. }
  split; [exact Htab|]. split; [exact Hhit|].
  intros Hzero x y ch Hx Hy Hch. rewrite Hhit by assumption.
  now rewrite Hzero.
Qed.

(** The statement above on one block in a 64-byte buffer. *)
Lemma C6_color_block_decoder_witness :
  let src := [0xFF; 0xFF; 0x1F; 0x00; 0x1B; 0x00; 0x00; 0x00]%Z in
  let mem := replicate 64 7%Z in
  let c0 := load_u16 src 0 in
  let c1 := load_u16 src (0 + 2) in
  let e0 := [ Z.shiftl (Z.land (Z.shiftr c0 11) 31) 3;
              Z.shiftl (Z.land (Z.shiftr c0 5) 63) 2;
              Z.shiftl (Z.land c0 31) 3 ] in
  let e1 := [ Z.shiftl (Z.land (Z.shiftr c1 11) 31) 3;
              Z.shiftl (Z.land (Z.shiftr c1 5) 63) 2;
              Z.shiftl (Z.land c1 31) 3 ] in
  let c2 := zip_with (fun a b => (2 * a + b + 1) / 3)%Z e0 e1 in
  let c3 := zip_with (fun a b => (a + 2 * b + 1) / 3)%Z e0 e1 in
  let index x y := Z.land (Z.shiftr (byte_at src (0 + 4 + y)) (2 * Z.of_nat x)) 3 in
  let out := DecodeBCColorBlock true mem 0 4 4 4 16 src 0 in
  color_table true c0 c1 = [e0; e1; c2; c3]
  /\ (forall x y ch, x < 4 -> y < 4 -> ch < 3 ->
      out !! (0 + 16 * y + 4 * x + ch)
      = Some (nth ch (nth (Z.to_nat (index x y)) [e0; e1; c2; c3] []) 0%Z))
  /\ ((forall x y, x < 4 -> y < 4 -> index x y = 0%Z) ->
      forall x y ch, x < 4 -> y < 4 -> ch < 3 ->
      out !! (0 + 16 * y + 4 * x + ch) = Some (nth ch e0 0%Z)).
Proof.
  intros src mem.
  apply (C6_color_block_decoder mem src 0 16 0); [lia|vm_compute; lia].
Defined.

(** A block decoded by hand: endpoints [0xFFFF] and [0x001F], first row of
    indices [3, 2, 1, 0]. *)
Example color_block_by_hand :
  let src := [0xFF; 0xFF; 0x1F; 0x00; 0x1B; 0x00; 0x00; 0x00]%Z in
  color_table true (load_u16 src 0) (load_u16 src 2)
  = [ [248; 252; 248]; [0; 0; 248]; [165; 168; 248]; [83; 84; 248] ]%Z
  /\ take 16 (DecodeBCColorBlock true (replicate 64 7%Z) 0 4 4 4 16 src 0)
     = [83; 84; 248; 7; 165; 168; 248; 7; 0; 0; 248; 7; 248; 252; 248; 7]%Z.
Proof. split; vm_compute; reflexivity. Qed.

Lemma alpha_value_cases (a0 a1 k : Z) :
  (0 <= a0 <= 255)%Z -> (0 <= a1 <= 255)%Z -> (0 <= k <= 7)%Z ->
  (k = 0 -> alpha_value a0 a1 k = a0)%Z
  /\ (k = 1 -> alpha_value a0 a1 k = a1)%Z
  /\ (a0 > a1 -> 2 <= k <= 7 ->
      alpha_value a0 a1 k = ((8 - k) * a0 + (k - 1) * a1) / 7)%Z
  /\ (a0 <= a1 -> 2 <= k <= 5 ->
      alpha_value a0 a1 k = ((6 - k) * a0 + (k - 1) * a1) / 5)%Z
  /\ (a0 <= a1 -> k = 6 -> alpha_value a0 a1 k = 0)%Z
  /\ (a0 <= a1 -> k = 7 -> alpha_value a0 a1 k = 255)%Z.
Proof.
  intros H0 H1 Hk. unfold alpha_value, to_u8.
  repeat split.
  - intros ->. reflexivity.
  - intros ->. reflexivity.
  - intros Hgt Hk2.
    destruct (Z.eqb_spec k 0); [lia|]. destruct (Z.eqb_spec k 1); [lia|].
    destruct (Z.ltb_spec a1 a0); [|lia].
    apply Z.mod_small. split; [apply Z.div_pos; nia|apply Z.div_lt_upper_bound; nia].
  - intros Hle Hk2.
    destruct (Z.eqb_spec k 0); [lia|]. destruct (Z.eqb_spec k 1); [lia|].
    destruct (Z.ltb_spec a1 a0); [lia|]. destruct (Z.leb_spec 6 k); [lia|].
    apply Z.mod_small. split; [apply Z.div_pos; nia|apply Z.div_lt_upper_bound; nia].
  - intros Hle ->. destruct (Z.ltb_spec a1 a0); [lia|]. reflexivity.
  - intros Hle ->. destruct (Z.ltb_spec a1 a0); [lia|]. reflexivity.
Qed.

Lemma land_7_range (v : Z) : (0 <= Z.land v 7 <= 7)%Z.
Proof.
  pose proof (land_mask_range v 3 ltac:(lia)) as Hr.
  change (Z.ones 3) with 7%Z in Hr. change (2 ^ 3)%Z with 8%Z in Hr. lia.
Qed.

(** The 48 index bits are bytes 2..7 of the sub-block, low byte first. *)
Lemma alpha_stream_bytes (src : list Z) (soff : nat) :
  (0 <= byte_at src soff <= 255)%Z -> (0 <= byte_at src (soff + 1) <= 255)%Z ->
  Z.shiftr (load_u64 src soff) 16
  = (byte_at src (soff + 2) + 256 * (byte_at src (soff + 3)
     + 256 * (byte_at src (soff + 4) + 256 * (byte_at src (soff + 5)
     + 256 * (byte_at src (soff + 6) + 256 * (byte_at src (soff + 7) + 256 * 0))))))%Z.
Proof.
  intros H0 H1. unfold load_u64. cbn [seq fold_right].
  rewrite Nat.add_0_r. rewrite Z.shiftr_div_pow2 by lia.
  change (2 ^ 16)%Z with 65536%Z.
  set (rest := (byte_at src (soff + 2) + _)%Z).
  symmetry. apply (Z.div_unique _ _ rest (byte_at src soff + 256 * byte_at src (soff + 1))); lia.
Qed.

(** C7.  Alpha sub-block decoder.  With endpoints [a0], [a1] and the 48
    index bits read low end first, pixel [(x, y)] takes index
    [k = (stream >> 3 * (4 * y + x)) & 7]; [k = 0] decodes to [a0], [k = 1]
    to [a1]; for [a0 > a1] and [k] in 2..7 to
    [((8 - k) * a0 + (k - 1) * a1) / 7]; otherwise for [k] in 2..5 to
    [((6 - k) * a0 + (k - 1) * a1) / 5], [k = 6] to 0 and [k = 7] to 255. *)
Theorem C7_alpha_block_decoder (mem src : list Z) (dest yOff soff : nat) :
  13 <= yOff ->
  dest + 3 * yOff + 13 <= length mem ->
  let a0 := byte_at src soff in
  let a1 := byte_at src (soff + 1) in
  (0 <= a0 <= 255)%Z -> (0 <= a1 <= 255)%Z ->
  let stream :=
    (byte_at src (soff + 2) + 256 * (byte_at src (soff + 3)
     + 256 * (byte_at src (soff + 4) + 256 * (byte_at src (soff + 5)
     + 256 * (byte_at src (soff + 6) + 256 * (byte_at src (soff + 7) + 256 * 0))))))%Z in
  let out := DecodeBC3AlphaBlock mem dest 4 4 4 yOff src soff in
  forall x y, x < 4 -> y < 4 ->
    let k := Z.land (Z.shiftr stream (3 * Z.of_nat (4 * y + x))) 7 in
    exists v,
      out !! (dest + yOff * y + 4 * x) = Some v
      /\ (0 <= k <= 7)%Z
      /\ (k = 0 -> v = a0)%Z
      /\ (k = 1 -> v = a1)%Z
      /\ (a0 > a1 -> 2 <= k <= 7 -> v = ((8 - k) * a0 + (k - 1) * a1) / 7)%Z
      /\ (a0 <= a1 -> 2 <= k <= 5 -> v = ((6 - k) * a0 + (k - 1) * a1) / 5)%Z
      /\ (a0 <= a1 -> k = 6 -> v = 0)%Z
      /\ (a0 <= a1 -> k = 7 -> v = 255)%Z.
Proof.
  intros HyOff Hlen a0 a1 H0 H1 stream out x y Hx Hy k.
  exists (alpha_value a0 a1 k). split.
  - subst out. rewrite DecodeBC3AlphaBlock_rows.
    rewrite (alpha_stream_bytes src soff H0 H1). fold stream a0 a1.
    replace (4 * x) with (x * 4) by lia.
    assert (yOff * y <= yOff * 3) by nia.
    rewrite alpha_rows_hit by lia.
    subst k. repeat f_equal. lia.
  - split; [apply land_7_range|].
    apply alpha_value_cases; [assumption|assumption|apply land_7_range].
Qed.

(** The statement above on pixel (2, 1) of one block in a 64-byte buffer. *)
Lemma C7_alpha_block_decoder_witness :
  let src := [200; 100; 0x88; 0xC6; 0xFA; 0; 0; 0]%Z in
  let mem := replicate 64 7%Z in
  let a0 := byte_at src 0 in
  let a1 := byte_at src (0 + 1) in
  let stream :=
    (byte_at src (0 + 2) + 256 * (byte_at src (0 + 3)
     + 256 * (byte_at src (0 + 4) + 256 * (byte_at src (0 + 5)
     + 256 * (byte_at src (0 + 6) + 256 * (byte_at src (0 + 7) + 256 * 0))))))%Z in
  let out := DecodeBC3AlphaBlock mem 0 4 4 4 16 src 0 in
  let k := Z.land (Z.shiftr stream (3 * Z.of_nat (4 * 1 + 2))) 7 in
  exists v,
    out !! (0 + 16 * 1 + 4 * 2) = Some v
    /\ (0 <= k <= 7)%Z
    /\ (k = 0 -> v = a0)%Z
    /\ (k = 1 -> v = a1)%Z
    /\ (a0 > a1 -> 2 <= k <= 7 -> v = ((8 - k) * a0 + (k - 1) * a1) / 7)%Z
    /\ (a0 <= a1 -> 2 <= k <= 5 -> v = ((6 - k) * a0 + (k - 1) * a1) / 5)%Z
    /\ (a0 <= a1 -> k = 6 -> v = 0)%Z
    /\ (a0 <= a1 -> k = 7 -> v = 255)%Z.
Proof.
  intros src mem.
  apply (C7_alpha_block_decoder mem src 0 16 0);
    [lia|vm_compute; lia|vm_compute; split; discriminate
    |vm_compute; split; discriminate|lia|lia].
Defined.

(** Two blocks decoded by hand; the indices of the first eight pixels are
    [0, 1, 2, ..., 7]. *)
Example alpha_block_by_hand :
  take 32 (DecodeBC3AlphaBlock (replicate 64 7%Z) 0 4 4 4 16
             [200; 100; 0x88; 0xC6; 0xFA; 0; 0; 0]%Z 0)
  = [200; 7; 7; 7; 100; 7; 7; 7; 185; 7; 7; 7; 171; 7; 7; 7;
     157; 7; 7; 7; 142; 7; 7; 7; 128; 7; 7; 7; 114; 7; 7; 7]%Z
  /\ take 32 (DecodeBC3AlphaBlock (replicate 64 7%Z) 0 4 4 4 16
                [100; 200; 0x88; 0xC6; 0xFA; 0; 0; 0]%Z 0)
     = [100; 7; 7; 7; 200; 7; 7; 7; 120; 7; 7; 7; 140; 7; 7; 7;
        160; 7; 7; 7; 180; 7; 7; 7; 0; 7; 7; 7; 255; 7; 7; 7]%Z.
Proof. split; vm_compute; reflexivity. Qed.

(** *** Whole-image decompression *)

Lemma pos_inj W row col ch row' col' ch' :
  col < W -> col' < W -> ch < 4 -> ch' < 4 ->
  pos W row col ch = pos W row' col' ch' ->
  row = row' /\ col = col' /\ ch = ch'.
Proof.
  unfold pos. intros Hc Hc' Hch Hch' Heq.
  assert (Hrc : row * W + col = row' * W + col') by lia.
  assert (Hr : row = row').
  { destruct (Nat.lt_trichotomy row row') as [Hlt|[->|Hlt]]; [|reflexivity|]; exfalso; nia. }
  subst row'. lia.
Qed.

Lemma pos_in_range W H0 row col ch :
  row < H0 -> col < W -> ch < 4 -> pos W row col ch < 4 * (W * H0).
Proof. unfold pos. intros Hr Hc Hch. nia. Qed.

Lemma decompress_block_effect blocks W H0 bx by_ mem s :
  length mem = 4 * (W * H0) ->
  4 * bx + 4 <= W -> 4 * by_ + 4 <= H0 ->
  let st := decompress_block blocks W (4 * bx) (4 * by_) (mem, s) in
  snd st = s + 16
  /\ length (fst st) = length mem
  /\ (forall y x ch, y < 4 -> x < 4 -> ch < 4 ->
      fst st !! pos W (4 * by_ + y) (4 * bx + x) ch = Some (block_byte blocks s x y ch))
  /\ (forall p,
      (forall y x ch, y < 4 -> x < 4 -> ch < 4 -> p <> pos W (4 * by_ + y) (4 * bx + x) ch) ->
      fst st !! p = mem !! p).
Proof.
  intros Hlen Hbx Hby. unfold decompress_block. cbv zeta. cbn [fst snd].
  rewrite DecodeBCColorBlock_rows, DecodeBC3AlphaBlock_rows.
  set (base := (4 * by_ * W + 4 * bx) * 4).
  assert (Hpos : forall y x ch, pos W (4 * by_ + y) (4 * bx + x) ch
                                = base + W * 4 * y + x * 4 + ch).
  { intros y x ch. unfold pos, base. lia. }
  split; [lia|]. split; [now rewrite color_rows_length, alpha_rows_length|].
  split.
  - intros y x ch Hy Hx Hch.
    pose proof (pos_in_range W H0 (4 * by_ + y) (4 * bx + x) ch
                  ltac:(lia) ltac:(lia) Hch) as Hin.
    rewrite Hpos in *. unfold block_byte.
    destruct (Nat.ltb_spec ch 3) as [Hc3|Hc3].
    + rewrite color_rows_hit;
        [reflexivity|lia|lia|lia|lia|lia|rewrite alpha_rows_length; cbn [fst]; lia].
    + assert (ch = 3) by lia. subst ch.
      rewrite color_rows_miss by (intros y' x' c' _ _ Hc'; lia).
      replace (base + W * 4 * y + x * 4 + 3) with (base + 3 + W * 4 * y + x * 4) in * by lia.
      rewrite alpha_rows_hit; [reflexivity|lia|lia|lia|lia|lia|cbn [fst]; lia].
  - intros p Hp.
    rewrite color_rows_miss.
    + rewrite alpha_rows_miss; [reflexivity|].
      intros y x Hy Hx. specialize (Hp y x 3 Hy Hx ltac:(lia)). rewrite Hpos in Hp. lia.
    + intros y x ch Hy Hx Hch. specialize (Hp y x ch Hy Hx ltac:(lia)).
      rewrite Hpos in Hp. lia.
Qed.

Lemma steps4_multiple n : steps4 (4 * n) = map (fun j => 4 * j) (seq 0 n).
Proof.
  unfold steps4. do 2 f_equal.
  symmetry. apply (Nat.div_unique _ _ _ 3); lia.
Qed.

Lemma fold_left_map {A B C} (f : A -> B -> A) (g : C -> B) l a :
  fold_left f (map g l) a = fold_left (fun a c => f a (g c)) l a.
Proof. revert a. induction l as [|c l IH]; intros a; cbn; [reflexivity|apply IH]. Qed.

Lemma block_index_inj Wb r c bx by_ :
  c < Wb -> bx < Wb -> r * Wb + c = by_ * Wb + bx -> r = by_ /\ c = bx.
Proof.
  intros Hc Hbx Heq.
  assert (r = by_).
  { destruct (Nat.lt_trichotomy r by_) as [Hlt|[->|Hlt]]; [|reflexivity|]; exfalso; nia. }
  subst r. lia.
Qed.

Section Decompress.
Variable blocks : list Z.
Variables W H0 Wb Hb : nat.
Variable mem0 : list Z.
Hypothesis W_blocks : W = 4 * Wb.
Hypothesis H_blocks : H0 = 4 * Hb.
Hypothesis mem0_length : length mem0 = 4 * (W * H0).

Lemma decoded_upto_0 : decoded_upto blocks W H0 Wb mem0 0 (mem0, 0).
Proof. repeat split. Qed.

Lemma decoded_upto_step bx by_ st :
  bx < Wb -> by_ < Hb ->
  decoded_upto blocks W H0 Wb mem0 (by_ * Wb + bx) st ->
  decoded_upto blocks W H0 Wb mem0 (by_ * Wb + bx + 1)
    (decompress_block blocks W (4 * bx) (4 * by_) st).
Proof.
  intros Hbx Hby (Hsrc & Hlen & Hpix). destruct st as [mem s]. cbn [fst snd] in *.
  subst s.
  destruct (decompress_block_effect blocks W H0 bx by_ mem (16 * (by_ * Wb + bx)))
    as (Hs & Hl & Hhit & Hmiss); [lia|lia|lia|].
  split; [rewrite Hs; lia|]. split; [congruence|].
  intros row col ch Hrow Hcol Hch.
  assert (Hrd : row = 4 * (row / 4) + row mod 4) by apply Nat.div_mod_eq.
  assert (Hcd : col = 4 * (col / 4) + col mod 4) by apply Nat.div_mod_eq.
  assert (Hrm : row mod 4 < 4) by (apply Nat.mod_upper_bound; lia).
  assert (Hcm : col mod 4 < 4) by (apply Nat.mod_upper_bound; lia).
  assert (Hcb : col / 4 < Wb) by (apply Nat.Div0.div_lt_upper_bound; lia).
  destruct (Nat.eq_dec ((row / 4) * Wb + col / 4) (by_ * Wb + bx)) as [Heq|Hne].
  - destruct (block_index_inj _ _ _ _ _ Hcb Hbx Heq) as [Hr Hc].
    rewrite Heq. destruct (Nat.ltb_spec (by_ * Wb + bx) (by_ * Wb + bx + 1)); [|lia].
    replace (pos W row col ch)
      with (pos W (4 * by_ + row mod 4) (4 * bx + col mod 4) ch)
      by (f_equal; lia).
    now apply Hhit.
  - rewrite Hmiss.
    + rewrite Hpix by assumption.
      destruct (Nat.ltb_spec ((row / 4) * Wb + col / 4) (by_ * Wb + bx)),
               (Nat.ltb_spec ((row / 4) * Wb + col / 4) (by_ * Wb + bx + 1));
        try lia; reflexivity.
    + intros y x ch' Hy Hx Hch' Hp.
      apply pos_inj in Hp; [|assumption|lia|assumption|assumption].
      destruct Hp as (Hr & Hc & _). apply Hne.
      assert (Hrb : row / 4 = by_) by lia.
      assert (Hcx : col / 4 = bx) by lia.
      now rewrite Hrb, Hcx.
Qed.

Lemma decoded_row by_ st :
  by_ < Hb ->
  decoded_upto blocks W H0 Wb mem0 (by_ * Wb) st ->
  decoded_upto blocks W H0 Wb mem0 ((by_ + 1) * Wb)
    (fold_left (fun st x => decompress_block blocks W x (4 * by_) st) (steps4 W) st).
Proof.
  intros Hby Hst. rewrite W_blocks at 2. rewrite steps4_multiple, fold_left_map.
  assert (Hm : forall m, m <= Wb ->
            decoded_upto blocks W H0 Wb mem0 (by_ * Wb + m)
              (fold_left (fun st j => decompress_block blocks W (4 * j) (4 * by_) st)
                         (seq 0 m) st)).
  { induction m as [|m IH]; intros Hle.
    - now rewrite Nat.add_0_r.
    - rewrite fold_left_seq_S. cbn [Nat.add].
      replace (by_ * Wb + S m) with (by_ * Wb + m + 1) by lia.
      apply decoded_upto_step; [lia|assumption|apply IH; lia]. }
  replace ((by_ + 1) * Wb) with (by_ * Wb + Wb) by lia. now apply Hm.
Qed.

Lemma decoded_all :
  decoded_upto blocks W H0 Wb mem0 (Hb * Wb)
    (fold_left
       (fun st y => fold_left (fun st x => decompress_block blocks W x y st) (steps4 W) st)
       (steps4 H0) (mem0, 0)).
Proof.
  rewrite H_blocks at 2. rewrite steps4_multiple, fold_left_map.
  assert (Hm : forall m, m <= Hb ->
            decoded_upto blocks W H0 Wb mem0 (m * Wb)
              (fold_left
                 (fun st j =>
                    fold_left (fun st x => decompress_block blocks W x (4 * j) st)
                              (steps4 W) st)
                 (seq 0 m) (mem0, 0))).
  { induction m as [|m IH]; intros Hle.
    - apply decoded_upto_0.
    - rewrite fold_left_seq_S. cbn [Nat.add].
      replace (S m) with (m + 1) by lia.
      apply decoded_row; [lia|apply IH; lia]. }
  now apply Hm.
Qed.

Lemma DecompressBC3_bytes_lookup row col ch :
  row < H0 -> col < W -> ch < 4 ->
  DecompressBC3_bytes blocks W H0 mem0 !! pos W row col ch
  = Some (block_byte blocks (16 * ((row / 4) * Wb + col / 4))
                     (col mod 4) (row mod 4) ch).
Proof.
  intros Hrow Hcol Hch. unfold DecompressBC3_bytes.
  destruct decoded_all as (_ & _ & Hpix).
  rewrite Hpix by assumption.
  assert (row / 4 < Hb) by (apply Nat.Div0.div_lt_upper_bound; lia).
  assert (col / 4 < Wb) by (apply Nat.Div0.div_lt_upper_bound; lia).
  destruct (Nat.ltb_spec ((row / 4) * Wb + col / 4) (Hb * Wb)); [reflexivity|nia].
Qed.
End Decompress.

Lemma bytes_of_rgba_length (ps : list PixelRgba.t) :
  length (bytes_of_pixels ps) = 4 * length ps.
Proof.
  unfold bytes_of_pixels. induction ps as [|p ps IH]; [reflexivity|].
  cbn [map concat]. rewrite length_app, IH. cbn. lia.
Qed.

Lemma byte_at_window (bs : list Z) (off n ch : nat) :
  ch < n -> byte_at (take n (drop off bs)) ch = byte_at bs (off + ch).
Proof.
  intros Hch. unfold byte_at. rewrite !nth_lookup.
  now rewrite lookup_take_lt, lookup_drop by exact Hch.
Qed.

Lemma pixels_of_bytes_rgba (n : nat) (bs : list Z) (k : nat) :
  k < n ->
  pixels_of_bytes (T:=PixelRgba.t) n bs !! k
  = Some (PixelRgba.mk (byte_at bs (k * 4 + 0)) (byte_at bs (k * 4 + 1))
                       (byte_at bs (k * 4 + 2)) (byte_at bs (k * 4 + 3))).
Proof.
  intros Hk. unfold pixels_of_bytes.
  rewrite map_fmap, list_lookup_fmap, lookup_seq_lt by exact Hk.
  cbn [fmap option_fmap option_map Nat.add BytesPerPixel pixel_of_bytes Pixel_Rgba].
  now rewrite !byte_at_window by lia.
Qed.

Lemma alpha_pixel_local blocks blocks' s x y :
  (forall i, i < 8 -> byte_at blocks (s + i) = byte_at blocks' (s + i)) ->
  alpha_pixel blocks s x y = alpha_pixel blocks' s x y.
Proof.
  intros Hb. unfold alpha_pixel, load_u64. cbn [seq fold_right].
  pose proof (Hb 0 ltac:(lia)) as H0. rewrite Nat.add_0_r in H0.
  now rewrite H0, !Hb by lia.
Qed.

Lemma color_pixel_local blocks blocks' s x y ch :
  y < 4 ->
  (forall i, 8 <= i < 16 -> byte_at blocks (s + i) = byte_at blocks' (s + i)) ->
  color_pixel blocks s x y ch = color_pixel blocks' s x y ch.
Proof.
  intros Hy Hb. unfold color_pixel, load_u16.
  replace (s + 8 + 2) with (s + 10) by lia.
  replace (s + 10 + 1) with (s + 11) by lia.
  replace (s + 8 + 1) with (s + 9) by lia.
  replace (s + 8 + 4 + y) with (s + (12 + y)) by lia.
  now rewrite !Hb by lia.
Qed.

(** C10.  The colour sub-block decoder changes no byte outside the three
    colour bytes of its 16 pixels, in particular no alpha byte; and in
    [DecompressBC3_MY] on an image of whole blocks every pixel's alpha is
    what the alpha sub-block of its block decodes to and its RGB what the
    colour sub-block decodes to, each depending on the bytes of that
    sub-block only. *)
Theorem C10_alpha_survives_color_decode (blocks : list Z)
    (output : Bitmap PixelRgba.t) (Wb Hb : nat) :
  width output = 4 * Wb -> height output = 4 * Hb -> Bitmap_wf output ->
  (forall mem dest yOff soff p,
     (forall y x ch, y < 4 -> x < 4 -> ch < 3 -> p <> dest + yOff * y + 4 * x + ch) ->
     DecodeBCColorBlock true mem dest 4 4 4 yOff blocks soff !! p = mem !! p)
  /\ (forall mem dest stride soff y x,
        DecodeBCColorBlock true mem dest 4 4 4 (stride * 4) blocks soff
          !! (dest + 3 + stride * 4 * y + 4 * x)
        = mem !! (dest + 3 + stride * 4 * y + 4 * x))
  /\ (forall row col, row < height output -> col < width output ->
        let s := 16 * ((row / 4) * Wb + col / 4) in
        let x := col mod 4 in
        let y := row mod 4 in
        pixels (DecompressBC3_MY blocks output) !! (row * width output + col)
        = Some (PixelRgba.mk (color_pixel blocks s x y 0) (color_pixel blocks s x y 1)
                             (color_pixel blocks s x y 2) (alpha_pixel blocks s x y))
        /\ (forall blocks',
              (forall i, i < 8 -> byte_at blocks (s + i) = byte_at blocks' (s + i)) ->
              alpha_pixel blocks s x y = alpha_pixel blocks' s x y)
        /\ (forall blocks' ch,
              (forall i, 8 <= i < 16 -> byte_at blocks (s + i) = byte_at blocks' (s + i)) ->
              color_pixel blocks s x y ch = color_pixel blocks' s x y ch)).
Proof.
  intros HW HH Hwf.
  assert (Hframe : forall mem dest yOff soff p,
     (forall y x ch, y < 4 -> x < 4 -> ch < 3 -> p <> dest + yOff * y + 4 * x + ch) ->
     DecodeBCColorBlock true mem dest 4 4 4 yOff blocks soff !! p = mem !! p).
  { intros mem dest yOff soff p Hp. rewrite DecodeBCColorBlock_rows.
    apply color_rows_miss. intros y x ch Hy Hx Hch.
    specialize (Hp y x ch Hy Hx Hch). lia. }
  split; [exact Hframe|]. split.
  { intros mem dest stride soff y x. apply Hframe. intros y' x' ch _ _ Hch. lia. }
  intros row col Hrow Hcol s x y.
  split; [|split].
  - unfold DecompressBC3_MY. cbn [pixels width height]. rewrite HW, HH in *.
    unfold Bitmap_wf in Hwf. rewrite HW, HH in Hwf.
    rewrite pixels_of_bytes_rgba by (rewrite Hwf; nia).
    assert (Hmem : length (bytes_of_pixels (pixels output)) = 4 * (4 * Wb * (4 * Hb)))
      by (rewrite bytes_of_rgba_length, Hwf; lia).
    pose proof (DecompressBC3_bytes_lookup blocks (4 * Wb) (4 * Hb) Wb Hb _
                  eq_refl eq_refl Hmem row col) as Hpix.
    unfold pos in Hpix.
    rewrite (byte_at_lookup _ _ _ (Hpix 0 Hrow Hcol ltac:(lia))).
    rewrite (byte_at_lookup _ _ _ (Hpix 1 Hrow Hcol ltac:(lia))).
    rewrite (byte_at_lookup _ _ _ (Hpix 2 Hrow Hcol ltac:(lia))).
    rewrite (byte_at_lookup _ _ _ (Hpix 3 Hrow Hcol ltac:(lia))).
    reflexivity.
  - intros blocks'. apply alpha_pixel_local.
  - intros blocks' ch. apply color_pixel_local.
    subst y. apply Nat.mod_upper_bound. lia.
Qed.

(** The statement above on a 4x4 image of one block. *)
Lemma C10_alpha_survives_color_decode_witness :
  let blocks := [200; 100; 0x88; 0xC6; 0xFA; 0; 0; 0;
                 0xFF; 0xFF; 0x1F; 0x00; 0x1B; 0x00; 0x00; 0x00]%Z in
  let output := Bitmap_new 4 4 (PixelRgba.mk 0 0 0 0) in
  (forall mem dest yOff soff p,
     (forall y x ch, y < 4 -> x < 4 -> ch < 3 -> p <> dest + yOff * y + 4 * x + ch) ->
     DecodeBCColorBlock true mem dest 4 4 4 yOff blocks soff !! p = mem !! p)
  /\ (forall mem dest stride soff y x,
        DecodeBCColorBlock true mem dest 4 4 4 (stride * 4) blocks soff
          !! (dest + 3 + stride * 4 * y + 4 * x)
        = mem !! (dest + 3 + stride * 4 * y + 4 * x))
  /\ (forall row col, row < height output -> col < width output ->
        let s := 16 * ((row / 4) * 1 + col / 4) in
        let x := col mod 4 in
        let y := row mod 4 in
        pixels (DecompressBC3_MY blocks output) !! (row * width output + col)
        = Some (PixelRgba.mk (color_pixel blocks s x y 0) (color_pixel blocks s x y 1)
                             (color_pixel blocks s x y 2) (alpha_pixel blocks s x y))
        /\ (forall blocks',
              (forall i, i < 8 -> byte_at blocks (s + i) = byte_at blocks' (s + i)) ->
              alpha_pixel blocks s x y = alpha_pixel blocks' s x y)
        /\ (forall blocks' ch,
              (forall i, 8 <= i < 16 -> byte_at blocks (s + i) = byte_at blocks' (s + i)) ->
              color_pixel blocks s x y ch = color_pixel blocks' s x y ch)).
Proof.
  intros blocks output.
  apply (C10_alpha_survives_color_decode blocks output 1 1); reflexivity.
Defined.

(** The block of the two hand-decoded examples, decompressed as a 4x4
    image: first row. *)
Example decompress_by_hand :
  take 4 (pixels (DecompressBC3_MY
                    [200; 100; 0x88; 0xC6; 0xFA; 0; 0; 0;
                     0xFF; 0xFF; 0x1F; 0x00; 0x1B; 0x00; 0x00; 0x00]%Z
                    (Bitmap_new 4 4 (PixelRgba.mk 0 0 0 0))))
  = [ PixelRgba.mk 83 84 248 200; PixelRgba.mk 165 168 248 100;
      PixelRgba.mk 0 0 248 185; PixelRgba.mk 248 252 248 171 ].
Proof. vm_compute. reflexivity. Qed.

(** * Further properties of the code *)

(** X1.  [Log2I] is the floor of the binary logarithm: for a non-zero [v]
    in the range of [size_t], [2 ^ Log2I v <= v < 2 ^ (Log2I v + 1)]. *)
Theorem X1_Log2I_floor_log2 (v : nat) :
  1 <= v -> (Z.of_nat v < 2 ^ 64)%Z ->
  2 ^ Log2I v <= v < 2 ^ (Log2I v + 1).
Proof.
  intros Hpos Hv. rewrite (Log2I_log2 v Hv), Nat.add_1_r.
  apply Nat.log2_spec. lia.
Qed.

(** The statement above at [v = 255], whose logarithm is 7. *)
Lemma X1_Log2I_floor_log2_witness :
  2 ^ Log2I 255 <= 255 < 2 ^ (Log2I 255 + 1).
Proof. apply (X1_Log2I_floor_log2 255); [lia|reflexivity]. Defined.

(** X2.  [IsPowerOfTwo] accepts exactly the powers of two, and those are
    the values that [Log2I] inverts: [v = 2 ^ Log2I v].  It rejects 0. *)
Theorem X2_IsPowerOfTwo_exact (v : nat) :
  (Z.of_nat v < 2 ^ 64)%Z ->
  (IsPowerOfTwo v = true <-> exists k, v = 2 ^ k)
  /\ (IsPowerOfTwo v = true <-> v = 2 ^ Log2I v)
  /\ IsPowerOfTwo 0 = false.
Proof.
  intros Hv. split; [apply IsPowerOfTwo_spec|]. split; [|reflexivity].
  rewrite IsPowerOfTwo_spec, (Log2I_log2 v Hv). split.
  - intros [k ->]. now rewrite Nat.log2_pow2 by lia.
  - intros Hk. now exists (Nat.log2 v).
Qed.

(** The statement above at [v = 96], which is not a power of two. *)
Lemma X2_IsPowerOfTwo_exact_witness :
  (IsPowerOfTwo 96 = true <-> exists k, 96 = 2 ^ k)
  /\ (IsPowerOfTwo 96 = true <-> 96 = 2 ^ Log2I 96)
  /\ IsPowerOfTwo 0 = false.
Proof. apply (X2_IsPowerOfTwo_exact 96). reflexivity. Defined.

(** *** Pixel conversions *)

Lemma luminance_bytes (r g b : Z) :
  (0 <= r <= 255)%Z -> (0 <= g <= 255)%Z -> (0 <= b <= 255)%Z ->
  luminance r g b = ((2 * r + 5 * g + b) / 8)%Z
  /\ (0 <= luminance r g b <= 255)%Z.
Proof.
  intros Hr Hg Hb. unfold luminance.
  rewrite !Z.shiftl_mul_pow2, Z.shiftr_div_pow2 by lia.
  change (2 ^ 1)%Z with 2%Z. change (2 ^ 2)%Z with 4%Z. change (2 ^ 3)%Z with 8%Z.
  change 255%Z with (Z.ones 8). rewrite Z.land_ones by lia.
  change (2 ^ 8)%Z with 256%Z.
  replace (r * 2 + (g * 4 + g) + b)%Z with (2 * r + 5 * g + b)%Z by lia.
  assert (Hq : (0 <= (2 * r + 5 * g + b) / 8 <= 255)%Z).
  { split; [apply Z.div_pos; lia|].
    apply Z.lt_succ_r. apply Z.div_lt_upper_bound; lia. }
  rewrite Z.mod_small by lia. split; [reflexivity|exact Hq].
Qed.

(** X3.  The luminance of [ConvertPixel] to mono is the integer
    [(2 * r + 5 * g + b) / 8] of its comment; on byte channels it is a byte,
    so the mask [& 0xFF] removes nothing, and alpha plays no part. *)
Theorem X3_luminance_formula (p : PixelRgba.t) :
  (0 <= PixelRgba.r p <= 255)%Z -> (0 <= PixelRgba.g p <= 255)%Z ->
  (0 <= PixelRgba.b p <= 255)%Z ->
  PixelMono.r (ConvertPixel_Rgba_Mono p)
  = ((2 * PixelRgba.r p + 5 * PixelRgba.g p + PixelRgba.b p) / 8)%Z
  /\ (0 <= PixelMono.r (ConvertPixel_Rgba_Mono p) <= 255)%Z
  /\ ConvertPixel_Rgb_Mono (ConvertPixel_Rgba_Rgb p) = ConvertPixel_Rgba_Mono p.
Proof.
  intros Hr Hg Hb. destruct p as [r g b a]. cbn in *.
  destruct (luminance_bytes r g b Hr Hg Hb) as [Hl Hrange].
  split; [exact Hl|]. split; [exact Hrange|reflexivity].
Qed.

(** The statement above at the pixel [(255, 128, 0, 7)]. *)
Lemma X3_luminance_formula_witness :
  PixelMono.r (ConvertPixel_Rgba_Mono (PixelRgba.mk 255 128 0 7))
  = ((2 * 255 + 5 * 128 + 0) / 8)%Z
  /\ (0 <= PixelMono.r (ConvertPixel_Rgba_Mono (PixelRgba.mk 255 128 0 7)) <= 255)%Z
  /\ ConvertPixel_Rgb_Mono (ConvertPixel_Rgba_Rgb (PixelRgba.mk 255 128 0 7))
     = ConvertPixel_Rgba_Mono (PixelRgba.mk 255 128 0 7).
Proof.
  apply (X3_luminance_formula (PixelRgba.mk 255 128 0 7)); cbn; lia.
Defined.

(** X4.  Conversion round trips.  A mono byte survives the way through RGB
    or RGBA and back; RGB survives the way through RGBA and back; RGBA
    through RGB and back keeps the colour and comes back opaque. *)
Theorem X4_conversion_round_trips (m : PixelMono.t) (c : PixelRgb.t) (q : PixelRgba.t) :
  (0 <= PixelMono.r m <= 255)%Z ->
  ConvertPixel_Rgb_Mono (ConvertPixel_Mono_Rgb m) = m
  /\ ConvertPixel_Rgba_Mono (ConvertPixel_Mono_Rgba m) = m
  /\ ConvertPixel_Rgba_Rgb (ConvertPixel_Rgb_Rgba c) = c
  /\ ConvertPixel_Rgb_Rgba (ConvertPixel_Rgba_Rgb q)
     = PixelRgba.mk (PixelRgba.r q) (PixelRgba.g q) (PixelRgba.b q) 255.
Proof.
  intros Hm. destruct m as [v], c as [cr cg cb], q as [qr qg qb qa]. cbn in *.
  destruct (luminance_bytes v v v Hm Hm Hm) as [Hl _].
  assert (Hv : luminance v v v = v).
  { rewrite Hl. replace (2 * v + 5 * v + v)%Z with (v * 8)%Z by lia.
    apply Z.div_mul. lia. }
  unfold ConvertPixel_Rgb_Mono, ConvertPixel_Rgba_Mono. cbn. rewrite Hv.
  repeat split; reflexivity.
Qed.

(** The statement above at mono 200 and two coloured pixels. *)
Lemma X4_conversion_round_trips_witness :
  ConvertPixel_Rgb_Mono (ConvertPixel_Mono_Rgb (PixelMono.mk 200)) = PixelMono.mk 200
  /\ ConvertPixel_Rgba_Mono (ConvertPixel_Mono_Rgba (PixelMono.mk 200)) = PixelMono.mk 200
  /\ ConvertPixel_Rgba_Rgb (ConvertPixel_Rgb_Rgba (PixelRgb.mk 1 2 3)) = PixelRgb.mk 1 2 3
  /\ ConvertPixel_Rgb_Rgba (ConvertPixel_Rgba_Rgb (PixelRgba.mk 1 2 3 4))
     = PixelRgba.mk 1 2 3 255.
Proof.
  apply (X4_conversion_round_trips (PixelMono.mk 200) (PixelRgb.mk 1 2 3)
           (PixelRgba.mk 1 2 3 4)).
  cbn. lia.
Defined.

(** X5.  The gloss curve on bytes: it yields a byte, never darkens
    ([g <= gloss_log g]), is monotone, fixes 0 and 255, and squaring the
    stored value ([s * s / 255], the linearisation the comment leaves to the
    shader) gives back the gloss within two levels. *)
Theorem X5_gloss_curve_on_bytes (g g' : Z) :
  (0 <= g <= g')%Z -> (g' <= 255)%Z ->
  (g <= gloss_log g <= 255)%Z
  /\ (gloss_log g <= gloss_log g')%Z
  /\ gloss_log 0 = 0%Z /\ gloss_log 255 = 255%Z
  /\ (g - 2 <= gloss_log g * gloss_log g / 255 <= g)%Z.
Proof.
  intros Hg Hg'.
  rewrite (gloss_log_floor_sqrt g), (gloss_log_floor_sqrt g') by lia.
  pose proof (Z.sqrt_spec (255 * g) ltac:(lia)) as Hs. cbv zeta in Hs.
  set (s := Z.sqrt (255 * g)) in *.
  assert (Hs0 : (0 <= s)%Z) by apply Z.sqrt_nonneg.
  assert (Hlo : (g <= s)%Z).
  { apply Z.sqrt_le_square; [lia|lia|nia]. }
  assert (Hhi : (s <= 255)%Z).
  { destruct (Z.le_gt_cases s 255) as [H|H]; [exact H|].
    assert (256 * 256 <= s * s)%Z by (apply Z.mul_le_mono_nonneg; lia). lia. }
  split; [lia|]. split; [apply Z.sqrt_le_mono; lia|].
  split; [reflexivity|]. split; [reflexivity|].
  split.
  - apply Z.div_le_lower_bound; [lia|]. nia.
  - apply Z.div_le_upper_bound; [lia|]. nia.
Qed.

(** The statement above at gloss 64 against gloss 200. *)
Lemma X5_gloss_curve_on_bytes_witness :
  (64 <= gloss_log 64 <= 255)%Z
  /\ (gloss_log 64 <= gloss_log 200)%Z
  /\ gloss_log 0 = 0%Z /\ gloss_log 255 = 255%Z
  /\ (64 - 2 <= gloss_log 64 * gloss_log 64 / 255 <= 64)%Z.
Proof. apply (X5_gloss_curve_on_bytes 64 200); lia. Defined.


(** *** Byte images of pixel buffers *)

Lemma bytes_of_mono_length (ps : list PixelMono.t) :
  length (bytes_of_pixels ps) = length ps.
Proof.
  unfold bytes_of_pixels. induction ps as [|p ps IH]; [reflexivity|].
  cbn [map concat]. rewrite length_app, IH. reflexivity.
Qed.

Lemma bytes_of_rgba_byte (ps : list PixelRgba.t) : forall k p ch,
  ps !! k = Some p -> ch < 4 ->
  byte_at (bytes_of_pixels ps) (k * 4 + ch)
  = nth ch [PixelRgba.r p; PixelRgba.g p; PixelRgba.b p; PixelRgba.a p] 0%Z.
Proof.
  induction ps as [|q ps IH]; intros k p ch Hk Hch; [discriminate|].
  destruct k as [|k].
  - injection Hk as ->. destruct ch as [|[|[|[|ch]]]]; [reflexivity..|lia].
  - cbn in Hk. specialize (IH k p ch Hk Hch).
    replace (S k * 4 + ch) with (S (S (S (S (k * 4 + ch))))) by lia. exact IH.
Qed.

Lemma bytes_of_mono_byte (ps : list PixelMono.t) : forall k p,
  ps !! k = Some p -> byte_at (bytes_of_pixels ps) k = PixelMono.r p.
Proof.
  induction ps as [|q ps IH]; intros k p Hk; [discriminate|].
  destruct k as [|k]; [injection Hk as ->; reflexivity|].
  cbn in Hk. exact (IH k p Hk).
Qed.

Lemma pixels_of_bytes_lookup {T} `{Pixel T} (n : nat) (bs : list Z) (k : nat) :
  k < n ->
  pixels_of_bytes (T:=T) n bs !! k
  = Some (pixel_of_bytes (take BytesPerPixel (drop (k * BytesPerPixel) bs))).
Proof.
  intros Hk. unfold pixels_of_bytes.
  now rewrite map_fmap, list_lookup_fmap, lookup_seq_lt by exact Hk.
Qed.

Lemma pixels_of_bytes_mono (n : nat) (bs : list Z) (k : nat) :
  k < n -> pixels_of_bytes (T:=PixelMono.t) n bs !! k = Some (PixelMono.mk (byte_at bs k)).
Proof.
  intros Hk. rewrite pixels_of_bytes_lookup by exact Hk.
  cbn [BytesPerPixel pixel_of_bytes Pixel_Mono].
  rewrite byte_at_window by lia. do 3 f_equal. lia.
Qed.

Lemma pixels_of_bytes_rgb (n : nat) (bs : list Z) (k : nat) :
  k < n ->
  pixels_of_bytes (T:=PixelRgb.t) n bs !! k
  = Some (PixelRgb.mk (byte_at bs (k * 3 + 0)) (byte_at bs (k * 3 + 1))
                      (byte_at bs (k * 3 + 2))).
Proof.
  intros Hk. rewrite pixels_of_bytes_lookup by exact Hk.
  cbn [BytesPerPixel pixel_of_bytes Pixel_Rgb].
  now rewrite !byte_at_window by lia.
Qed.

Lemma pixels_of_bytes_of_rgba (ps : list PixelRgba.t) :
  pixels_of_bytes (length ps) (bytes_of_pixels ps) = ps.
Proof.
  apply list_eq. intros k.
  destruct (ps !! k) as [p|] eqn:Hk.
  - rewrite pixels_of_bytes_rgba by (now apply lookup_lt_Some in Hk).
    rewrite !(bytes_of_rgba_byte ps k p) by (assumption || lia).
    now destruct p.
  - apply lookup_ge_None. rewrite pixels_of_bytes_length. now apply lookup_ge_None.
Qed.

Lemma pixels_of_bytes_of_mono (ps : list PixelMono.t) :
  pixels_of_bytes (length ps) (bytes_of_pixels ps) = ps.
Proof.
  apply list_eq. intros k.
  destruct (ps !! k) as [p|] eqn:Hk.
  - rewrite pixels_of_bytes_mono by (now apply lookup_lt_Some in Hk).
    rewrite (bytes_of_mono_byte ps k p Hk). now destruct p.
  - apply lookup_ge_None. rewrite pixels_of_bytes_length. now apply lookup_ge_None.
Qed.

Lemma overwrite_whole (buf bytes : list Z) :
  length bytes = length buf ->
  list_inserts 0 (take (length buf) bytes) buf = bytes.
Proof.
  intros Hlen. rewrite <- Hlen, firstn_all.
  rewrite <- (app_nil_r bytes) at 1. now apply list_inserts_0_l.
Qed.

(** *** LoadBitmap *)

Lemma LoadBitmap_shape {T} `{Pixel T} (file_good : bool)
    (decoded : option StbImage) :
  let bmp := LoadBitmap (T:=T) file_good decoded in
  Bitmap_wf bmp
  /\ ((exists img, decoded = Some img /\ width bmp = stb_w img /\ height bmp = stb_h img)
      \/ (width bmp = 0 /\ height bmp = 0 /\ pixels bmp = [])).
Proof.
  intros bmp. subst bmp. unfold LoadBitmap.
  assert (Hzero : Bitmap_wf (Bitmap_new 0 0 (pixel_zero (T:=T)))
                  /\ ((exists img, decoded = Some img
                         /\ width (Bitmap_new 0 0 (pixel_zero (T:=T))) = stb_w img
                         /\ height (Bitmap_new 0 0 (pixel_zero (T:=T))) = stb_h img)
                      \/ (width (Bitmap_new 0 0 (pixel_zero (T:=T))) = 0
                          /\ height (Bitmap_new 0 0 (pixel_zero (T:=T))) = 0
                          /\ pixels (Bitmap_new 0 0 (pixel_zero (T:=T))) = [])))
    by (split; [reflexivity|right; repeat split]).
  destruct file_good; [|exact Hzero].
  destruct decoded as [img|]; [|exact Hzero].
  cbv zeta.
  assert (Hfill : forall bytes,
            let bmp := mkBitmap
                         (pixels_of_bytes (T:=T)
                            (length (pixels (Bitmap_new (stb_w img) (stb_h img) (pixel_zero (T:=T)))))
                            bytes) (stb_w img) (stb_h img) in
            Bitmap_wf bmp
            /\ ((exists img0, Some img = Some img0 /\ width bmp = stb_w img0
                                /\ height bmp = stb_h img0)
                \/ (width bmp = 0 /\ height bmp = 0 /\ pixels bmp = []))).
  { intros bytes bmp. subst bmp. split.
    - unfold Bitmap_wf. cbn [pixels width height Bitmap_new].
      now rewrite pixels_of_bytes_length, length_replicate.
    - left. exists img. repeat split. }
  repeat match goal with
         | |- context [if ?b then _ else _] => destruct b
         end; try apply Hfill; exact Hzero.
Qed.

(** X7.  Whatever the file and the decoder give, [LoadBitmap] returns a
    bitmap with [pixels.len = width * height], and its dimensions are either
    the decoded ones or [0 x 0] with no pixels. *)
Theorem X7_LoadBitmap_well_formed {T} `{Pixel T} (file_good : bool)
    (decoded : option StbImage) :
  let bmp := LoadBitmap (T:=T) file_good decoded in
  Bitmap_wf bmp
  /\ ((exists img, decoded = Some img /\ width bmp = stb_w img /\ height bmp = stb_h img)
      \/ (width bmp = 0 /\ height bmp = 0 /\ pixels bmp = [])).
Proof.
  intros bmp. subst bmp. unfold LoadBitmap.
  assert (Hzero : Bitmap_wf (Bitmap_new 0 0 (pixel_zero (T:=T)))
                  /\ ((exists img, decoded = Some img
                         /\ width (Bitmap_new 0 0 (pixel_zero (T:=T))) = stb_w img
                         /\ height (Bitmap_new 0 0 (pixel_zero (T:=T))) = stb_h img)
                      \/ (width (Bitmap_new 0 0 (pixel_zero (T:=T))) = 0
                          /\ height (Bitmap_new 0 0 (pixel_zero (T:=T))) = 0
                          /\ pixels (Bitmap_new 0 0 (pixel_zero (T:=T))) = [])))
    by (split; [reflexivity|right; repeat split]).
  destruct file_good; [|exact Hzero].
  destruct decoded as [img|]; [|exact Hzero].
  cbv zeta.
  assert (Hfill : forall bytes,
            let bmp := mkBitmap
                         (pixels_of_bytes (T:=T)
                            (length (pixels (Bitmap_new (stb_w img) (stb_h img) (pixel_zero (T:=T)))))
                            bytes) (stb_w img) (stb_h img) in
            Bitmap_wf bmp
            /\ ((exists img0, Some img = Some img0 /\ width bmp = stb_w img0
                                /\ height bmp = stb_h img0)
                \/ (width bmp = 0 /\ height bmp = 0 /\ pixels bmp = []))).
  { intros bytes bmp. subst bmp. split.
    - unfold Bitmap_wf. cbn [pixels width height Bitmap_new].
      now rewrite pixels_of_bytes_length, length_replicate.
    - left. exists img. repeat split. }
  repeat match goal with
         | |- context [if ?b then _ else _] => destruct b
         end; try apply Hfill; exact Hzero.
Qed.

(** X8.  [LoadBitmap<PixelRgba>] (the normal map) keeps a 4-channel image
    byte for byte, makes an RGB image opaque, and replicates a grey image
    into the three colours with alpha 255. *)
Theorem X8_LoadBitmap_rgba_pixels (img : StbImage) (k : nat) :
  length (stb_data img) = stb_w img * stb_h img * stb_comp img ->
  k < stb_w img * stb_h img ->
  let d := byte_at (stb_data img) in
  let bmp := LoadBitmap (T:=PixelRgba.t) true (Some img) in
  (stb_comp img = 4 ->
     pixels bmp !! k = Some (PixelRgba.mk (d (k * 4 + 0)) (d (k * 4 + 1))
                                          (d (k * 4 + 2)) (d (k * 4 + 3))))
  /\ (stb_comp img = 3 ->
        pixels bmp !! k = Some (PixelRgba.mk (d (k * 3 + 0)) (d (k * 3 + 1))
                                             (d (k * 3 + 2)) 255))
  /\ (stb_comp img = 1 ->
        pixels bmp !! k = Some (PixelRgba.mk (d k) (d k) (d k) 255)).
Proof.
  intros Hlen Hk d bmp. subst bmp d. unfold LoadBitmap. cbv zeta.
  cbn [pixels Bitmap_new BytesPerPixel pixel_zero Pixel_Rgba].
  set (n := stb_w img * stb_h img) in *.
  rewrite bytes_of_rgba_length, !length_replicate.
  assert (Hconv : forall {A} `{Pixel A} (f : A -> PixelRgba.t),
            pixels_of_bytes (T:=PixelRgba.t) n
              (list_inserts 0
                 (take (4 * n) (convert_pixels f n (stb_data img)))
                 (bytes_of_pixels (replicate n (PixelRgba.mk 0 0 0 0))))
            = map f (pixels_of_bytes (T:=A) n (stb_data img))).
  { intros A HA f. unfold convert_pixels.
    set (ps := map f (pixels_of_bytes n (stb_data img))).
    assert (Hps : length ps = n)
      by (subst ps; now rewrite length_map, pixels_of_bytes_length).
    replace (4 * n) with (length (bytes_of_pixels (replicate n (PixelRgba.mk 0 0 0 0))))
      by (now rewrite bytes_of_rgba_length, length_replicate).
    rewrite overwrite_whole
      by (now rewrite !bytes_of_rgba_length, length_replicate, Hps).
    rewrite <- Hps at 1. apply pixels_of_bytes_of_rgba. }
  split; [|split]; intros Hc; rewrite Hc in *;
    repeat match goal with
           | |- context [?a * 10 + ?b] =>
               let v := eval compute in (a * 10 + b) in change (a * 10 + b) with v
           end;
    cbn [Nat.eqb pixels].
  - replace (4 * n) with (length (bytes_of_pixels (replicate n (PixelRgba.mk 0 0 0 0))))
      by (now rewrite bytes_of_rgba_length, length_replicate).
    rewrite overwrite_whole.
    + rewrite pixels_of_bytes_rgba by exact Hk.
      replace (n * 4) with (length (stb_data img)) by lia.
      now rewrite firstn_all.
    + rewrite length_take, !bytes_of_rgba_length, !length_replicate. lia.
  - rewrite (Hconv _ _ ConvertPixel_Rgb_Rgba).
    rewrite map_fmap, list_lookup_fmap, pixels_of_bytes_rgb by exact Hk. reflexivity.
  - rewrite (Hconv _ _ ConvertPixel_Mono_Rgba).
    rewrite map_fmap, list_lookup_fmap, pixels_of_bytes_mono by exact Hk. reflexivity.
Qed.

(** The statement above on a 2x1 RGB image, second pixel. *)
Lemma X8_LoadBitmap_rgba_pixels_witness :
  let img := mkStbImage 2 1 3 [1; 2; 3; 4; 5; 6]%Z in
  let d := byte_at (stb_data img) in
  let bmp := LoadBitmap (T:=PixelRgba.t) true (Some img) in
  (stb_comp img = 4 ->
     pixels bmp !! 1 = Some (PixelRgba.mk (d (1 * 4 + 0)) (d (1 * 4 + 1))
                                          (d (1 * 4 + 2)) (d (1 * 4 + 3))))
  /\ (stb_comp img = 3 ->
        pixels bmp !! 1 = Some (PixelRgba.mk (d (1 * 3 + 0)) (d (1 * 3 + 1))
                                             (d (1 * 3 + 2)) 255))
  /\ (stb_comp img = 1 ->
        pixels bmp !! 1 = Some (PixelRgba.mk (d 1) (d 1) (d 1) 255)).
Proof.
  intros img.
  apply (X8_LoadBitmap_rgba_pixels img 1); [reflexivity|cbn; lia].
Defined.

(** X9.  [LoadBitmap<PixelMono>] (gloss and height maps) keeps a grey image
    byte for byte and reduces an RGB or RGBA image to its luminance,
    ignoring alpha. *)
Theorem X9_LoadBitmap_mono_pixels (img : StbImage) (k : nat) :
  length (stb_data img) = stb_w img * stb_h img * stb_comp img ->
  k < stb_w img * stb_h img ->
  let d := byte_at (stb_data img) in
  let bmp := LoadBitmap (T:=PixelMono.t) true (Some img) in
  (stb_comp img = 1 -> pixels bmp !! k = Some (PixelMono.mk (d k)))
  /\ (stb_comp img = 3 ->
        pixels bmp !! k
        = Some (PixelMono.mk (luminance (d (k * 3 + 0)) (d (k * 3 + 1)) (d (k * 3 + 2)))))
  /\ (stb_comp img = 4 ->
        pixels bmp !! k
        = Some (PixelMono.mk (luminance (d (k * 4 + 0)) (d (k * 4 + 1)) (d (k * 4 + 2))))).
Proof.
  intros Hlen Hk d bmp. subst bmp d. unfold LoadBitmap. cbv zeta.
  cbn [pixels Bitmap_new BytesPerPixel pixel_zero Pixel_Mono].
  set (n := stb_w img * stb_h img) in *.
  rewrite bytes_of_mono_length, !length_replicate.
  assert (Hconv : forall {A} `{Pixel A} (f : A -> PixelMono.t),
            pixels_of_bytes (T:=PixelMono.t) n
              (list_inserts 0
                 (take n (convert_pixels f n (stb_data img)))
                 (bytes_of_pixels (replicate n (PixelMono.mk 0))))
            = map f (pixels_of_bytes (T:=A) n (stb_data img))).
  { intros A HA f. unfold convert_pixels.
    set (ps := map f (pixels_of_bytes n (stb_data img))).
    assert (Hps : length ps = n)
      by (subst ps; now rewrite length_map, pixels_of_bytes_length).
    replace n with (length (bytes_of_pixels (replicate n (PixelMono.mk 0)))) at 2
      by (now rewrite bytes_of_mono_length, length_replicate).
    rewrite overwrite_whole
      by (now rewrite !bytes_of_mono_length, length_replicate, Hps).
    rewrite <- Hps at 1. apply pixels_of_bytes_of_mono. }
  split; [|split]; intros Hc; rewrite Hc in *;
    repeat match goal with
           | |- context [?a * 10 + ?b] =>
               let v := eval compute in (a * 10 + b) in change (a * 10 + b) with v
           end;
    cbn [Nat.eqb pixels].
  - replace n with (length (bytes_of_pixels (replicate n (PixelMono.mk 0)))) at 2
      by (now rewrite bytes_of_mono_length, length_replicate).
    rewrite overwrite_whole.
    + rewrite pixels_of_bytes_mono by exact Hk.
      replace (n * 1) with (length (stb_data img)) by lia.
      now rewrite firstn_all.
    + rewrite length_take, !bytes_of_mono_length, !length_replicate. lia.
  - rewrite (Hconv _ _ ConvertPixel_Rgb_Mono).
    rewrite map_fmap, list_lookup_fmap, pixels_of_bytes_rgb by exact Hk. reflexivity.
  - rewrite (Hconv _ _ ConvertPixel_Rgba_Mono).
    rewrite map_fmap, list_lookup_fmap, pixels_of_bytes_rgba by exact Hk. reflexivity.
Qed.

(** The statement above on a 2x1 RGBA image, second pixel. *)
Lemma X9_LoadBitmap_mono_pixels_witness :
  let img := mkStbImage 2 1 4 [1; 2; 3; 4; 50; 60; 70; 80]%Z in
  let d := byte_at (stb_data img) in
  let bmp := LoadBitmap (T:=PixelMono.t) true (Some img) in
  (stb_comp img = 1 -> pixels bmp !! 1 = Some (PixelMono.mk (d 1)))
  /\ (stb_comp img = 3 ->
        pixels bmp !! 1
        = Some (PixelMono.mk (luminance (d (1 * 3 + 0)) (d (1 * 3 + 1)) (d (1 * 3 + 2)))))
  /\ (stb_comp img = 4 ->
        pixels bmp !! 1
        = Some (PixelMono.mk (luminance (d (1 * 4 + 0)) (d (1 * 4 + 1)) (d (1 * 4 + 2))))).
Proof.
  intros img.
  apply (X9_LoadBitmap_mono_pixels img 1); [reflexivity|cbn; lia].
Defined.

(** *** The driver on decoded files *)

Lemma LoadBitmap_rgba_rejected (file_good : bool) (decoded : option StbImage) :
  (file_good = false \/ decoded = None
   \/ exists img, decoded = Some img
        /\ ((stb_comp img <> 1 /\ stb_comp img <> 3 /\ stb_comp img <> 4)
            \/ stb_w img * stb_h img = 0)) ->
  Bitmap_empty (LoadBitmap (T:=PixelRgba.t) file_good decoded) = true.
Proof.
  intros Hbad. unfold LoadBitmap.
  destruct file_good; [|reflexivity].
  destruct decoded as [img|]; [|reflexivity].
  destruct Hbad as [Hb|[Hb|(img' & Himg & Hb)]]; [discriminate..|].
  injection Himg as <-. cbv zeta. cbn [BytesPerPixel Pixel_Rgba].
  apply Bitmap_empty_true.
  destruct Hb as [(H1 & H3 & H4)|Hz].
  - repeat match goal with
           | |- context [?a =? ?b] => destruct (Nat.eqb_spec a b); try lia
           end.
    reflexivity.
  - assert (Hn : forall bs, pixels_of_bytes (T:=PixelRgba.t)
                   (length (pixels (Bitmap_new (stb_w img) (stb_h img) (pixel_zero (T:=PixelRgba.t)))))
                   bs = []).
    { intros bs. cbn [pixels Bitmap_new]. rewrite length_replicate, Hz. reflexivity. }
    repeat match goal with
           | |- context [if ?b then _ else _] => destruct b
           end; cbn [pixels]; try apply Hn; reflexivity.
Qed.

Section DriverOnFiles.
Context `{Externals}.

(** X10.  A normal map that cannot be used is fatal: when its file does
    not open, is not decoded, has no pixels, or has a channel count other
    than 1, 3 or 4 (grey with alpha is not converted), [Main] returns -1 and
    writes nothing, whatever the other inputs. *)
Theorem X10_unusable_normalmap_is_fatal (m : MainFiles) :
  (source_good (normal_file m) = false
   \/ source_image (normal_file m) = None
   \/ exists img, source_image (normal_file m) = Some img
        /\ ((stb_comp img <> 1 /\ stb_comp img <> 3 /\ stb_comp img <> 4)
            \/ stb_w img * stb_h img = 0)) ->
  Main_files m = ((-1)%Z, []).
Proof.
  intros Hbad. unfold Main_files, Main_loaded.
  cbn [inputs_of_files loaded_normalmap]. unfold load_source.
  now rewrite (LoadBitmap_rgba_rejected _ _ Hbad).
Qed.

Lemma build_optional_pyramid_empty w h (image : Bitmap PixelMono.t) :
  Bitmap_empty image = true -> build_optional_pyramid w h image = Texture_new w h.
Proof. intros He. unfold build_optional_pyramid. now rewrite He. Qed.

Lemma check_dimensions_unusable {T} (bad : Bitmap PixelMono.t) (normalmap : Bitmap T) :
  (pixels bad = [] \/ width bad <> width normalmap \/ height bad <> height normalmap) ->
  Bitmap_empty (check_dimensions bad normalmap) = true.
Proof.
  intros Hbad. destruct (Bitmap_empty (check_dimensions bad normalmap)) eqn:E;
    [reflexivity|exfalso].
  destruct (check_dimensions_nonempty _ _ E) as (Hc & Hw & Hh).
  rewrite Hc in E. apply Bitmap_empty_false in E.
  destruct Hbad as [Hp|[Hd|Hd]]; congruence.
Qed.

Lemma check_dimensions_not_provided {T} (normalmap : Bitmap T) :
  Bitmap_empty (check_dimensions (load_optional None) normalmap) = true.
Proof.
  apply check_dimensions_unusable. left. reflexivity.
Qed.

Lemma default_heightmap_empty {T} (a b : Bitmap PixelMono.t) (normalmap : Bitmap T) :
  Bitmap_empty a = true -> Bitmap_empty b = true ->
  default_heightmap a normalmap = default_heightmap b normalmap.
Proof. intros Ha Hb. unfold default_heightmap. now rewrite Ha, Hb. Qed.

(** X11.  An auxiliary map that is empty or whose dimensions differ from
    the normal map's changes nothing: the run returns the same status and
    writes the same files as a run without that option, for the gloss map
    and for the height map alike. *)
Theorem X11_unusable_auxiliary_is_ignored (normalmap : Bitmap PixelRgba.t)
    (gloss height0 : option (Bitmap PixelMono.t)) (bad : Bitmap PixelMono.t)
    (linear : bool) (q : Z) (good1 good2 : bool) :
  (pixels bad = [] \/ width bad <> width normalmap \/ height bad <> height normalmap) ->
  Main_loaded (mkMainInputs normalmap (Some bad) height0 linear q good1 good2)
  = Main_loaded (mkMainInputs normalmap None height0 linear q good1 good2)
  /\ Main_loaded (mkMainInputs normalmap gloss (Some bad) linear q good1 good2)
     = Main_loaded (mkMainInputs normalmap gloss None linear q good1 good2).
Proof.
  intros Hbad.
  pose proof (check_dimensions_unusable bad normalmap Hbad) as Hb.
  pose proof (check_dimensions_not_provided normalmap) as Hn.
  assert (Hbump : bump_pyramid (mkMainInputs normalmap (Some bad) height0 linear q good1 good2)
                  = bump_pyramid (mkMainInputs normalmap None height0 linear q good1 good2)).
  { unfold bump_pyramid. cbn [loaded_normalmap loaded_glossmap linearGloss].
    cbn [load_optional] in *.
    now rewrite !build_optional_pyramid_empty by assumption. }
  assert (Hheight : height_pyramid (mkMainInputs normalmap gloss (Some bad) linear q good1 good2)
                    = height_pyramid (mkMainInputs normalmap gloss None linear q good1 good2)).
  { unfold height_pyramid. cbn [loaded_normalmap loaded_heightmap].
    cbn [load_optional] in *.
    now rewrite (default_heightmap_empty _ _ normalmap Hb Hn). }
  split.
  - unfold Main_loaded, bumpX_pyramid. rewrite Hbump. reflexivity.
  - unfold Main_loaded, bumpX_pyramid. rewrite Hheight. reflexivity.
Qed.

End DriverOnFiles.

(** The statement above with a 4x4 gloss or height map beside the 8x8
    normal map of the scenarios. *)
Lemma X11_unusable_auxiliary_is_ignored_witness :
  Main_loaded (H:=sample_externals)
    (mkMainInputs (flat_normalmap 0) (Some (Bitmap_new 4 4 (PixelMono.mk 9))) None
                  false 2 true true)
  = Main_loaded (H:=sample_externals)
      (mkMainInputs (flat_normalmap 0) None None false 2 true true)
  /\ Main_loaded (H:=sample_externals)
       (mkMainInputs (flat_normalmap 0) None (Some (Bitmap_new 4 4 (PixelMono.mk 9)))
                     false 2 true true)
     = Main_loaded (H:=sample_externals)
         (mkMainInputs (flat_normalmap 0) None None false 2 true true).
Proof.
  apply (X11_unusable_auxiliary_is_ignored (H:=sample_externals)).
  right. left. cbn. lia.
Defined.

(** The statement for X10 on a grey-with-alpha normal map of 4x4 pixels. *)
Lemma X10_unusable_normalmap_is_fatal_witness :
  Main_files (H:=sample_externals)
    (mkMainFiles (mkSourceFile true (Some (mkStbImage 4 4 2 (replicate 32 0%Z))))
                 None None false 2 true true)
  = ((-1)%Z, []).
Proof.
  apply (X10_unusable_normalmap_is_fatal (H:=sample_externals)).
  right. right. eexists. split; [reflexivity|]. left. cbn. lia.
Defined.

(** *** The three pyramids of a run *)

Lemma Texture_new_shape_lookup {T} `{Pixel T} (w h i : nat) :
  i < Log2I (Nat.max w h) ->
  (shape <$> mips (Texture_new (T:=T) w h)) !! i
  = Some (mip_dim w i, mip_dim h i, mip_dim w i * mip_dim h i).
Proof.
  intros Hi. unfold Texture_new. cbn [mips].
  rewrite list_lookup_fmap, Texture_push_lookup by exact Hi.
  cbn. unfold shape, Bitmap_new. cbn. now rewrite length_replicate.
Qed.

Lemma shape_lookup {T} (l : list (Bitmap T)) (i : nat) (s : nat * nat * nat) :
  (shape <$> l) !! i = Some s -> exists b, l !! i = Some b /\ shape b = s.
Proof.
  rewrite list_lookup_fmap. destruct (l !! i) as [b|]; [|discriminate].
  cbn. intros [= <-]. now exists b.
Qed.

Section Pyramids.
Context `{Externals}.

Lemma bumpX_pyramid_shape inp :
  shape <$> mips (bumpX_pyramid inp)
  = shape <$> mips (Texture_new (T:=PixelRgba.t) (width (loaded_normalmap inp))
                                 (height (loaded_normalmap inp))).
Proof.
  unfold bumpX_pyramid, assemble_bumpX. cbn [mips].
  apply for_each_index_fmap. intros i x. apply residual_mip_shape.
Qed.

Lemma inputs_of_files_wf (m : MainFiles) :
  Bitmap_wf (loaded_normalmap (inputs_of_files m))
  /\ (forall bmp, loaded_glossmap (inputs_of_files m) = Some bmp -> Bitmap_wf bmp)
  /\ (forall bmp, loaded_heightmap (inputs_of_files m) = Some bmp -> Bitmap_wf bmp).
Proof.
  cbn [inputs_of_files loaded_normalmap loaded_glossmap loaded_heightmap].
  split; [apply LoadBitmap_shape|]. split.
  - intros bmp. destruct (gloss_file m); [|discriminate].
    cbn. intros [= <-]. apply LoadBitmap_shape.
  - intros bmp. destruct (height_file m); [|discriminate].
    cbn. intros [= <-]. apply LoadBitmap_shape.
Qed.

(** X12.  In every run from decoded files the assembled bump pyramid, the
    height pyramid and the bump# pyramid are aligned: at each level [i]
    below [Log2I (max W H)] all three hold a mip of the same width, height
    and pixel count ([W x H] at level 0, [max (W >> i, 4) x max (H >> i, 4)]
    above), so the pixel-wise transforms of steps 2 and 4 pair buffers of
    one length. *)
Theorem X12_pyramids_are_aligned (m : MainFiles) (i : nat) :
  let inp := inputs_of_files m in
  let W := width (loaded_normalmap inp) in
  let H0 := height (loaded_normalmap inp) in
  i < Log2I (Nat.max W H0) ->
  exists (bumpMip : Bitmap PixelRgba.t) (heightMip : Bitmap PixelMono.t)
         (bumpXMip : Bitmap PixelRgba.t),
    mips (bump_pyramid inp) !! i = Some bumpMip
    /\ mips (height_pyramid inp) !! i = Some heightMip
    /\ mips (bumpX_pyramid inp) !! i = Some bumpXMip
    /\ shape bumpMip = (mip_dim W i, mip_dim H0 i, mip_dim W i * mip_dim H0 i)
    /\ shape heightMip = shape bumpMip
    /\ shape bumpXMip = shape bumpMip.
Proof.
  intros inp W H0 Hi.
  destruct (inputs_of_files_wf m) as (Hn & _ & Hh). fold inp in Hn, Hh.
  pose proof (Texture_new_shape_lookup (T:=PixelRgba.t) W H0 i Hi) as Hs.
  subst W H0.
  pose proof Hs as Hs1. rewrite <- (bump_pyramid_shape inp Hn) in Hs1.
  pose proof Hs as Hs2.
  rewrite (Texture_new_shape_indep (T1:=PixelRgba.t) (T2:=PixelMono.t)) in Hs2.
  rewrite <- (height_pyramid_shape inp Hh) in Hs2.
  pose proof Hs as Hs3. rewrite <- (bumpX_pyramid_shape inp) in Hs3.
  destruct (shape_lookup _ _ _ Hs1) as (b & Hb & Hbs).
  destruct (shape_lookup _ _ _ Hs2) as (g & Hg & Hgs).
  destruct (shape_lookup _ _ _ Hs3) as (x & Hx & Hxs).
  exists b, g, x. repeat split; try assumption; congruence.
Qed.
End Pyramids.

(** The statement above at level 1 of an 8x8 RGB normal map with a grey
    height map. *)
Lemma X12_pyramids_are_aligned_witness :
  let m := mkMainFiles (mkSourceFile true (Some (mkStbImage 8 8 3 (replicate 192 128%Z))))
                       None
                       (Some (mkSourceFile true (Some (mkStbImage 8 8 1 (replicate 64 9%Z)))))
                       false 2 true true in
  let inp := inputs_of_files m in
  let W := width (loaded_normalmap inp) in
  let H0 := height (loaded_normalmap inp) in
  exists (bumpMip : Bitmap PixelRgba.t) (heightMip : Bitmap PixelMono.t)
         (bumpXMip : Bitmap PixelRgba.t),
    mips (bump_pyramid (H:=sample_externals) inp) !! 1 = Some bumpMip
    /\ mips (height_pyramid (H:=sample_externals) inp) !! 1 = Some heightMip
    /\ mips (bumpX_pyramid (H:=sample_externals) inp) !! 1 = Some bumpXMip
    /\ shape bumpMip = (mip_dim W 1, mip_dim H0 1, mip_dim W 1 * mip_dim H0 1)
    /\ shape heightMip = shape bumpMip
    /\ shape bumpXMip = shape bumpMip.
Proof.
  intros m.
  apply (X12_pyramids_are_aligned (H:=sample_externals) m 1).
  vm_compute. lia.
Defined.

(** *** The outcome of a run *)


Section Outcome.
Context `{Externals}.


(** *** The mip builder *)

Lemma BuildMipchain_prefix {T} `{Pixel T} (flag : bool) (ms : list (Bitmap T)) (m : nat) :
  let step := fun (ms : list (Bitmap T)) (i : nat) =>
    <[i := MakeMip flag (nth (Z.to_nat (Z.max 0 (Z.of_nat i - 3))) ms Bitmap_default)
                        (nth i ms Bitmap_default)]> ms in
  let cur := fold_left step (seq 1 m) ms in
  length cur = length ms
  /\ (forall j, m < j -> cur !! j = ms !! j)
  /\ cur !! 0 = ms !! 0
  /\ (forall j orig, 1 <= j <= m -> ms !! j = Some orig ->
        cur !! j = Some (MakeMip flag (nth (j - 3) cur Bitmap_default) orig)).
Proof.
  intros step. induction m as [|m IH]; cbv zeta.
  - cbn [seq fold_left]. repeat split; intros; lia.
  - rewrite fold_left_seq_S. cbv zeta in IH.
    set (cur := fold_left step (seq 1 m) ms) in *.
    destruct IH as (Hlen & Hrest & Hzero & Hdone).
    replace (1 + m) with (S m) by lia.
    assert (Hstep : step cur (S m)
                    = <[S m := MakeMip flag (nth (S m - 3) cur Bitmap_default)
                                            (nth (S m) cur Bitmap_default)]> cur).
    { unfold step. now replace (Z.to_nat (Z.max 0 (Z.of_nat (S m) - 3))) with (S m - 3) by lia. }
    rewrite Hstep. clear Hstep.
    set (new := MakeMip flag _ _).
    assert (Hnth : forall j, j <> S m ->
              nth j (<[S m := new]> cur) Bitmap_default = nth j cur Bitmap_default).
    { intros j Hj. now rewrite !nth_lookup, list_lookup_insert_ne by lia. }
    split; [now rewrite length_insert|]. split; [|split].
    + intros j Hj. rewrite list_lookup_insert_ne by lia. apply Hrest. lia.
    + now rewrite list_lookup_insert_ne by lia.
    + intros j orig Hj Horig. rewrite Hnth by lia.
      destruct (Nat.eq_dec j (S m)) as [->|Hne].
      * rewrite list_lookup_insert_eq
          by (rewrite Hlen; now apply lookup_lt_Some in Horig).
        subst new. f_equal. f_equal.
        apply nth_lookup_Some. rewrite Hrest by lia. exact Horig.
      * rewrite list_lookup_insert_ne by lia. apply Hdone; [lia|exact Horig].
Qed.

(** X14.  [BuildMipchain] leaves mip 0 alone and keeps the number of mips;
    every other mip [i] is [MakeMip] of the already built mip [i - 3] (mip 0
    for [i] up to 3) into the mip that was there. *)
Theorem X14_BuildMipchain_sources {T} `{Pixel T} (flag : bool) (texture : Texture T)
    (i : nat) (orig : Bitmap T) :
  1 <= i ->
  mips texture !! i = Some orig ->
  let built := mips (BuildMipchain flag texture) in
  length built = length (mips texture)
  /\ built !! 0 = mips texture !! 0
  /\ built !! i = Some (MakeMip flag (nth (i - 3) built Bitmap_default) orig).
Proof.
  intros Hi Horig built. subst built. unfold BuildMipchain. cbn [mips].
  destruct (BuildMipchain_prefix flag (mips texture) (length (mips texture) - 1))
    as (Hlen & _ & Hzero & Hdone).
  split; [exact Hlen|]. split; [exact Hzero|].
  apply Hdone; [|exact Horig].
  apply lookup_lt_Some in Horig. lia.
Qed.
End Outcome.


(** The statement for X14 at mip 4 of a 32x32 pyramid, built from mip 1. *)
Lemma X14_BuildMipchain_sources_witness :
  let texture := Texture_new (T:=PixelMono.t) 32 32 in
  let built := mips (BuildMipchain (H:=sample_externals) false texture) in
  length built = length (mips texture)
  /\ built !! 0 = mips texture !! 0
  /\ built !! 4
     = Some (MakeMip (H:=sample_externals) false (nth (4 - 3) built Bitmap_default)
                     (Bitmap_new 4 4 (PixelMono.mk 0))).
Proof.
  intros texture.
  apply (X14_BuildMipchain_sources (H:=sample_externals) false texture 4
           (Bitmap_new 4 4 (PixelMono.mk 0))); [lia|reflexivity].
Defined.

(** *** Block compressors *)

(** A loop that writes one chunk of [m] bytes per round and advances the
    write pointer by [m]. *)
Lemma chunk_writer (m : nat) (g : list Z * nat -> nat -> list Z * nat)
    (C : nat -> nat -> option Z) :
  (forall k out d, d + m <= length out ->
     snd (g (out, d) k) = d + m
     /\ length (fst (g (out, d) k)) = length out
     /\ (forall i, i < m -> fst (g (out, d) k) !! (d + i) = C k i)
     /\ (forall p, p < d \/ d + m <= p -> fst (g (out, d) k) !! p = out !! p)) ->
  forall n out d0, d0 + m * n <= length out ->
    let st := fold_left g (seq 0 n) (out, d0) in
    snd st = d0 + m * n
    /\ length (fst st) = length out
    /\ (forall k i, k < n -> i < m -> fst st !! (d0 + m * k + i) = C k i)
    /\ (forall p, p < d0 \/ d0 + m * n <= p -> fst st !! p = out !! p).
Proof.
  intros Hg n out d0. induction n as [|n IH]; intros Hfit; cbv zeta.
  - cbn [seq fold_left fst snd]. repeat split; intros; lia.
  - rewrite fold_left_seq_S. cbv zeta in IH.
    destruct IH as (Hd & Hlen & Hin & Hout); [lia|].
    destruct (fold_left g (seq 0 n) (out, d0)) as [cur d] eqn:Hst.
    cbn [fst snd] in *. subst d. rewrite Nat.add_0_l.
    destruct (Hg n cur (d0 + m * n)) as (Hd' & Hlen' & Hin' & Hout'); [lia|].
    split; [lia|]. split; [lia|]. split.
    + intros k i Hk Hi. destruct (Nat.eq_dec k n) as [->|Hne].
      * now apply Hin'.
      * rewrite Hout' by nia. apply Hin; lia.
    + intros p Hp. rewrite Hout' by lia. apply Hout. lia.
Qed.

Lemma in_image (W H0 r c : nat) : r < H0 -> c < W -> r * W + c < W * H0.
Proof. intros Hr Hc. nia. Qed.

Lemma rgba_byte_at (ps : list PixelRgba.t) (a k : nat) :
  k < length ps ->
  (a = k * 4 + 0 -> byte_at (bytes_of_pixels ps) a = PixelRgba.r (nth k ps pixel_zero))
  /\ (a = k * 4 + 1 -> byte_at (bytes_of_pixels ps) a = PixelRgba.g (nth k ps pixel_zero))
  /\ (a = k * 4 + 2 -> byte_at (bytes_of_pixels ps) a = PixelRgba.b (nth k ps pixel_zero))
  /\ (a = k * 4 + 3 -> byte_at (bytes_of_pixels ps) a = PixelRgba.a (nth k ps pixel_zero)).
Proof.
  intros Hk. destruct (lookup_lt_is_Some_2 ps k Hk) as [p Hp].
  rewrite (nth_lookup_Some _ _ _ _ Hp).
  repeat split; intros ->; now rewrite (bytes_of_rgba_byte ps k p _ Hp) by lia.
Qed.

(** The four [memcpy]s read the 4x4 window of the block. *)
Lemma gather_block_window (bmp : Bitmap PixelRgba.t) (bx by_ : nat) :
  Bitmap_wf bmp -> 4 * bx + 4 <= width bmp -> 4 * by_ + 4 <= height bmp ->
  gather_block (bytes_of_pixels (pixels bmp)) (width bmp) (4 * bx) (4 * by_)
  = block_window bmp bx by_.
Proof.
  intros Hwf Hx Hy. unfold Bitmap_wf in Hwf.
  unfold gather_block, block_window, bytes_of_pixels at 2.
  cbv zeta. cbn [seq map concat app pixel_bytes Pixel_Rgba].
  repeat match goal with |- _ :: _ = _ :: _ => f_equal end.
  all: match goal with
       | |- byte_at _ ?a = ?f (nth ?k _ _) =>
           let Hk := fresh in
           assert (Hk : k < length (pixels bmp)) by (rewrite Hwf; apply in_image; lia);
           destruct (rgba_byte_at (pixels bmp) a k Hk) as (Hr & Hg & Hb & Ha);
           first [apply Hr; lia | apply Hg; lia | apply Hb; lia | apply Ha; lia]
       end.
Qed.

Lemma CompressBC3_blocks_layout (encode : list Z -> list Z) (bmp : Bitmap PixelRgba.t)
    (out : list Z) (Wb Hb : nat) :
  width bmp = 4 * Wb -> height bmp = 4 * Hb ->
  (forall px, 16 <= length (encode px)) ->
  16 * (Wb * Hb) <= length out ->
  let res := CompressBC3_blocks encode bmp out in
  (forall bx by_ i, bx < Wb -> by_ < Hb -> i < 16 ->
     res !! (16 * (by_ * Wb + bx) + i)
     = encode (gather_block (bytes_of_pixels (pixels bmp)) (width bmp) (4 * bx) (4 * by_)) !! i)
  /\ (forall p, 16 * (Wb * Hb) <= p -> res !! p = out !! p).
Proof.
  intros HW HH Henc Hout res. subst res. unfold CompressBC3_blocks. cbv zeta.
  set (src := bytes_of_pixels (pixels bmp)).
  rewrite HH, HW. rewrite !steps4_multiple, fold_left_map.
  set (row := fun st c => fold_left _ _ st).
  set (C := fun r i : nat =>
              encode (gather_block src (4 * Wb) (4 * (i / 16)) (4 * r)) !! (i mod 16)).
  assert (Hrow : forall k out d, d + 16 * Wb <= length out ->
     snd (row (out, d) k) = d + 16 * Wb
     /\ length (fst (row (out, d) k)) = length out
     /\ (forall i, i < 16 * Wb -> fst (row (out, d) k) !! (d + i) = C k i)
     /\ (forall p, p < d \/ d + 16 * Wb <= p -> fst (row (out, d) k) !! p = out !! p)).
  { intros r cur d Hfit. subst row. cbv beta. rewrite fold_left_map.
    set (g := fun (a : list Z * nat) (c : nat) => _).
    destruct (chunk_writer 16 g
                (fun bx i => encode (gather_block src (4 * Wb) (4 * bx) (4 * r)) !! i))
      with (n := Wb) (out := cur) (d0 := d) as (Hd & Hlen & Hin & Hrest); [|lia|].
    - intros k o e Hk. subst g. cbv beta iota. cbn [fst snd].
      assert (Ht : length (take 16 (encode (gather_block src (4 * Wb) (4 * k) (4 * r)))) = 16)
        by (rewrite length_take; specialize (Henc (gather_block src (4 * Wb) (4 * k) (4 * r))); lia).
      split; [reflexivity|]. split; [apply length_inserts|]. split.
      + intros i Hi. rewrite list_lookup_inserts by lia.
        replace (e + i - e) with i by lia. now apply lookup_take_lt.
      + intros p [Hp|Hp]; [now apply list_lookup_inserts_lt|].
        apply list_lookup_inserts_ge. lia.
    - split; [exact Hd|]. split; [exact Hlen|]. split; [|exact Hrest].
      intros i Hi. subst C. cbv beta.
      pose proof (Nat.div_mod_eq i 16) as Hdm.
      pose proof (Nat.mod_upper_bound i 16 ltac:(lia)) as Hm.
      assert (i / 16 < Wb) by (apply Nat.Div0.div_lt_upper_bound; lia).
      rewrite <- Hin by assumption. f_equal. lia. }
  destruct (chunk_writer (16 * Wb) row C Hrow Hb out 0) as (_ & _ & Hin & Hrest); [lia|].
  split.
  - intros bx by_ i Hbx Hby Hi.
    replace (16 * (by_ * Wb + bx) + i) with (0 + 16 * Wb * by_ + (16 * bx + i)) by lia.
    rewrite Hin by lia. subst C. cbv beta.
    replace ((16 * bx + i) / 16) with bx by (apply (Nat.div_unique _ _ _ i); lia).
    replace ((16 * bx + i) mod 16) with i by (apply (Nat.mod_unique _ _ bx); lia).
    reflexivity.
  - intros p Hp. apply Hrest. right. lia.
Qed.

(** X15.  The three compressors share one layout.  On a bitmap of [Wb] by
    [Hb] whole blocks, with an encoder that emits 16 bytes per block, the
    block at column [bx] and row [by_] lands at byte [16 * (by_ * Wb + bx)]
    of the output and is the encoder's output on the 64 bytes of the 4x4
    pixels [(4 * bx + j, 4 * by_ + i)], rows first.  The output keeps its
    length, and no byte past the [Wb * Hb] blocks is touched. *)
Theorem X15_compressed_block_layout (encode : list Z -> list Z)
    (bmp : Bitmap PixelRgba.t) (out : list Z) (Wb Hb bx by_ : nat) :
  width bmp = 4 * Wb -> height bmp = 4 * Hb -> Bitmap_wf bmp ->
  (forall px, 16 <= length (encode px)) ->
  16 * (Wb * Hb) <= length out ->
  bx < Wb -> by_ < Hb ->
  let res := CompressBC3_blocks encode bmp out in
  take 16 (drop (16 * (by_ * Wb + bx)) res) = take 16 (encode (block_window bmp bx by_))
  /\ length res = length out
  /\ (forall p, 16 * (Wb * Hb) <= p -> res !! p = out !! p).
Proof.
  intros HW HH Hwf Henc Hout Hbx Hby res.
  destruct (CompressBC3_blocks_layout encode bmp out Wb Hb HW HH Henc Hout)
    as (Hin & Hrest).
  fold res in Hin, Hrest.
  split; [|split; [apply CompressBC3_blocks_length|exact Hrest]].
  apply list_eq. intros i.
  destruct (Nat.lt_ge_cases i 16) as [Hi|Hi].
  - rewrite !lookup_take_lt, lookup_drop by exact Hi.
    rewrite Hin by assumption.
    now rewrite gather_block_window by (exact Hwf || lia).
  - now rewrite !lookup_take_ge by exact Hi.
Qed.

(** *** Compression followed by the reference decoder *)

Lemma alpha_pixel_shift blocks blocks' s s' x y :
  (forall i, i < 8 -> byte_at blocks (s + i) = byte_at blocks' (s' + i)) ->
  alpha_pixel blocks s x y = alpha_pixel blocks' s' x y.
Proof.
  intros Hb. unfold alpha_pixel, load_u64. cbn [seq fold_right].
  pose proof (Hb 0 ltac:(lia)) as H0. rewrite !Nat.add_0_r in H0.
  now rewrite H0, !Hb by lia.
Qed.

Lemma color_pixel_shift blocks blocks' s s' x y ch :
  y < 4 ->
  (forall i, 8 <= i < 16 -> byte_at blocks (s + i) = byte_at blocks' (s' + i)) ->
  color_pixel blocks s x y ch = color_pixel blocks' s' x y ch.
Proof.
  intros Hy Hb. unfold color_pixel, load_u16.
  replace (s + 8 + 2) with (s + 10) by lia.
  replace (s + 10 + 1) with (s + 11) by lia.
  replace (s + 8 + 1) with (s + 9) by lia.
  replace (s + 8 + 4 + y) with (s + (12 + y)) by lia.
  replace (s' + 8 + 2) with (s' + 10) by lia.
  replace (s' + 10 + 1) with (s' + 11) by lia.
  replace (s' + 8 + 1) with (s' + 9) by lia.
  replace (s' + 8 + 4 + y) with (s' + (12 + y)) by lia.
  now rewrite !Hb by lia.
Qed.

Lemma block_byte_window (blocks : list Z) (s x y ch : nat) :
  y < 4 ->
  block_byte blocks s x y ch = block_byte (take 16 (drop s blocks)) 0 x y ch.
Proof.
  intros Hy. unfold block_byte.
  assert (Hw : forall i, i < 16 ->
            byte_at blocks (s + i) = byte_at (take 16 (drop s blocks)) (0 + i))
    by (intros i Hi; now rewrite byte_at_window).
  destruct (ch <? 3).
  - apply color_pixel_shift; [exact Hy|]. intros i Hi. apply Hw. lia.
  - apply alpha_pixel_shift. intros i Hi. apply Hw. lia.
Qed.

Lemma DecompressBC3_MY_pixel (blocks : list Z) (output : Bitmap PixelRgba.t)
    (Wb Hb row col : nat) :
  width output = 4 * Wb -> height output = 4 * Hb -> Bitmap_wf output ->
  row < 4 * Hb -> col < 4 * Wb ->
  let s := 16 * ((row / 4) * Wb + col / 4) in
  pixels (DecompressBC3_MY blocks output) !! (row * (4 * Wb) + col)
  = Some (PixelRgba.mk (block_byte blocks s (col mod 4) (row mod 4) 0)
                       (block_byte blocks s (col mod 4) (row mod 4) 1)
                       (block_byte blocks s (col mod 4) (row mod 4) 2)
                       (block_byte blocks s (col mod 4) (row mod 4) 3)).
Proof.
  intros HW HH Hwf Hrow Hcol s.
  unfold DecompressBC3_MY. cbn [pixels width height]. rewrite HW, HH in *.
  unfold Bitmap_wf in Hwf. rewrite HW, HH in Hwf.
  rewrite pixels_of_bytes_rgba by (rewrite Hwf; nia).
  assert (Hmem : length (bytes_of_pixels (pixels output)) = 4 * (4 * Wb * (4 * Hb)))
    by (rewrite bytes_of_rgba_length, Hwf; lia).
  pose proof (DecompressBC3_bytes_lookup blocks (4 * Wb) (4 * Hb) Wb Hb _
                eq_refl eq_refl Hmem row col) as Hpix.
  unfold pos in Hpix.
  rewrite (byte_at_lookup _ _ _ (Hpix 0 Hrow Hcol ltac:(lia))).
  rewrite (byte_at_lookup _ _ _ (Hpix 1 Hrow Hcol ltac:(lia))).
  rewrite (byte_at_lookup _ _ _ (Hpix 2 Hrow Hcol ltac:(lia))).
  rewrite (byte_at_lookup _ _ _ (Hpix 3 Hrow Hcol ltac:(lia))).
  reflexivity.
Qed.

(** X16.  Compression followed by the reference decoder is local to a
    block: the pixel [(col, row)] that [DecompressBC3_MY] rebuilds from the
    compressed form of a bitmap is what the two sub-block decoders make of
    the 16 bytes the encoder emitted for the 4x4 window that holds the pixel;
    no other pixel of the bitmap and no other block has a say. *)
Theorem X16_decode_of_compressed_is_block_local (encode : list Z -> list Z)
    (bmp output : Bitmap PixelRgba.t) (out : list Z) (Wb Hb row col : nat) :
  width bmp = 4 * Wb -> height bmp = 4 * Hb -> Bitmap_wf bmp ->
  width output = 4 * Wb -> height output = 4 * Hb -> Bitmap_wf output ->
  (forall px, 16 <= length (encode px)) ->
  16 * (Wb * Hb) <= length out ->
  row < 4 * Hb -> col < 4 * Wb ->
  let block := take 16 (encode (block_window bmp (col / 4) (row / 4))) in
  let x := col mod 4 in
  let y := row mod 4 in
  pixels (DecompressBC3_MY (CompressBC3_blocks encode bmp out) output)
    !! (row * (4 * Wb) + col)
  = Some (PixelRgba.mk (color_pixel block 0 x y 0) (color_pixel block 0 x y 1)
                       (color_pixel block 0 x y 2) (alpha_pixel block 0 x y)).
Proof.
  intros HW HH Hwf HWo HHo Hwfo Henc Hout Hrow Hcol block x y.
  rewrite (DecompressBC3_MY_pixel _ output Wb Hb row col) by assumption.
  assert (Hy : row mod 4 < 4) by (apply Nat.mod_upper_bound; lia).
  assert (Hbx : col / 4 < Wb) by (apply Nat.Div0.div_lt_upper_bound; lia).
  assert (Hby : row / 4 < Hb) by (apply Nat.Div0.div_lt_upper_bound; lia).
  destruct (CompressBC3_blocks_layout encode bmp out Wb Hb HW HH Henc Hout)
    as (Hin & _).
  assert (Hblock : take 16 (drop (16 * (row / 4 * Wb + col / 4))
                              (CompressBC3_blocks encode bmp out)) = block).
  { subst block. apply list_eq. intros i.
    destruct (Nat.lt_ge_cases i 16) as [Hi|Hi].
    - rewrite !lookup_take_lt, lookup_drop by exact Hi.
      rewrite Hin by assumption.
      now rewrite gather_block_window by (exact Hwf || lia).
    - now rewrite !lookup_take_ge by exact Hi. }
  rewrite !(block_byte_window _ (16 * (row / 4 * Wb + col / 4))) by exact Hy.
  rewrite Hblock. reflexivity.
Qed.

Lemma flat_encode_bc3_length (px : list Z) : 16 <= length (flat_encode_bc3 px).
Proof. cbn. lia. Qed.

(** The statement for X15 on the second block of an 8x4 bitmap. *)
Lemma X15_compressed_block_layout_witness :
  let bmp := mkBitmap (map (fun k => PixelRgba.mk (Z.of_nat k) 7 9 255) (seq 0 32)) 8 4 in
  let out := replicate 40 0%Z in
  let res := CompressBC3_blocks flat_encode_bc3 bmp out in
  take 16 (drop (16 * (0 * 2 + 1)) res) = take 16 (flat_encode_bc3 (block_window bmp 1 0))
  /\ length res = length out
  /\ (forall p, 16 * (2 * 1) <= p -> res !! p = out !! p).
Proof.
  intros bmp out.
  apply (X15_compressed_block_layout flat_encode_bc3 bmp out 2 1 1 0);
    [reflexivity|reflexivity|reflexivity|exact flat_encode_bc3_length|cbn; lia|lia|lia].
Defined.

(** The statement for X16 at pixel (5, 2) of an 8x4 bitmap. *)
Lemma X16_decode_of_compressed_is_block_local_witness :
  let bmp := mkBitmap (map (fun k => PixelRgba.mk (Z.of_nat k) 7 9 255) (seq 0 32)) 8 4 in
  let output := Bitmap_new 8 4 (PixelRgba.mk 0 0 0 0) in
  let out := replicate 32 0%Z in
  let block := take 16 (flat_encode_bc3 (block_window bmp (5 / 4) (2 / 4))) in
  let x := 5 mod 4 in
  let y := 2 mod 4 in
  pixels (DecompressBC3_MY (CompressBC3_blocks flat_encode_bc3 bmp out) output)
    !! (2 * (4 * 2) + 5)
  = Some (PixelRgba.mk (color_pixel block 0 x y 0) (color_pixel block 0 x y 1)
                       (color_pixel block 0 x y 2) (alpha_pixel block 0 x y)).
Proof.
  intros bmp output out.
  apply (X16_decode_of_compressed_is_block_local flat_encode_bc3 bmp output out 2 1 2 5);
    [reflexivity|reflexivity|reflexivity|reflexivity|reflexivity|reflexivity
    |exact flat_encode_bc3_length|cbn; lia|lia|lia].
Defined.

(** *** Mips of a validated texture *)

Lemma pow2_ge_4 (k : nat) : 4 <= 2 ^ k -> 2 <= k.
Proof.
  intros Hk. destruct k as [|[|k]]; [cbn in Hk; lia|cbn in Hk; lia|lia].
Qed.

Lemma mip_dim_pow2 (w i : nat) :
  is_power_of_two w -> 4 <= w ->
  exists k, 2 <= k /\ mip_dim w i = 2 ^ k.
Proof.
  intros [k ->] Hw. pose proof (pow2_ge_4 k Hw) as Hk.
  destruct i as [|i]; [now exists k|].
  cbn [mip_dim]. rewrite Nat.shiftr_div_pow2. unfold kMinMipSize.
  destruct (Nat.le_gt_cases (S i + 2) k) as [Hle|Hgt].
  - exists (k - S i). split; [lia|].
    rewrite <- Nat.pow_sub_r by lia.
    assert (2 ^ 2 <= 2 ^ (k - S i)) by (apply Nat.pow_le_mono_r; lia).
    change (2 ^ 2) with 4 in *. lia.
  - exists 2. split; [lia|]. change (2 ^ 2) with 4.
    assert (2 ^ k / 2 ^ S i <= 2); [|lia].
    destruct (Nat.le_gt_cases (S i) k) as [Hik|Hik].
    + rewrite <- Nat.pow_sub_r by lia.
      assert (2 ^ (k - S i) <= 2 ^ 1) by (apply Nat.pow_le_mono_r; lia).
      change (2 ^ 1) with 2 in *. lia.
    + rewrite Nat.div_small; [lia|]. apply Nat.pow_lt_mono_r; lia.
Qed.

Lemma pow2_whole_blocks (k : nat) : 2 <= k -> 2 ^ k = 4 * 2 ^ (k - 2).
Proof.
  intros Hk. replace k with (2 + (k - 2)) at 1 by lia.
  now rewrite Nat.pow_add_r.
Qed.

Section WholeBlocks.
Context `{Externals}.

(** X17.  When the base dimensions are powers of two and at least 4, every
    mip of the texture is made of whole 4x4 blocks: its width and height are
    powers of two, multiples of 4, it holds width * height pixels, and its
    compressed form takes exactly one byte per pixel, whatever the
    compressor. *)
Theorem X17_mips_are_whole_blocks (W H0 i : nat) (q : Z) (mip : Bitmap PixelRgba.t) :
  is_power_of_two W -> is_power_of_two H0 -> 4 <= W -> 4 <= H0 ->
  mips (Texture_new W H0) !! i = Some mip ->
  is_power_of_two (width mip) /\ is_power_of_two (height mip)
  /\ (exists Wb Hb, 0 < Wb /\ 0 < Hb /\ width mip = 4 * Wb /\ height mip = 4 * Hb)
  /\ Bitmap_wf mip
  /\ length (compress_mip q mip) = width mip * height mip.
Proof.
  intros HW HH HW4 HH4 Hmip.
  assert (Hi : i < Log2I (Nat.max W H0)).
  { apply lookup_lt_Some in Hmip. unfold Texture_new in Hmip. cbn [mips] in Hmip.
    now rewrite Texture_push_length in Hmip. }
  unfold Texture_new in Hmip. cbn [mips] in Hmip.
  rewrite Texture_push_lookup in Hmip by exact Hi. injection Hmip as <-.
  destruct (mip_dim_pow2 W i HW HW4) as (kw & Hkw & Ew).
  destruct (mip_dim_pow2 H0 i HH HH4) as (kh & Hkh & Eh).
  rewrite compress_mip_length. unfold Bitmap_wf, Bitmap_new. cbn [width height pixels].
  rewrite Ew, Eh, length_replicate.
  split; [now exists kw|]. split; [now exists kh|].
  rewrite (pow2_whole_blocks kw Hkw), (pow2_whole_blocks kh Hkh).
  assert (0 < 2 ^ (kw - 2)) by (apply Nat.neq_0_lt_0, Nat.pow_nonzero; lia).
  assert (0 < 2 ^ (kh - 2)) by (apply Nat.neq_0_lt_0, Nat.pow_nonzero; lia).
  split; [exists (2 ^ (kw - 2)), (2 ^ (kh - 2)); repeat split; assumption|].
  split; [reflexivity|].
  rewrite !(Nat.mul_comm 4), !Nat.div_mul by lia. lia.
Qed.
End WholeBlocks.

(** The statement for X17 at the last mip of a 32x8 texture. *)
Lemma X17_mips_are_whole_blocks_witness :
  let mip := Bitmap_new 4 4 (PixelRgba.mk 0 0 0 0) in
  is_power_of_two (width mip) /\ is_power_of_two (height mip)
  /\ (exists Wb Hb, 0 < Wb /\ 0 < Hb /\ width mip = 4 * Wb /\ height mip = 4 * Hb)
  /\ Bitmap_wf mip
  /\ length (compress_mip (H:=sample_externals) 1 mip) = width mip * height mip.
Proof.
  intros mip.
  apply (X17_mips_are_whole_blocks (H:=sample_externals) 32 8 4 1 mip);
    [exists 5; reflexivity|exists 3; reflexivity|lia|lia|reflexivity].
Defined.

(** *** Reference decoder: clipped blocks, value ranges, BC1 mode *)

(** X18.  [DecodeBC3AlphaBlock] on a clipped block.  For a block [w <= 4]
    pixels wide and any number of rows, pixel [(x, y)] still takes the index
    [(stream >> 3 * (4 * y + x)) & 7]: the indices of the columns that are
    not written are skipped, so every row consumes 12 bits.  The buffer
    keeps its length and no byte other than the [w * h] written ones
    changes. *)
Theorem X18_alpha_clipped_block (mem src : list Z)
    (dest w h xOff yOff soff x y : nat) :
  w <= 4 -> 1 <= xOff -> (w - 1) * xOff + 1 <= yOff ->
  x < w -> y < h ->
  dest + yOff * y + x * xOff < length mem ->
  let out := DecodeBC3AlphaBlock mem dest w h xOff yOff src soff in
  let stream := Z.shiftr (load_u64 src soff) 16 in
  out !! (dest + yOff * y + x * xOff)
  = Some (alpha_value (byte_at src soff) (byte_at src (soff + 1))
            (Z.land (Z.shiftr stream (3 * Z.of_nat (4 * y + x))) 7))
  /\ length out = length mem
  /\ (forall p, (forall y' x', y' < h -> x' < w -> p <> dest + yOff * y' + x' * xOff) ->
        out !! p = mem !! p).
Proof.
  intros Hw HxOff HyOff Hx Hy Hlen out stream. subst out.
  rewrite DecodeBC3AlphaBlock_rows. fold stream.
  split; [|split].
  - rewrite alpha_rows_hit by assumption. repeat f_equal. lia.
  - now rewrite alpha_rows_length.
  - intros p Hp. now rewrite alpha_rows_miss.
Qed.

(** The statement above on the 3x2 corner of a block. *)
Lemma X18_alpha_clipped_block_witness :
  let src := [200; 100; 0x88; 0xC6; 0xFA; 0; 0; 0]%Z in
  let mem := replicate 64 7%Z in
  let out := DecodeBC3AlphaBlock mem 3 3 2 4 16 src 0 in
  let stream := Z.shiftr (load_u64 src 0) 16 in
  out !! (3 + 16 * 1 + 2 * 4)
  = Some (alpha_value (byte_at src 0) (byte_at src (0 + 1))
            (Z.land (Z.shiftr stream (3 * Z.of_nat (4 * 1 + 2))) 7))
  /\ length out = length mem
  /\ (forall p, (forall y' x', y' < 2 -> x' < 3 -> p <> 3 + 16 * y' + x' * 4) ->
        out !! p = mem !! p).
Proof.
  intros src mem.
  apply (X18_alpha_clipped_block mem src 3 3 2 4 16 0 2 1); cbn; lia.
Defined.

Lemma endpoint565_bounds (c : Z) :
  (0 <= nth 0 (endpoint565 c) 0 <= 248)%Z
  /\ (0 <= nth 1 (endpoint565 c) 0 <= 252)%Z
  /\ (0 <= nth 2 (endpoint565 c) 0 <= 248)%Z.
Proof.
  unfold endpoint565. cbn [nth]. rewrite !Z.shiftl_mul_pow2 by lia.
  pose proof (land_mask_range (Z.shiftr c 11) 5 ltac:(lia)) as Hr.
  pose proof (land_mask_range (Z.shiftr c 5) 6 ltac:(lia)) as Hg.
  pose proof (land_mask_range c 5 ltac:(lia)) as Hb.
  change (Z.ones 5) with 31%Z in *. change (Z.ones 6) with 63%Z in *.
  change (2 ^ 5)%Z with 32%Z in *. change (2 ^ 6)%Z with 64%Z in *.
  change (2 ^ 3)%Z with 8%Z. change (2 ^ 2)%Z with 4%Z. lia.
Qed.

Lemma land_3_range (v : Z) : (0 <= Z.land v 3 <= 3)%Z.
Proof.
  pose proof (land_mask_range v 2 ltac:(lia)) as Hr.
  change (Z.ones 2) with 3%Z in Hr. change (2 ^ 2)%Z with 4%Z in Hr. lia.
Qed.

Lemma between_bounds (a b v lo hi : Z) :
  (lo <= a <= hi)%Z -> (lo <= b <= hi)%Z -> between a b v -> (lo <= v <= hi)%Z.
Proof.
  unfold between. intros Ha Hb.
  destruct (Z.min_spec a b) as [[? ->]|[? ->]];
    destruct (Z.max_spec a b) as [[? ->]|[? ->]]; lia.
Qed.

Lemma thirds_between (a b : Z) :
  (0 <= a)%Z -> (0 <= b)%Z ->
  between a b a /\ between a b b
  /\ between a b ((2 * a + b + 1) / 3) /\ between a b ((a + 2 * b + 1) / 3).
Proof.
  intros Ha Hb. unfold between.
  pose proof (Z.div_mod (2 * a + b + 1) 3 ltac:(lia)) as E2.
  pose proof (Z.mod_pos_bound (2 * a + b + 1) 3 ltac:(lia)) as M2.
  pose proof (Z.div_mod (a + 2 * b + 1) 3 ltac:(lia)) as E3.
  pose proof (Z.mod_pos_bound (a + 2 * b + 1) 3 ltac:(lia)) as M3.
  set (q2 := ((2 * a + b + 1) / 3)%Z) in *. set (r2 := ((2 * a + b + 1) mod 3)%Z) in *.
  set (q3 := ((a + 2 * b + 1) / 3)%Z) in *. set (r3 := ((a + 2 * b + 1) mod 3)%Z) in *.
  clearbody q2 r2 q3 r3.
  destruct (Z.min_spec a b) as [[? ->]|[? ->]];
    destruct (Z.max_spec a b) as [[? ->]|[? ->]]; lia.
Qed.

Lemma color_pixel_between (blocks : list Z) (s x y ch : nat) :
  ch < 3 ->
  between (nth ch (endpoint565 (load_u16 blocks (s + 8))) 0%Z)
          (nth ch (endpoint565 (load_u16 blocks (s + 8 + 2))) 0%Z)
          (color_pixel blocks s x y ch).
Proof.
  intros Hch. unfold color_pixel, between. rewrite color_table_bc3.
  set (c0 := load_u16 blocks (s + 8)). set (c1 := load_u16 blocks (s + 8 + 2)).
  set (k := Z.land _ 3). pose proof (land_3_range (Z.shiftr (byte_at blocks (s + 8 + 4 + y))
                                                     (2 * Z.of_nat x))) as Hk.
  fold k in Hk.
  destruct (endpoint565_bounds c0) as (Hr0 & Hg0 & Hb0).
  destruct (endpoint565_bounds c1) as (Hr1 & Hg1 & Hb1).
  unfold color_entry.
  assert (Hcases : Z.to_nat k = 0 \/ Z.to_nat k = 1 \/ Z.to_nat k = 2 \/ Z.to_nat k = 3) by lia.
  unfold endpoint565 in *. cbn [nth] in Hr0, Hg0, Hb0, Hr1, Hg1, Hb1.
  destruct ch as [|[|[|ch]]]; [| | |lia];
    destruct Hcases as [->|[->|[->| ->]]]; cbn [nth zip_with];
    match goal with
    | |- (Z.min ?a ?b <= _ <= _)%Z =>
        destruct (thirds_between a b ltac:(tauto) ltac:(tauto)) as (B0 & B1 & B2 & B3)
    end; assumption.
Qed.

Lemma weighted_between (a0 a1 p q n : Z) :
  (0 <= p)%Z -> (0 <= q)%Z -> (p + q = n)%Z -> (0 < n)%Z ->
  between a0 a1 ((p * a0 + q * a1) / n).
Proof.
  intros Hp Hq Hn Hpos. unfold between.
  assert (Hlo : (n * Z.min a0 a1 <= p * a0 + q * a1)%Z).
  { destruct (Z.min_spec a0 a1) as [[? ->]|[? ->]]; nia. }
  assert (Hhi : (p * a0 + q * a1 <= n * Z.max a0 a1)%Z).
  { destruct (Z.max_spec a0 a1) as [[? ->]|[? ->]]; nia. }
  split; [now apply Z.div_le_lower_bound|now apply Z.div_le_upper_bound].
Qed.

Lemma alpha_pixel_between (blocks : list Z) (s x y : nat) :
  (0 <= byte_at blocks s <= 255)%Z -> (0 <= byte_at blocks (s + 1) <= 255)%Z ->
  between (byte_at blocks s) (byte_at blocks (s + 1)) (alpha_pixel blocks s x y)
  \/ ((byte_at blocks s <= byte_at blocks (s + 1))%Z
      /\ (alpha_pixel blocks s x y = 0%Z \/ alpha_pixel blocks s x y = 255%Z)).
Proof.
  intros H0 H1. unfold alpha_pixel.
  set (a0 := byte_at blocks s) in *. set (a1 := byte_at blocks (s + 1)) in *.
  set (k := Z.land _ 7).
  assert (Hk : (0 <= k <= 7)%Z) by apply land_7_range.
  clearbody k a0 a1.
  destruct (alpha_value_cases a0 a1 k H0 H1 Hk) as (E0 & E1 & E7 & E5 & E6 & E255).
  assert (Hends : between a0 a1 a0 /\ between a0 a1 a1).
  { unfold between.
    destruct (Z.min_spec a0 a1) as [[? ->]|[? ->]];
      destruct (Z.max_spec a0 a1) as [[? ->]|[? ->]]; lia. }
  destruct (Z.eq_dec k 0%Z) as [Hk0|Hk0]; [left; rewrite (E0 Hk0); tauto|].
  destruct (Z.eq_dec k 1%Z) as [Hk1|Hk1]; [left; rewrite (E1 Hk1); tauto|].
  destruct (Z_gt_le_dec a0 a1) as [Hgt|Hle].
  - left. rewrite (E7 Hgt) by lia. apply weighted_between; lia.
  - destruct (Z.eq_dec k 6%Z) as [Hk6|Hk6];
      [right; split; [exact Hle|left; now apply E6]|].
    destruct (Z.eq_dec k 7%Z) as [Hk7|Hk7];
      [right; split; [exact Hle|right; now apply E255]|].
    left. rewrite (E5 Hle) by lia. apply weighted_between; lia.
Qed.

(** X19.  What [DecompressBC3_MY] can produce.  On an image of whole
    blocks every decoded colour channel lies between the two widened
    endpoints of its block, so red and blue never exceed 248 and green
    never exceeds 252 (the 5- and 6-bit fields are widened by a shift, the
    low bits stay 0 at the endpoints); alpha lies between the two alpha
    endpoints, or is 0 or 255 in the six-value mode [a0 <= a1]. *)
Theorem X19_decoded_channel_ranges (blocks : list Z) (output : Bitmap PixelRgba.t)
    (Wb Hb row col : nat) (dp : PixelRgba.t) :
  width output = 4 * Wb -> height output = 4 * Hb -> Bitmap_wf output ->
  row < 4 * Hb -> col < 4 * Wb ->
  let s := 16 * ((row / 4) * Wb + col / 4) in
  let a0 := byte_at blocks s in
  let a1 := byte_at blocks (s + 1) in
  let e0 := endpoint565 (load_u16 blocks (s + 8)) in
  let e1 := endpoint565 (load_u16 blocks (s + 10)) in
  (0 <= a0 <= 255)%Z -> (0 <= a1 <= 255)%Z ->
  pixels (DecompressBC3_MY blocks output) !! (row * (4 * Wb) + col) = Some dp ->
  between (nth 0 e0 0%Z) (nth 0 e1 0%Z) (PixelRgba.r dp)
  /\ between (nth 1 e0 0%Z) (nth 1 e1 0%Z) (PixelRgba.g dp)
  /\ between (nth 2 e0 0%Z) (nth 2 e1 0%Z) (PixelRgba.b dp)
  /\ (0 <= PixelRgba.r dp <= 248)%Z
  /\ (0 <= PixelRgba.g dp <= 252)%Z
  /\ (0 <= PixelRgba.b dp <= 248)%Z
  /\ (between a0 a1 (PixelRgba.a dp)
      \/ ((a0 <= a1)%Z /\ (PixelRgba.a dp = 0%Z \/ PixelRgba.a dp = 255%Z))).
Proof.
  intros HW HH Hwf Hrow Hcol s a0 a1 e0 e1 Ha0 Ha1 Hdp.
  rewrite (DecompressBC3_MY_pixel blocks output Wb Hb row col) in Hdp by assumption.
  fold s in Hdp. clearbody s. injection Hdp as <-.
  cbn [PixelRgba.r PixelRgba.g PixelRgba.b PixelRgba.a].
  unfold block_byte.
  change (0 <? 3) with true. change (1 <? 3) with true.
  change (2 <? 3) with true. change (3 <? 3) with false. cbv iota.
  pose proof (color_pixel_between blocks s (col mod 4) (row mod 4) 0 ltac:(lia)) as Br.
  pose proof (color_pixel_between blocks s (col mod 4) (row mod 4) 1 ltac:(lia)) as Bg.
  pose proof (color_pixel_between blocks s (col mod 4) (row mod 4) 2 ltac:(lia)) as Bb.
  replace (s + 8 + 2) with (s + 10) in Br, Bg, Bb by lia.
  fold e0 e1 in Br, Bg, Bb.
  destruct (endpoint565_bounds (load_u16 blocks (s + 8))) as (Hr0 & Hg0 & Hb0).
  destruct (endpoint565_bounds (load_u16 blocks (s + 10))) as (Hr1 & Hg1 & Hb1).
  fold e0 in Hr0, Hg0, Hb0. fold e1 in Hr1, Hg1, Hb1.
  split; [exact Br|]. split; [exact Bg|]. split; [exact Bb|].
  split; [exact (between_bounds _ _ _ _ _ Hr0 Hr1 Br)|].
  split; [exact (between_bounds _ _ _ _ _ Hg0 Hg1 Bg)|].
  split; [exact (between_bounds _ _ _ _ _ Hb0 Hb1 Bb)|].
  apply alpha_pixel_between; assumption.
Qed.

(** The statement above at pixel (2, 1) of a 4x4 image of one block. *)
Lemma X19_decoded_channel_ranges_witness :
  let blocks := [200; 100; 0x88; 0xC6; 0xFA; 0; 0; 0;
                 0xFF; 0xFF; 0x1F; 0x00; 0x1B; 0x00; 0x00; 0x00]%Z in
  let output := Bitmap_new 4 4 (PixelRgba.mk 0 0 0 0) in
  let dp := PixelRgba.mk 248 252 248 128 in
  let e0 := endpoint565 (load_u16 blocks 8) in
  let e1 := endpoint565 (load_u16 blocks 10) in
  between (nth 0 e0 0%Z) (nth 0 e1 0%Z) (PixelRgba.r dp)
  /\ between (nth 1 e0 0%Z) (nth 1 e1 0%Z) (PixelRgba.g dp)
  /\ between (nth 2 e0 0%Z) (nth 2 e1 0%Z) (PixelRgba.b dp)
  /\ (0 <= PixelRgba.r dp <= 248)%Z
  /\ (0 <= PixelRgba.g dp <= 252)%Z
  /\ (0 <= PixelRgba.b dp <= 248)%Z
  /\ (between 200 100 (PixelRgba.a dp)
      \/ ((200 <= 100)%Z /\ (PixelRgba.a dp = 0%Z \/ PixelRgba.a dp = 255%Z))).
Proof.
  intros blocks output dp.
  apply (X19_decoded_channel_ranges blocks output 1 1 1 2 dp);
    [reflexivity|reflexivity|reflexivity|lia|lia|cbn; lia|cbn; lia|].
  vm_compute. reflexivity.
Defined.

Lemma color_table_bc1 (c0 c1 : Z) :
  color_table false c0 c1
  = if (c1 <? c0)%Z then color_table true c0 c1
    else [ endpoint565 c0; endpoint565 c1;
           zip_with (fun a b => (a + b + 1) / 2)%Z (endpoint565 c0) (endpoint565 c1);
           [0; 0; 0]%Z ].
Proof.
  unfold color_table. cbn [orb]. rewrite orb_false_r, orb_true_r.
  destruct (c1 <? c0)%Z; [reflexivity|].
  rewrite !expand565_endpoint. do 2 f_equal. f_equal.
  apply (zip_with_ext_Forall (fun v => 0 <= v <= 252)%Z);
    auto using endpoint565_range.
  intros a b Ha Hb. unfold to_u8. rewrite Z.shiftr_div_pow2 by lia.
  change (2 ^ 1)%Z with 2%Z. apply Z.mod_small.
  split; [apply Z.div_pos; lia|apply Z.div_lt_upper_bound; lia].
Qed.

(** X20.  The colour decoder in BC1 mode ([isBC3 = false]), on a block of
    any size.  With [c0 > c1] it writes what the BC3 mode writes.  With
    [c0 <= c1] it has three colours and black: index 2 is the mean of the
    endpoints rounded up, [(e0 + e1 + 1) / 2] per channel, index 3 is
    [(0, 0, 0)]. *)
Theorem X20_bc1_colour_modes (mem src : list Z)
    (dest w h xOff yOff soff x y ch : nat) :
  3 <= xOff -> (w - 1) * xOff + 3 <= yOff ->
  x < w -> y < h -> ch < 3 ->
  dest + yOff * y + x * xOff + ch < length mem ->
  let c0 := load_u16 src soff in
  let c1 := load_u16 src (soff + 2) in
  let e0 := endpoint565 c0 in
  let e1 := endpoint565 c1 in
  let index := Z.land (Z.shiftr (byte_at src (soff + 4 + y)) (2 * Z.of_nat x)) 3 in
  let p := dest + yOff * y + x * xOff + ch in
  let out := DecodeBCColorBlock false mem dest w h xOff yOff src soff in
  ((c0 > c1)%Z ->
     out !! p = DecodeBCColorBlock true mem dest w h xOff yOff src soff !! p)
  /\ ((c0 <= c1)%Z ->
      out !! p
      = Some (nth ch (nth (Z.to_nat index)
                        [ e0; e1; zip_with (fun a b => (a + b + 1) / 2)%Z e0 e1; [0; 0; 0]%Z ]
                        []) 0%Z)).
Proof.
  intros HxOff HyOff Hx Hy Hch Hlen c0 c1 e0 e1 index p out. subst out p.
  rewrite !DecodeBCColorBlock_rows. fold c0 c1.
  rewrite !color_rows_hit by assumption. fold index.
  rewrite color_table_bc1.
  split; intros Hc.
  - destruct (Z.ltb_spec c1 c0); [reflexivity|lia].
  - destruct (Z.ltb_spec c1 c0); [lia|reflexivity].
Qed.

(** The statement above on a block with [c0 = 0x001F <= c1 = 0xFFFF]. *)
Lemma X20_bc1_colour_modes_witness :
  let src := [0x1F; 0x00; 0xFF; 0xFF; 0x1B; 0xE4; 0x00; 0x00]%Z in
  let mem := replicate 64 7%Z in
  let c0 := load_u16 src 0 in
  let c1 := load_u16 src (0 + 2) in
  let e0 := endpoint565 c0 in
  let e1 := endpoint565 c1 in
  let index := Z.land (Z.shiftr (byte_at src (0 + 4 + 1)) (2 * Z.of_nat 2)) 3 in
  let p := 0 + 16 * 1 + 2 * 4 + 1 in
  let out := DecodeBCColorBlock false mem 0 4 4 4 16 src 0 in
  ((c0 > c1)%Z ->
     out !! p = DecodeBCColorBlock true mem 0 4 4 4 16 src 0 !! p)
  /\ ((c0 <= c1)%Z ->
      out !! p
      = Some (nth 1 (nth (Z.to_nat index)
                       [ e0; e1; zip_with (fun a b => (a + b + 1) / 2)%Z e0 e1; [0; 0; 0]%Z ]
                       []) 0%Z)).
Proof.
  intros src mem.
  apply (X20_bc1_colour_modes mem src 0 4 4 4 16 0 2 1 1); cbn; lia.
Defined.

(** *** Command line *)

Lemma find_snoc {A} (f : A -> bool) (l : list A) (s : A) :
  List.find f (l ++ [s])
  = match List.find f l with
    | Some x => Some x
    | None => if f s then Some s else None
    end.
Proof.
  induction l as [|a l IH]; cbn; [reflexivity|].
  destruct (f a); [reflexivity|exact IH].
Qed.

Lemma key_of_inj (s1 s2 : Cli.ParamSlot) : Cli.key_of s1 = Cli.key_of s2 -> s1 = s2.
Proof. destruct s1, s2; cbn; intros Hk; first [reflexivity|discriminate Hk]. Qed.

Lemma slot_eq_dec (s1 s2 : Cli.ParamSlot) : {s1 = s2} + {s1 <> s2}.
Proof. decide equality. Qed.

Lemma get_set_param_eq slot v p : Cli.get_param slot (Cli.set_param slot v p) = v.
Proof. destruct slot; reflexivity. Qed.

Lemma get_set_param_ne slot slot' v p :
  slot <> slot' -> Cli.get_param slot' (Cli.set_param slot v p) = Cli.get_param slot' p.
Proof. intros Hne. destruct slot, slot'; first [reflexivity|congruence]. Qed.

Lemma find_erase_spec (c : Ascii.ascii) (pm : list (Ascii.ascii * Cli.ParamSlot)) :
  NoDup (pm.*1) ->
  match Cli.find_erase c pm with
  | Some (slot, pm') =>
      (c, slot) ∈ pm /\ NoDup (pm'.*1) /\ (forall e, e ∈ pm' <-> e ∈ pm /\ e.1 <> c)
  | None => forall e, e ∈ pm -> e.1 <> c
  end.
Proof.
  induction pm as [|[k v] rest IH]; intros Hnd; cbn [Cli.find_erase fst snd].
  - intros e He. now apply elem_of_nil in He.
  - rewrite fmap_cons in Hnd. cbn [fst] in Hnd. apply NoDup_cons in Hnd as [Hk Hrest].
    destruct (Ascii.eqb_spec c k) as [->|Hne].
    + split; [apply list_elem_of_here|]. split; [exact Hrest|].
      intros e. rewrite elem_of_cons. split.
      * intros He. split; [now right|]. intros Hek. apply Hk. rewrite <- Hek.
        now apply (list_elem_of_fmap_2 fst) in He.
      * intros [[->|He] Hek]; [now cbn in Hek|exact He].
    + specialize (IH Hrest). destruct (Cli.find_erase c rest) as [[slot rest']|].
      * destruct IH as (Hin & Hnd' & Hiff). split; [now apply list_elem_of_further|].
        split.
        -- rewrite fmap_cons. cbn [fst]. apply NoDup_cons. split; [|exact Hnd'].
           intros Hk'. apply Hk. apply list_elem_of_fmap in Hk' as (e & He1 & He).
           apply Hiff in He as [He _]. apply (list_elem_of_fmap_2 fst) in He.
           now rewrite He1.
        -- intros e. rewrite !elem_of_cons, Hiff. split.
           ++ intros [->|[He Hek]]; [split; [now left|cbn; congruence]|split; [now right|exact Hek]].
           ++ intros [[->|He] Hek]; [now left|right; now split].
      * intros e. rewrite elem_of_cons. intros [->|He]; [cbn; congruence|now apply IH].
Qed.

Lemma parse_invariant (argv : list String.string) :
  let st := fold_left Cli.parse_arg argv (Cli.paramsMap_init, Cli.no_params) in
  NoDup (st.1.*1)
  /\ (forall e, e ∈ st.1 -> e.1 = Cli.key_of e.2)
  /\ (forall slot, (Cli.key_of slot, slot) ∈ st.1
                   <-> List.find (Cli.is_arg_for (Cli.key_of slot)) argv = None)
  /\ (forall slot, Cli.get_param slot st.2 = Cli.first_value slot argv).
Proof.
  induction argv as [|s l IH] using rev_ind; cbv zeta.
  - cbn [fold_left fst snd]. split; [|split; [|split]].
    + cbn. repeat (apply NoDup_cons; split;
                     [rewrite ?elem_of_cons, ?elem_of_nil; intuition discriminate|]).
      apply NoDup_nil_2.
    + intros e He. unfold Cli.paramsMap_init in He.
      repeat (apply elem_of_cons in He as [->|He]; [reflexivity|]).
      now apply elem_of_nil in He.
    + intros slot. split; [reflexivity|]. intros _.
      destruct slot; unfold Cli.paramsMap_init; cbn [Cli.key_of];
        repeat first [apply list_elem_of_here | apply list_elem_of_further].
    + intros slot. destruct slot; reflexivity.
  - rewrite fold_left_app. cbn [fold_left]. cbv zeta in IH.
    destruct (fold_left Cli.parse_arg l (Cli.paramsMap_init, Cli.no_params)) as [pm ps].
    cbn [fst snd] in IH. destruct IH as (Hnd & Hkey & Hpm & Hval).
    unfold Cli.first_value in *.
    assert (Hsame : (forall c, Cli.is_arg_for c s = false) ->
              NoDup (pm.*1)
              /\ (forall e, e ∈ pm -> e.1 = Cli.key_of e.2)
              /\ (forall slot, (Cli.key_of slot, slot) ∈ pm
                     <-> List.find (Cli.is_arg_for (Cli.key_of slot)) (l ++ [s]) = None)
              /\ (forall slot, Cli.get_param slot ps
                     = match List.find (Cli.is_arg_for (Cli.key_of slot)) (l ++ [s]) with
                       | Some s0 => Cli.arg_value s0
                       | None => String.EmptyString
                       end)).
    { intros Hno. split; [exact Hnd|]. split; [exact Hkey|]. split.
      - intros slot. rewrite find_snoc, Hno, Hpm.
        now destruct (List.find (Cli.is_arg_for (Cli.key_of slot)) l).
      - intros slot. rewrite find_snoc, Hno, Hval.
        now destruct (List.find (Cli.is_arg_for (Cli.key_of slot)) l). }
    unfold Cli.parse_arg.
    lazymatch goal with
    | |- context [if (?a && ?b)%bool then _ else _] => destruct (a && b)%bool eqn:Hform
    end;
      [|cbn [fst snd]; apply Hsame; intros c; unfold Cli.is_arg_for; now rewrite Hform].
    lazymatch goal with
    | |- context [if Ascii.eqb ?a ?b then _ else _] => destruct (Ascii.eqb a b) eqn:Hdash
    end;
      [|cbn [fst snd]; apply Hsame; intros c; unfold Cli.is_arg_for;
        now rewrite Hform, Hdash].
    assert (Harg : forall c, Cli.is_arg_for c s = Ascii.eqb (Cli.char_at s 1) c)
      by (intros c; unfold Cli.is_arg_for; now rewrite Hform, Hdash).
    pose proof (find_erase_spec (Cli.char_at s 1) pm Hnd) as Hfe.
    destruct (Cli.find_erase (Cli.char_at s 1) pm) as [[slot pm']|]; cbn [fst snd].
    + destruct Hfe as (Hin & Hnd' & Hiff).
      assert (Hc : Cli.char_at s 1 = Cli.key_of slot) by exact (Hkey _ Hin).
      split; [exact Hnd'|]. split; [intros e He; apply Hkey; now apply Hiff in He|].
      split.
      * intros slot'. rewrite find_snoc, Harg, Hiff, Hpm. cbn [fst].
        destruct (List.find (Cli.is_arg_for (Cli.key_of slot')) l);
          [split; [intros [? _]; discriminate|discriminate]|].
        destruct (Ascii.eqb_spec (Cli.char_at s 1) (Cli.key_of slot')) as [He|Hne].
        -- split; [intros [_ Hk]; congruence|discriminate].
        -- split; [reflexivity|]. intros _. split; [reflexivity|congruence].
      * intros slot'. rewrite find_snoc, Harg.
        destruct (slot_eq_dec slot slot') as [<-|Hne].
        -- rewrite get_set_param_eq.
           assert (Hnone : List.find (Cli.is_arg_for (Cli.key_of slot)) l = None)
             by (apply Hpm; rewrite <- Hc; exact Hin).
           rewrite Hnone, Hc. now rewrite (proj2 (Ascii.eqb_eq _ _) eq_refl).
        -- rewrite get_set_param_ne by exact Hne. rewrite Hval.
           destruct (List.find (Cli.is_arg_for (Cli.key_of slot')) l); [reflexivity|].
           destruct (Ascii.eqb_spec (Cli.char_at s 1) (Cli.key_of slot')) as [He|_];
             [|reflexivity].
           exfalso. apply Hne. apply key_of_inj. congruence.
    + split; [exact Hnd|]. split; [exact Hkey|]. split.
      * intros slot'. rewrite find_snoc, Harg.
        destruct (List.find (Cli.is_arg_for (Cli.key_of slot')) l) eqn:Hf.
        -- rewrite Hpm, Hf. tauto.
        -- assert (Hin : (Cli.key_of slot', slot') ∈ pm) by now apply Hpm.
           destruct (Ascii.eqb_spec (Cli.char_at s 1) (Cli.key_of slot')) as [He|_];
             [|tauto].
           exfalso. apply (Hfe _ Hin). cbn [fst]. congruence.
      * intros slot'. rewrite find_snoc, Harg, Hval.
        destruct (List.find (Cli.is_arg_for (Cli.key_of slot')) l) eqn:Hf; [reflexivity|].
        destruct (Ascii.eqb_spec (Cli.char_at s 1) (Cli.key_of slot')) as [He|_];
          [|reflexivity].
        exfalso. apply (Hfe (Cli.key_of slot', slot')); [now apply Hpm|].
        cbn [fst]. congruence.
Qed.

(** X21.  The first occurrence wins.  After the loop over [argv], each of
    the six parameters holds the value of the first argument of the form
    [-c:value] for its key, or is empty when there is none: later arguments
    for the same key, arguments of three characters or fewer and arguments
    without the dash or the colon leave it alone.  The program's own name,
    [argv[0]], is scanned like every other argument. *)
Theorem X21_first_occurrence_wins (argv : list String.string) (slot : Cli.ParamSlot) :
  Cli.get_param slot (Cli.parse_args argv) = Cli.first_value slot argv.
Proof.
  destruct (parse_invariant argv) as (_ & _ & _ & Hval). apply Hval.
Qed.





(** *** Level 0 of the two textures *)

Section BaseLevel.
Context `{Externals}.

Lemma build_pyramid_base {T} `{Pixel T} flag w h (image : Bitmap T) :
  1 <= Log2I (Nat.max w h) ->
  mips (build_pyramid flag w h image) !! 0 = Some image.
Proof.
  intros Hn. unfold build_pyramid, BuildMipchain. cbn [mips].
  set (ms := <[0 := image]> (mips (Texture_new w h))).
  destruct (BuildMipchain_prefix flag ms (length ms - 1)) as (_ & _ & Hzero & _).
  rewrite Hzero. subst ms. apply list_lookup_insert_eq.
  unfold Texture_new. cbn [mips]. rewrite Texture_push_length. lia.
Qed.

Lemma check_dimensions_usable {T} (aux : Bitmap PixelMono.t) (normalmap : Bitmap T) :
  width aux = width normalmap -> height aux = height normalmap ->
  check_dimensions aux normalmap = aux.
Proof.
  intros Hw Hh. unfold check_dimensions. rewrite Hw, Hh, !Nat.eqb_refl. cbn.
  now destruct (Bitmap_empty aux && (height normalmap =? 0)).
Qed.

(** X23.  Level 0 is not resampled.  [BuildMipchain] starts at mip 1, so
    mip 0 of the bump texture is the loaded normal map itself, swizzled
    pixel by pixel ([g = n.b], [b = n.g], [a = n.r]) and never renormalised;
    and the alpha of mip 0 of the bump# texture is the height map's own
    pixel, or 128 everywhere when no usable height map was given. *)
Theorem X23_base_level_passes_through (inp : MainInputs) (k : nat) (np : PixelRgba.t) :
  let normalmap := loaded_normalmap inp in
  Bitmap_wf normalmap ->
  (forall bmp, loaded_glossmap inp = Some bmp -> Bitmap_wf bmp) ->
  (forall bmp, loaded_heightmap inp = Some bmp -> Bitmap_wf bmp) ->
  1 <= Log2I (Nat.max (width normalmap) (height normalmap)) ->
  pixels normalmap !! k = Some np ->
  exists (bumpMip bumpXMip : Bitmap PixelRgba.t) (px xp : PixelRgba.t),
    mips (bump_pyramid inp) !! 0 = Some bumpMip
    /\ pixels bumpMip !! k = Some px
    /\ PixelRgba.g px = PixelRgba.b np
    /\ PixelRgba.b px = PixelRgba.g np
    /\ PixelRgba.a px = PixelRgba.r np
    /\ mips (bumpX_pyramid inp) !! 0 = Some bumpXMip
    /\ pixels bumpXMip !! k = Some xp
    /\ ((loaded_heightmap inp = None
         \/ exists hm, loaded_heightmap inp = Some hm
              /\ (pixels hm = [] \/ width hm <> width normalmap
                  \/ height hm <> height normalmap)) ->
        PixelRgba.a xp = 128%Z)
    /\ (forall hm hp, loaded_heightmap inp = Some hm ->
          width hm = width normalmap -> height hm = height normalmap ->
          pixels hm !! k = Some hp ->
          PixelRgba.a xp = PixelMono.r hp).
Proof.
  intros normalmap Hwf Hgwf Hhwf Hn Hnp.
  set (W := width normalmap) in *. set (H0 := height normalmap) in *.
  pose proof (lookup_lt_Some _ _ _ Hnp) as Hk.
  assert (Hlen : length (pixels normalmap) = W * H0) by exact Hwf.
  (* the bump texture *)
  set (N := build_pyramid true W H0 normalmap).
  set (G := build_optional_pyramid W H0
              (check_dimensions (load_optional (loaded_glossmap inp)) normalmap)).
  assert (Hbp : bump_pyramid inp = assemble_bump (linearGloss inp) N G) by reflexivity.
  assert (HN0 : mips N !! 0 = Some normalmap) by now apply build_pyramid_base.
  assert (HNs : shape <$> mips N = shape <$> mips (Texture_new (T:=PixelRgba.t) W H0)).
  { apply build_pyramid_shape. unfold shape. now rewrite Hlen. }
  assert (HGs : shape <$> mips G = shape <$> mips (Texture_new (T:=PixelMono.t) W H0))
    by now apply gloss_pyramid_shape.
  rewrite (Texture_new_shape_indep (T1:=PixelMono.t) (T2:=PixelRgba.t)) in HGs.
  rewrite <- HNs in HGs.
  destruct (same_shape_lookup _ _ _ _ (eq_sym HGs) HN0) as (glossMip & HG0 & HGsh).
  assert (Hgl : length (pixels glossMip) = length (pixels normalmap))
    by (unfold shape in HGsh; congruence).
  destruct (lookup_lt_is_Some_2 (pixels glossMip) k) as [gp Hgp]; [lia|].
  destruct (assemble_bump_pixel (linearGloss inp) N G 0 normalmap glossMip k np gp
              HN0 HG0 Hgl Hnp Hgp) as (bumpMip & Hb0 & Hpx).
  rewrite <- Hbp in Hb0.
  (* the bump# texture *)
  destruct (bumpX_pyramid_lookup inp 0 bumpMip Hwf Hb0)
    as (heightMip & fresh & Hfresh & Hfs & Hh0 & Hres).
  set (hm' := default_heightmap
                (check_dimensions (load_optional (loaded_heightmap inp)) normalmap)
                normalmap) in *.
  assert (Hhm : Bitmap_empty hm' = false /\ length (pixels hm') = W * H0).
  { subst hm'. unfold default_heightmap.
    destruct (Bitmap_empty (check_dimensions (load_optional (loaded_heightmap inp))
                              normalmap)) eqn:E.
    - split.
      + apply Bitmap_empty_false. cbn [pixels Bitmap_new]. fold W H0.
        destruct (W * H0); [lia|discriminate].
      + cbn [pixels Bitmap_new]. now rewrite length_replicate.
    - split; [exact E|].
      pose proof (checked_shape (loaded_heightmap inp) normalmap Hhwf E) as Hs.
      unfold shape in Hs. fold W H0 in Hs. congruence. }
  destruct Hhm as [Hhe Hhl].
  assert (Hhp0 : mips (height_pyramid inp) !! 0 = Some hm').
  { unfold height_pyramid. cbv zeta. fold normalmap W H0 hm'.
    unfold build_optional_pyramid. rewrite Hhe. cbn [negb].
    now apply build_pyramid_base. }
  rewrite (nth_lookup_Some _ _ _ _ Hhp0) in Hh0. subst heightMip.
  assert (Hbl : length (pixels bumpMip) = length (pixels normalmap)).
  { apply lookup_lt_Some in Hpx.
    pose proof (assemble_bump_shape (linearGloss inp) N G) as Hs.
    rewrite <- Hbp in Hs.
    destruct (same_shape_lookup _ _ _ _ Hs Hb0) as (n0 & Hn0 & Hn0s).
    rewrite HN0 in Hn0. injection Hn0 as <-. unfold shape in Hn0s. congruence. }
  assert (Hlx : length (pixels fresh) = length (pixels bumpMip))
    by (unfold shape in Hfs; congruence).
  assert (Hlh : length (pixels hm') = length (pixels bumpMip)) by lia.
  destruct (residual_mip_pixel bumpMip (compress_mip (quality inp) bumpMip)
              hm' fresh k (assemble_pixel (linearGloss inp) np gp) Hlx Hlh Hpx)
    as (dp & hp & Hdp & Hhp & Hout).
  exists bumpMip, (residual_mip bumpMip (compress_mip (quality inp) bumpMip) hm' fresh),
    (assemble_pixel (linearGloss inp) np gp),
    (height_to_alpha (residual_pixel (assemble_pixel (linearGloss inp) np gp) dp) hp).
  split; [exact Hb0|]. split; [exact Hpx|].
  split; [reflexivity|]. split; [reflexivity|]. split; [reflexivity|].
  split; [exact Hres|]. split; [exact Hout|].
  cbn [height_to_alpha PixelRgba.a]. split.
  - intros Hbad.
    assert (E : Bitmap_empty (check_dimensions (load_optional (loaded_heightmap inp))
                                normalmap) = true).
    { destruct Hbad as [->|(hm & -> & Hbad)];
        [apply check_dimensions_not_provided|now apply check_dimensions_unusable]. }
    subst hm'. unfold default_heightmap in Hhp. rewrite E in Hhp.
    cbn [pixels Bitmap_new] in Hhp. apply lookup_replicate in Hhp as [-> _].
    reflexivity.
  - intros hm hp' Hl Hw Hh Hhp'.
    subst hm'. rewrite Hl in Hhp. cbn [load_optional] in Hhp.
    rewrite (check_dimensions_usable hm normalmap Hw Hh) in Hhp.
    unfold default_heightmap in Hhp.
    assert (E : Bitmap_empty hm = false).
    { apply Bitmap_empty_false. intros Hnil. rewrite Hnil in Hhp'. discriminate. }
    rewrite E in Hhp. congruence.
Qed.
End BaseLevel.

(** The statement above on pixel 5 of an 8x8 normal map with no gloss and
    no height map. *)
Lemma X23_base_level_passes_through_witness :
  let inp := scenario None in
  let np := PixelRgba.mk 128 128 255 0 in
  exists (bumpMip bumpXMip : Bitmap PixelRgba.t) (px xp : PixelRgba.t),
    mips (bump_pyramid (H:=sample_externals) inp) !! 0 = Some bumpMip
    /\ pixels bumpMip !! 5 = Some px
    /\ PixelRgba.g px = PixelRgba.b np
    /\ PixelRgba.b px = PixelRgba.g np
    /\ PixelRgba.a px = PixelRgba.r np
    /\ mips (bumpX_pyramid (H:=sample_externals) inp) !! 0 = Some bumpXMip
    /\ pixels bumpXMip !! 5 = Some xp
    /\ ((loaded_heightmap inp = None
         \/ exists hm, loaded_heightmap inp = Some hm
              /\ (pixels hm = [] \/ width hm <> width (loaded_normalmap inp)
                  \/ height hm <> height (loaded_normalmap inp))) ->
        PixelRgba.a xp = 128%Z)
    /\ (forall hm hp, loaded_heightmap inp = Some hm ->
          width hm = width (loaded_normalmap inp) ->
          height hm = height (loaded_normalmap inp) ->
          pixels hm !! 5 = Some hp ->
          PixelRgba.a xp = PixelMono.r hp).
Proof.
  intros inp np.
  apply (X23_base_level_passes_through (H:=sample_externals) inp 5 np);
    [reflexivity|discriminate|discriminate|vm_compute; lia|reflexivity].
Defined.

(** *** MakeMip *)

Section MakeMipOverwrites.
Context `{Externals}.

(** X24.  [MakeMip] overwrites its destination.  When the resampler fills
    the [width * height * 4] bytes of the destination, the result has the
    destination's dimensions, its pixels are the resampler's output read
    four bytes at a time (each renormalised when [normalize] is set), and
    the pixels the destination held before play no part. *)
Theorem X24_MakeMip_overwrites_destination (normalize : bool)
    (src dst dst' : Bitmap PixelRgba.t) :
  let resized :=
    stbir_resize_uint8 (bytes_of_pixels (pixels src)) (width src) (height src)
                       (width dst) (height dst) 4 in
  Bitmap_wf dst -> shape dst' = shape dst ->
  length resized = width dst * height dst * 4 ->
  pixels (MakeMip normalize src dst)
  = map (if normalize then normalize_rgba else id)
        (pixels_of_bytes (width dst * height dst) resized)
  /\ width (MakeMip normalize src dst) = width dst
  /\ height (MakeMip normalize src dst) = height dst
  /\ MakeMip normalize src dst' = MakeMip normalize src dst.
Proof.
  intros resized Hwf Hshape Hres. unfold Bitmap_wf in Hwf.
  unfold shape in Hshape. injection Hshape as Hw Hh Hl.
  assert (Hfill : forall d : Bitmap PixelRgba.t,
            width d = width dst -> height d = height dst ->
            length (pixels d) = length (pixels dst) ->
            MakeMip normalize src d
            = mkBitmap (map (if normalize then normalize_rgba else id)
                            (pixels_of_bytes (width dst * height dst) resized))
                       (width dst) (height dst)).
  { intros d Hdw Hdh Hdl. unfold MakeMip. cbv zeta.
    cbn [BytesPerPixel Pixel_Rgba pixel_normalize]. rewrite Hdw, Hdh, Hdl. fold resized.
    rewrite overwrite_whole by (rewrite bytes_of_rgba_length, Hdl; lia).
    rewrite Hwf. change (3 <=? 4) with true. rewrite andb_true_r.
    destruct normalize; [reflexivity|]. now rewrite map_id. }
  rewrite (Hfill dst eq_refl eq_refl eq_refl), (Hfill dst' Hw Hh Hl).
  repeat split.
Qed.
End MakeMipOverwrites.

(** The statement above for an 8x8 source and a 4x4 destination. *)
Lemma X24_MakeMip_overwrites_destination_witness :
  let src := flat_normalmap 7 in
  let dst := Bitmap_new 4 4 (PixelRgba.mk 0 0 0 0) in
  let dst' := Bitmap_new 4 4 (PixelRgba.mk 1 2 3 4) in
  let resized :=
    point_resize (bytes_of_pixels (pixels src)) (width src) (height src)
                 (width dst) (height dst) 4 in
  pixels (MakeMip (H:=sample_externals) true src dst)
  = map normalize_rgba (pixels_of_bytes (width dst * height dst) resized)
  /\ width (MakeMip (H:=sample_externals) true src dst) = width dst
  /\ height (MakeMip (H:=sample_externals) true src dst) = height dst
  /\ MakeMip (H:=sample_externals) true src dst'
     = MakeMip (H:=sample_externals) true src dst.
Proof.
  intros src dst dst'.
  apply (X24_MakeMip_overwrites_destination (H:=sample_externals) true src dst dst');
    reflexivity.
Defined.
